(** * Borehole log layout: pagination, clipping, depth mapping, ruler,
      header and text wrapping

    A shallow embedding of the log routines of
    [borehole_log_professional_dummy2.py] and [borehole_log_professional.py]:
    the multi-page and the single-page [plot_dummy_borehole_log], the page
    header [draw_header], the three-column log of class
    [ProfessionalBoreholeLog] and its word wrapper [_wrap_text].

    - Depths and page coordinates are Python floats in the source.  Every
      selection, clamping and label decision of the routines is made of
      comparisons, [max] and [min], which are exact on floats, so the
      modules carry depths as rationals [Q] with exact arithmetic.
    - Module [Binary64] evaluates the depth mapping and the heights of the
      ruler ticks once more on IEEE binary64 numbers (the arithmetic Python
      really uses), for the places where a statement speaks about exact
      equality of computed values.
    - The matplotlib calls made on an axes are recorded, in call order, as a
      list of [draw] values; figure set-up and the file output are left
      out.
    - Module [Wrap] models Python strings as lists of characters. *)

From Stdlib Require Import QArith Qround Qabs Lqa ZArith List Lia Bool Sorted.
From Stdlib Require Import Ascii String Floats.
Import ListNotations.

(** ** Python conventions shared by both modules *)

Module Py.

(** [range(start, stop)] *)
Definition range (start stop : Z) : list Z :=
  map (fun k => (start + Z.of_nat k)%Z) (seq 0 (Z.to_nat (stop - start))).

(** [enumerate(l, start=k)]; also the (index, row) pairs of
    [DataFrame.iterrows()] under the default [RangeIndex]. *)
Fixpoint enumerate_from {A : Type} (k : nat) (l : list A) : list (nat * A) :=
  match l with
  | [] => []
  | x :: t => (k, x) :: enumerate_from (S k) t
  end.

Definition enumerate {A : Type} (l : list A) : list (nat * A) :=
  enumerate_from 0 l.

(** Comparisons of numbers as booleans. *)
Definition Qleb (a b : Q) : bool := Qle_bool a b.
Definition Qltb (a b : Q) : bool := negb (Qle_bool b a).

(** The builtin [max(a, b)]: the first argument unless the second is
    strictly greater; [min(a, b)] likewise. *)
Definition max (a b : Q) : Q := if Qltb a b then b else a.
Definition min (a b : Q) : Q := if Qltb b a then b else a.

End Py.

(** ** The multi-page log routine of [borehole_log_professional_dummy2.py] *)

Module Log.

Import Py.
Open Scope Q_scope.

(** One row of the lithology table (a stratum interval). *)
Module Row.
Record t : Type := mk
    { Depth_Top : Q;
      Depth_Base : Q;
      Geology_Code : string;
      Description : string }.
End Row.

Definition DataFrame : Type := list Row.t.

Definition DUMMY_BOREHOLE_DATA : DataFrame :=
  [ Row.mk 0.0 0.5 "101" "Dark brown silty TOPSOIL with roots";
    Row.mk 0.5 2.0 "102" "Brown MADE GROUND with brick fragments";
    Row.mk 2.0 4.5 "201" "Firm brown CLAY, slightly silty";
    Row.mk 4.5 7.0 "401" "Medium dense fine SAND, some gravel";
    Row.mk 7.0 10.0 "504" "Dense sandy GRAVEL, occasional cobbles";
    Row.mk 10.0 15.0 "801" "Weathered MUDSTONE, grey, fissured" ].

(** The dictionary appended to [intervals] for a row that meets the page. *)
Module Seg.
Record t : Type := mk
    { orig_idx : nat;
      Depth_Top : Q;
      Depth_Base : Q;
      Geology_Code : string;
      Description : string;
      orig_Depth_Top : Q;
      orig_Depth_Base : Q }.
End Seg.

(** What a call on the log axes leaves behind.  The text of a label is kept
    as the value that is formatted, not as the formatted string. *)
Inductive valign : Type := va_center | va_bottom | va_top.
Inductive halign : Type := ha_center | ha_left.

Inductive label : Type :=
| Str (s : string)          (* f"{s}" of a string *)
| Fmt2f (v : Q)             (* f"{v:.2f}" *)
| Int (m : Z).              (* f"{m}" of an int *)

Inductive draw : Type :=
| add_patch (x y width height : Q) (zorder : Z)
| text (x y : Q) (s : label) (va : valign) (ha : halign) (zorder : Z)
| plot (x1 x2 y1 y2 : Q) (linewidth : Q) (zorder : Z).

(** [DUMMY_BOREHOLE_DATA["Depth_Base"].max()]; pandas answers NaN on an
    empty column and [int(np.ceil(nan))] raises, hence [None]. *)
Definition Depth_Base_max (data : DataFrame) : option Q :=
  match data with
  | [] => None
  | r :: rest =>
      Some (fold_left (fun m r' => max m (Row.Depth_Base r')) rest
              (Row.Depth_Base r))
  end.

Definition last_borehole_page (log_depth : Q) : Z :=
  Qceiling (log_depth / 10.0).

Definition page_top (page_num : Z) : Z := (page_num - 1) * 10.
Definition page_bot (page_num : Z) : Z := page_num * 10.

(** Column set-up. *)
Definition log_col_widths : list Q :=
  [0.05; 0.10; 0.06; 0.12; 0.08; 0.08; 0.10; 0.37; 0.04].

Definition log_col_x : list Q :=
  fold_left (fun acc w => acc ++ [last acc 0 + w]) log_col_widths [0].

Definition legend_left : Q := nth 6 log_col_x 0.
Definition legend_width : Q := nth 6 log_col_widths 0.
Definition desc_left : Q := nth 7 log_col_x 0.
Definition desc_width : Q := nth 7 log_col_widths 0.
Definition depth_left : Q := nth 4 log_col_x 0.
Definition depth_width : Q := nth 4 log_col_widths 0.
Definition level_left : Q := nth 5 log_col_x 0.
Definition level_width : Q := nth 5 log_col_widths 0.
Definition ruler_left : Q := nth 8 log_col_x 0.
Definition ruler_width : Q := nth 8 log_col_widths 0.

Definition bottom_line_y : Q := 0.025.
Definition ground_level : Q := 62.5.

(** The closure [depth_to_y] of one page. *)
Definition depth_to_y (page_num : Z) (depth : Q) : Q :=
  let page_depth_range := 10.0 in
  1 - (1 - bottom_line_y)
      * ((depth - inject_Z (page_top page_num)) / page_depth_range).

(** "Find all intervals that overlap this page, splitting if needed". *)
Definition clip_row (page_num : Z) (ir : nat * Row.t) : list Seg.t :=
  let (i, row) := ir in
  let d1 := Row.Depth_Top row in
  let d2 := Row.Depth_Base row in
  if Qleb d2 (inject_Z (page_top page_num))
     || Qleb (inject_Z (page_bot page_num)) d1
  then []
  else
    let seg_top := max d1 (inject_Z (page_top page_num)) in
    let seg_base := min d2 (inject_Z (page_bot page_num)) in
    [ Seg.mk i seg_top seg_base (Row.Geology_Code row)
        (Row.Description row) d1 d2 ].

Definition intervals (data : DataFrame) (page_num : Z) : list Seg.t :=
  flat_map (clip_row page_num) (enumerate data).

(** "Draw each interval": the body of the loop over [enumerate(intervals)]. *)
Definition show_top (seg : Seg.t) : bool :=
  Qltb (Qabs (Seg.Depth_Top seg - Seg.orig_Depth_Top seg)) 1e-6.

Definition show_base (seg : Seg.t) : bool :=
  Qltb (Qabs (Seg.Depth_Base seg - Seg.orig_Depth_Base seg)) 1e-6.

Definition borehole_end_depth (log_depth : Q) (page_num : Z) : Q :=
  min log_depth (inject_Z (page_top page_num + 10)).

Definition y_base_clipped (log_depth : Q) (page_num : Z) (seg : Seg.t) : Q :=
  let y_base := depth_to_y page_num (Seg.Depth_Base seg) in
  let borehole_end_y :=
    depth_to_y page_num (borehole_end_depth log_depth page_num) in
  max y_base borehole_end_y.

Definition draw_bar (log_depth : Q) (page_num : Z) (seg : Seg.t)
  : list draw :=
  let y_top := depth_to_y page_num (Seg.Depth_Top seg) in
  let y_base_clipped := y_base_clipped log_depth page_num seg in
  if Qltb y_base_clipped y_top then
    let y_center := (y_top + y_base_clipped) / 2 in
    [ add_patch legend_left y_base_clipped legend_width
        (y_top - y_base_clipped) 2;
      text (legend_left + legend_width / 2) y_center
        (Str (Seg.Geology_Code seg)) va_center ha_center 3;
      text (desc_left + desc_width * 0.02) y_center
        (Str (Seg.Description seg)) va_center ha_left 3 ]
  else [].

Definition draw_top_label (page_num : Z) (seg : Seg.t) : list draw :=
  let y_top := depth_to_y page_num (Seg.Depth_Top seg) in
  if show_top seg && Qltb 0 (Seg.Depth_Top seg) then
    [ text (depth_left + depth_width / 2) y_top
        (Fmt2f (Seg.Depth_Top seg)) va_bottom ha_center 3;
      text (level_left + level_width / 2) y_top
        (Fmt2f (ground_level - Seg.Depth_Top seg)) va_bottom ha_center 3 ]
  else [].

Definition draw_base_label (page_num : Z) (seg : Seg.t) : list draw :=
  let y_base := depth_to_y page_num (Seg.Depth_Base seg) in
  if show_base seg then
    (* [is_borehole_end] assigns the same [base_va] and [base_y] again *)
    let base_va := va_top in
    let base_y := y_base in
    [ text (depth_left + depth_width / 2) base_y
        (Fmt2f (Seg.Depth_Base seg)) base_va ha_center 3;
      text (level_left + level_width / 2) base_y
        (Fmt2f (ground_level - Seg.Depth_Base seg)) base_va ha_center 3 ]
  else [].

Definition draw_divider (page_num : Z) (j : nat) (seg : Seg.t) : list draw :=
  let y_top := depth_to_y page_num (Seg.Depth_Top seg) in
  if (0 <? j)%nat then
    [ plot legend_left (desc_left + desc_width) y_top y_top 1 15 ]
  else [].

Definition draw_interval (log_depth : Q) (page_num : Z) (jseg : nat * Seg.t)
  : list draw :=
  let (j, seg) := jseg in
  draw_bar log_depth page_num seg
  ++ draw_top_label page_num seg
  ++ draw_base_label page_num seg
  ++ draw_divider page_num j seg.

(** "Add horizontal line at bottom of log". *)
Definition closing_line (log_depth : Q) (page_num : Z) : list draw :=
  let borehole_end_depth := borehole_end_depth log_depth page_num in
  if Qltb borehole_end_depth (inject_Z (page_top page_num + 10)) then
    let borehole_end_y := depth_to_y page_num borehole_end_depth in
    [ plot legend_left (desc_left + desc_width)
        borehole_end_y borehole_end_y 1 16 ]
  else
    [ plot legend_left (desc_left + desc_width)
        bottom_line_y bottom_line_y 1 16 ].

(** The ruler in the rightmost column. *)
Definition ruler_x : Q := ruler_left.
Definition main_tick_length : Q := ruler_width * 0.5.
Definition sub_tick_length : Q := ruler_width * 0.25.

Definition marker_start (page_num : Z) : Z := (page_num - 1) * 10.
Definition marker_end (page_num : Z) : Z := page_num * 10.

Definition main_marker (page_num : Z) (marker : Z) : list draw :=
  let y_marker :=
    1 - (1 - bottom_line_y)
        * (inject_Z (marker - marker_start page_num) / 10) in
  [ plot ruler_x (ruler_x + main_tick_length) y_marker y_marker 1.1 31;
    text (ruler_x + main_tick_length + ruler_width * 0.1) y_marker
      (Int marker) va_center ha_left 32 ].

Definition main_markers (page_num : Z) : list draw :=
  flat_map (main_marker page_num)
    (range (marker_start page_num) (marker_end page_num + 1)).

Definition subtick (i sub : Z) : draw :=
  let y_subtick :=
    1 - (1 - bottom_line_y) * ((inject_Z i + inject_Z sub / 10) / 10) in
  plot ruler_x (ruler_x + sub_tick_length) y_subtick y_subtick 0.7 30.

Definition subticks : list draw :=
  flat_map (fun i => map (subtick i) (range 1 10)) (range 0 10).

(** Everything drawn on the log axes of one page, in call order. *)
Definition draw_log_page (data : DataFrame) (log_depth : Q) (page_num : Z)
  : list draw :=
  [ add_patch 0 0 1 1 10 ]
  ++ map (fun x_val => plot x_val x_val 0 1 1 20)
       (removelast (tl log_col_x))
  ++ [ plot 0 1 1 1 1 20 ]
  ++ flat_map (draw_interval log_depth page_num)
       (enumerate (intervals data page_num))
  ++ closing_line log_depth page_num
  ++ [ plot ruler_x ruler_x 0 1 1.2 30 ]
  ++ main_markers page_num
  ++ subticks.

Definition pages (log_depth : Q) : list Z :=
  range 1 (last_borehole_page log_depth + 1).

(** The routine: one list of draw calls per page written, keyed by the page
    number of the file name. *)
Definition plot_dummy_borehole_log (data : DataFrame)
  : option (list (Z * list draw)) :=
  match Depth_Base_max data with
  | None => None
  | Some log_depth =>
      Some (map (fun page_num => (page_num, draw_log_page data log_depth page_num))
              (pages log_depth))
  end.

(** The single-page routine of the same name in
    [borehole_log_professional.py] draws every row whole, on one page scaled
    to the full depth.  Its two label decisions for row [i]: "only display the
    top depth and level for the first section", and "always display the base
    depth and level". *)
Module SinglePage.

Definition top_label_shown (i : nat) (row : Row.t) : bool :=
  Nat.eqb i 0 && Qltb 0 (Row.Depth_Top row).

Definition base_label_shown (i : nat) (row : Row.t) : bool := true.

End SinglePage.

End Log.

(** ** The depth mapping and the ruler on IEEE binary64 numbers *)

Module Binary64.

#[local] Set Warnings "-inexact-float".
Open Scope float_scope.

Definition bottom_line_y : float := 0.025.

(** [depth_to_y] with [page_top] and [depth] already converted to floats;
    every operation rounds to nearest, ties to even, as Python's do. *)
Definition depth_to_y (page_top depth : float) : float :=
  let page_depth_range := 10.0 in
  1 - (1 - bottom_line_y) * ((depth - page_top) / page_depth_range).

(** An [int] of the source, not negative, where it enters float arithmetic;
    the conversion is exact below [2^53]. *)
Definition of_int (z : Z) : float := of_uint63 (Uint63.of_Z z).

(** [y_marker] of the main marker [marker] of a page.  The quotient of the
    two ints is the float nearest to it, which for ints this small is the
    quotient of their floats. *)
Definition y_marker (page_num marker : Z) : float :=
  1 - (1 - bottom_line_y)
      * (of_int (marker - Log.marker_start page_num) / 10).

(** [y_subtick] of the subtick [sub] of the group [i]. *)
Definition y_subtick (i sub : Z) : float :=
  1 - (1 - bottom_line_y) * ((of_int i + of_int sub / 10) / 10).

(** The depth of that subtick on a page, [marker_start + i + sub / 10]. *)
Definition subtick_depth (page_num i sub : Z) : float :=
  of_int (Log.marker_start page_num + i) + of_int sub / 10.

End Binary64.

(** ** The word wrapper of [borehole_log_professional.py] *)

Module Wrap.

Open Scope Z_scope.

(** A Python string, as the list of its characters (code points below 256). *)
Definition str : Type := list ascii.

Definition len {A : Type} (l : list A) : Z := Z.of_nat (List.length l).

Definition space : ascii := " "%char.
Definition newline : ascii := ascii_of_nat 10.

(** The characters [str.split()] treats as separators: tab, line feed,
    vertical tab, form feed, carriage return, the four information
    separators, space, next line and no-break space. *)
Definition isspace (c : ascii) : bool :=
  let n := N_of_ascii c in
  ((9 <=? n) && (n <=? 13) || (28 <=? n) && (n <=? 32)
   || (n =? 133) || (n =? 160))%N.

Definition flush_word (word : str) : list str :=
  match word with
  | [] => []
  | _ :: _ => [word]
  end.

(** [text.split()], reading [text] from the left with the word in progress. *)
Fixpoint split_from (word text : str) : list str :=
  match text with
  | [] => flush_word word
  | c :: rest =>
      if isspace c then flush_word word ++ split_from [] rest
      else split_from (word ++ [c]) rest
  end.

Definition split (text : str) : list str := split_from [] text.

(** [sep.join(l)] *)
Fixpoint join (sep : str) (l : list str) : str :=
  match l with
  | [] => []
  | x :: t =>
      match t with
      | [] => x
      | _ :: _ => x ++ sep ++ join sep t
      end
  end.

(** [text.split(sep)] for a one-character separator. *)
Fixpoint split_on_from (sep : ascii) (piece text : str) : list str :=
  match text with
  | [] => [piece]
  | c :: rest =>
      if Ascii.eqb c sep then piece :: split_on_from sep [] rest
      else split_on_from sep (piece ++ [c]) rest
  end.

Definition split_on (sep : ascii) (text : str) : list str :=
  split_on_from sep [] text.

(** The three loop variables of [_wrap_text]. *)
Record state : Type := mk_state
  { lines : list str;
    current_line : list str;
    current_length : Z }.

(** [if current_line: lines.append(" ".join(current_line))] *)
Definition flush (lines : list str) (current_line : list str) : list str :=
  match current_line with
  | [] => lines
  | _ :: _ => lines ++ [join [space] current_line]
  end.

(** One turn of [for word in words]. *)
Definition step (max_chars : Z) (st : state) (word : str) : state :=
  if current_length st + len word + 1 <=? max_chars then
    mk_state (lines st) (current_line st ++ [word])
      (current_length st + (len word + 1))
  else
    mk_state (flush (lines st) (current_line st)) [word] (len word).

Definition wrap_lines (words : list str) (max_chars : Z) : list str :=
  let st := fold_left (step max_chars) words (mk_state [] [] 0) in
  flush (lines st) (current_line st).

Definition _wrap_text (text : str) (max_chars : Z) : str :=
  if len text <=? max_chars then text
  else join [newline] (wrap_lines (split text) max_chars).

(** The ordered sequence of lines held by a result of [_wrap_text]. *)
Definition lines_of (result : str) : list str := split_on newline result.

(** The lines of a result joined again with single spaces. *)
Definition rejoin (result : str) : str := join [space] (lines_of result).

(** The greedy rule in the words of the specification, the current length
    being the number of characters of the current line (its words and the
    single spaces between them): a word is appended while
    [current_length + len(word) + 1 <= max_chars]; otherwise the current line
    is flushed and a new line starts with that word. *)
Definition line_length (current_line : list str) : Z :=
  len (join [space] current_line).

Definition greedy_step (max_chars : Z) (st : list str * list str) (word : str)
  : list str * list str :=
  let (done, current_line) := st in
  if line_length current_line + len word + 1 <=? max_chars
  then (done, current_line ++ [word])
  else (flush done current_line, [word]).

Definition greedy_lines (words : list str) (max_chars : Z) : list str :=
  let (done, current_line) :=
    fold_left (greedy_step max_chars) words ([], []) in
  flush done current_line.

Definition greedy_wrap (text : str) (max_chars : Z) : list str :=
  if len text <=? max_chars then [text]
  else greedy_lines (split text) max_chars.

(** String literals as Python strings. *)
Definition lit (x : string) : str := list_ascii_of_string x.

End Wrap.

(** ** The three-column log of class [ProfessionalBoreholeLog]
       ([borehole_log_professional.py])

    The calls made on the three axes and on the figure are recorded in call
    order.  Of the keyword arguments the position, the text, the horizontal
    alignment and the font size of a text are kept, the position and line
    width of a line, the geometry, face colour and hatch of a rectangle;
    the constant styling (edge colours, alpha, font weight, spines, ticks)
    and the figure size and resolution are left out. *)

Module Columns.

Import Py Wrap.
Open Scope Q_scope.

(** One row of [borehole_data].  The two depths are read with [row[...]];
    the code and the description with [row.get(..., default)], which answers
    the default when the DataFrame has no such column: [None] stands for
    the missing column. *)
Module Row.
Record t : Type := mk
    { Depth_Top : Q;
      Depth_Base : Q;
      Geology_Code : option str;
      Description : option str }.
End Row.

Definition DataFrame : Type := list Row.t.

(** An entry of the geology mapping, a dict that may hold the keys "color"
    and "hatch" ([None]: no such key; for "hatch" also the value [None]). *)
Record layer_props : Type := mk_props
  { color : option str;
    hatch : option str }.

(** The mapping itself, read with [geology_mapping.get(code, default)] only:
    the partial function of its keys. *)
Definition mapping : Type := str -> option layer_props.

Definition empty_mapping : mapping := fun _ => None.

Inductive halign : Type := ha_center | ha_left.

Inductive label : Type :=
| Str (s : str)             (* a string as it is *)
| Fmt2f_m (v : Q).          (* f"{v:.2f}m" *)

Inductive draw : Type :=
| text (x y : Q) (s : label) (ha : halign) (fontsize : Z)
| axhline (y : Q) (linewidth : Q)
| add_patch (x y width height : Q) (facecolor : str) (hatch : option str).

(** An axes: where [fig.add_axes] has put it (left, bottom, width, height),
    the limits given to [set_ylim] and the calls made on it so far. *)
Record axes : Type := mk_axes
  { position : Q * Q * Q * Q;
    ylim : option (Q * Q);
    calls : list draw }.

Definition add_axes (left bottom width height : Q) : axes :=
  mk_axes (left, bottom, width, height) None [].

(** [ax.set_ylim(bottom, top)] followed by the calls [new]. *)
Definition plotted (ax : axes) (bottom top : Q) (new : list draw) : axes :=
  mk_axes (position ax) (Some (bottom, top)) (calls ax ++ new).

Record figure : Type := mk_figure
  { ax_depth : axes;
    ax_litho : axes;
    ax_desc : axes;
    suptitle : option str;
    fig_texts : list draw }.

(** [set(l)] of numbers, in the order of first insertion, and [sorted(l)]. *)
Fixpoint set_ (l : list Q) : list Q :=
  match l with
  | [] => []
  | x :: t => x :: filter (fun y => negb (Qeq_bool x y)) (set_ t)
  end.

Fixpoint insort (x : Q) (l : list Q) : list Q :=
  match l with
  | [] => [x]
  | y :: t => if Qleb x y then x :: y :: t else y :: insort x t
  end.

Definition sorted (l : list Q) : list Q := fold_right insort [] l.

(** [Series.max()] and [Series.min()] of a column that is not empty. *)
Definition column_max (first : Q) (rest : list Q) : Q :=
  fold_left max rest first.

Definition column_min (first : Q) (rest : list Q) : Q :=
  fold_left min rest first.

(** [__init__]: the mapping is empty unless a path is given and loading it
    succeeds.  [load] stands for [load_geology_code_mappings], which is not
    part of this repository; it answers [None] when it raises. *)
Definition __init__ (load : str -> option mapping)
    (geology_csv_path : option str) : mapping :=
  match geology_csv_path with
  | Some ((_ :: _) as path) =>
      match load path with
      | Some loaded => loaded
      | None => empty_mapping
      end
  | _ => empty_mapping
  end.

(** [_plot_depth_column] *)
Definition depth_markers (data : DataFrame) : list Q :=
  let depths :=
    flat_map (fun row => [Row.Depth_Top row; Row.Depth_Base row]) data in
  sorted (set_ depths).

Definition _plot_depth_column (ax : axes) (data : DataFrame)
    (min_depth max_depth : Q) : axes :=
  let depths := depth_markers data in
  plotted ax max_depth min_depth
    (map (fun depth => text 0.5 depth (Fmt2f_m depth) ha_center 9) depths
     ++ map (fun depth => axhline depth 0.5) depths).

(** [_plot_lithology_column]: the body of the loop over the rows. *)
Definition lithology_layer (geology_mapping : mapping) (row : Row.t)
  : list draw :=
  let top_depth := Row.Depth_Top row in
  let base_depth := Row.Depth_Base row in
  let geology_code :=
    match Row.Geology_Code row with
    | Some code => code
    | None => lit "UNKNOWN"
    end in
  let layer_props :=
    match geology_mapping geology_code with
    | Some props => props
    | None => mk_props (Some (lit "#D3D3D3")) None
    end in
  let color :=
    match color layer_props with
    | Some c => c
    | None => lit "#D3D3D3"
    end in
  let hatch := hatch layer_props in
  let height := base_depth - top_depth in
  let mid_depth := (top_depth + base_depth) / 2 in
  add_patch 0 top_depth 1 height color hatch
  :: (if Qltb 0.5 height
      then [ text 0.5 mid_depth (Str geology_code) ha_center 8 ]
      else []).

Definition _plot_lithology_column (ax : axes) (data : DataFrame)
    (min_depth max_depth : Q) (geology_mapping : mapping) : axes :=
  plotted ax max_depth min_depth
    (flat_map (lithology_layer geology_mapping) data).

(** [_plot_description_column]: the body of the loop over the rows. *)
Definition description_layer (row : Row.t) : list draw :=
  let top_depth := Row.Depth_Top row in
  let base_depth := Row.Depth_Base row in
  let description :=
    match Row.Description row with
    | Some d => d
    | None => lit "No description available"
    end in
  let mid_depth := (top_depth + base_depth) / 2 in
  let height := base_depth - top_depth in
  let fontsize :=
    if Qltb 2.0 height then 9%Z
    else if Qltb 1.0 height then 8%Z
    else 7%Z in
  let wrapped_text := _wrap_text description 40 in
  [ text 0.05 mid_depth (Str wrapped_text) ha_left fontsize;
    axhline base_depth 0.3 ].

Definition _plot_description_column (ax : axes) (data : DataFrame)
    (min_depth max_depth : Q) : axes :=
  plotted ax max_depth min_depth (flat_map description_layer data).

(** [_add_column_headers]: three [fig.text] calls. *)
Definition _add_column_headers (depth_left litho_left desc_left
    depth_width litho_width desc_width : Q) : list draw :=
  let header_y := 0.92 in
  let header_fontsize := 12%Z in
  [ text (depth_left + depth_width / 2) header_y (Str (lit "Depth (m)"))
      ha_center header_fontsize;
    text (litho_left + litho_width / 2) header_y (Str (lit "Lithology"))
      ha_center header_fontsize;
    text (desc_left + desc_width / 2) header_y (Str (lit "Description"))
      ha_center header_fontsize ].

(** [create_borehole_log]; [title] is [None] or a string, and [if title:]
    holds for a string that is not empty. *)
Definition create_borehole_log (geology_mapping : mapping)
    (borehole_data : DataFrame) (borehole_id : str) (title : option str)
  : figure :=
  let depth_width := 0.15 in
  let litho_width := 0.25 in
  let desc_width := 0.55 in
  let margin := 0.025 in
  let depth_left := margin in
  let litho_left := depth_left + depth_width + margin in
  let desc_left := litho_left + litho_width + margin in
  let ax_depth := add_axes depth_left 0.1 depth_width 0.8 in
  let ax_litho := add_axes litho_left 0.1 litho_width 0.8 in
  let ax_desc := add_axes desc_left 0.1 desc_width 0.8 in
  match borehole_data with
  | [] => mk_figure ax_depth ax_litho ax_desc None []
  | first :: rest =>
      let max_depth :=
        column_max (Row.Depth_Base first) (map Row.Depth_Base rest) in
      let min_depth :=
        column_min (Row.Depth_Top first) (map Row.Depth_Top rest) in
      mk_figure
        (_plot_depth_column ax_depth borehole_data min_depth max_depth)
        (_plot_lithology_column ax_litho borehole_data min_depth max_depth
           geology_mapping)
        (_plot_description_column ax_desc borehole_data min_depth max_depth)
        (Some match title with
              | Some ((_ :: _) as given) => given
              | _ => lit "Borehole Log: " ++ borehole_id
              end)
        (_add_column_headers depth_left litho_left desc_left
           depth_width litho_width desc_width)
  end.

(** The module-level function of the same purpose. *)
Definition create_professional_borehole_log (load : str -> option mapping)
    (borehole_data : DataFrame) (borehole_id : str)
    (geology_csv_path : option str) (title : option str) : figure :=
  let geology_mapping := __init__ load geology_csv_path in
  create_borehole_log geology_mapping borehole_data borehole_id title.

End Columns.

(** ** The single-page log routine of [borehole_log_professional.py]

    [plot_dummy_borehole_log] as the first of the appended scripts of that
    file defines it: every row is drawn whole, on one page scaled to the
    depth of the deepest base.  The column set-up, the frame and the calls
    recorded are those of the multi-page routine, whose definitions are
    used again where the source repeats the same lines. *)

Module OnePage.

Import Py Log.
Open Scope Q_scope.

(** The closure [depth_to_y]: "Map depth=0 to y=1, depth=log_depth to
    y=bottom_line_y". *)
Definition depth_to_y (log_depth depth : Q) : Q :=
  1 - (1 - bottom_line_y) * (depth / log_depth).

(** The body of the loop over [DUMMY_BOREHOLE_DATA.iterrows()]; [n] is
    [len(DUMMY_BOREHOLE_DATA)]. *)
Definition draw_row (n : nat) (log_depth : Q) (irow : nat * Row.t)
  : list draw :=
  let (i, row) := irow in
  let y_top := depth_to_y log_depth (Row.Depth_Top row) in
  let y_base := depth_to_y log_depth (Row.Depth_Base row) in
  let y_center := (y_top + y_base) / 2 in
  let y_base := if Nat.eqb i (n - 1) then bottom_line_y else y_base in
  [ add_patch legend_left y_base legend_width (y_top - y_base) 2;
    text (legend_left + legend_width / 2) y_center
      (Str (Row.Geology_Code row)) va_center ha_center 3;
    text (desc_left + desc_width * 0.02) y_center
      (Str (Row.Description row)) va_center ha_left 3 ]
  ++ (if SinglePage.top_label_shown i row then
        [ text (depth_left + depth_width / 2) y_top
            (Fmt2f (Row.Depth_Top row)) va_bottom ha_center 3;
          text (level_left + level_width / 2) y_top
            (Fmt2f (ground_level - Row.Depth_Top row)) va_bottom ha_center 3 ]
      else [])
  ++ (let base_va := if Nat.eqb i (n - 1) then va_bottom else va_top in
      let base_y :=
        if Nat.eqb i (n - 1) then bottom_line_y - 0.002 else y_base in
      [ text (depth_left + depth_width / 2) base_y
          (Fmt2f (Row.Depth_Base row)) base_va ha_center 3;
        text (level_left + level_width / 2) base_y
          (Fmt2f (ground_level - Row.Depth_Base row)) base_va ha_center 3 ])
  ++ (if (0 <? i)%nat then
        [ plot legend_left (desc_left + desc_width) y_base y_base 1 15 ]
      else []).

(** The ruler: "10 main markers, align the 10th marker to bottom_line_y". *)
Definition main_marker (marker : Z) : list draw :=
  let y_marker :=
    if (marker <? 10)%Z
    then 1 - (1 - bottom_line_y) * (inject_Z marker / 10)
    else bottom_line_y in
  [ plot ruler_x (ruler_x + main_tick_length) y_marker y_marker 1.1 31;
    text (ruler_x + main_tick_length + ruler_width * 0.1) y_marker
      (Int marker) va_center ha_left 32 ].

Definition main_markers : list draw := flat_map main_marker (range 1 11).

(** "For last group, interpolate between marker 9 and bottom_line_y". *)
Definition subtick (i sub : Z) : draw :=
  let y_subtick :=
    if (i <? 9)%Z
    then 1 - (1 - bottom_line_y) * ((inject_Z i + inject_Z sub / 10) / 10)
    else
      let y_top := 1 - (1 - bottom_line_y) * (9 / 10) in
      let y_bot := bottom_line_y in
      y_top - (y_top - y_bot) * (inject_Z sub / 10) in
  plot ruler_x (ruler_x + sub_tick_length) y_subtick y_subtick 0.7 30.

Definition subticks : list draw :=
  flat_map (fun i => map (subtick i) (range 1 10)) (range 0 10).

(** Everything drawn on the log axes, in call order. *)
Definition draw_log (data : DataFrame) (log_depth : Q) : list draw :=
  [ add_patch 0 0 1 1 10 ]
  ++ map (fun x_val => plot x_val x_val 0 1 1 20)
       (removelast (tl log_col_x))
  ++ [ plot 0 1 1 1 1 20 ]
  ++ flat_map (draw_row (List.length data) log_depth) (enumerate data)
  ++ [ plot legend_left (desc_left + desc_width)
         bottom_line_y bottom_line_y 1 16 ]
  ++ [ plot ruler_x ruler_x 0 1 1.2 30 ]
  ++ main_markers
  ++ subticks.

(** The routine; with no row the depth is NaN and the figure cannot be
    made, hence [None]. *)
Definition plot_dummy_borehole_log (data : DataFrame) : option (list draw) :=
  match Depth_Base_max data with
  | None => None
  | Some log_depth => Some (draw_log data log_depth)
  end.

End OnePage.

(** ** The header of a log page: [draw_header] of
       [borehole_log_professional_dummy2.py]

    The calls made on the header axes, in call order.  The width a text
    takes when rendered comes from matplotlib's renderer and its font files;
    it is the parameter [text_width] of the embedding. *)

Module Header.

Import Py.
Open Scope Q_scope.

Inductive valign : Type := va_top | va_center.
Inductive halign : Type := ha_left | ha_center.

Inductive draw : Type :=
| rectangle (x y width height : Q)
| text (x y : Q) (s : string) (va : valign) (ha : halign) (fontsize : Z)
| plot (x1 x2 y1 y2 : Q) (linewidth : Q).

(** [if s:] of a string. *)
Definition nonempty (s : string) : bool :=
  match s with
  | EmptyString => false
  | String _ _ => true
  end.

Definition sum (l : list Q) : Q := fold_left Qplus l 0.

(** Header content. *)
Definition top_labels : list (list string) :=
  [ ["Project Name:"; "Client:"; "Date:"];
    ["Location:"; "Contractor:"; "Co-ords:"];
    ["Project No.:"; "Crew Name:"; "Drilling Equipment:"] ]%string.

Definition top_values : list (list string) :=
  [ ["SESRO"; "Thames Water"; ""];
    ["Abingdon, Oxfordshire"; ""; "E443012.50 N195881.00"];
    ["303568-00"; ""; ""] ]%string.

Definition bottom_labels : list string :=
  [ "Borehole Number"; "Hole Type"; "Level"; "Logged By"; "Scale";
    "Page Number" ]%string.

Definition bottom_values : list string :=
  [ "BH01"; "CP+RC"; "62.50m AoD"; ""; "1:50"; "Sheet 4 of 5" ]%string.

Definition cell (table : list (list string)) (row col : Z) : string :=
  nth (Z.to_nat col) (nth (Z.to_nat row) table []) ""%string.

Definition cell_padd : Q := 12.

Section Measured.

Variable text_width : string -> Q.

(** "Top 3 rows": the widths appended to [max_top_widths]. *)
Definition max_top_widths : list Q :=
  flat_map (fun row =>
    map (fun col =>
           let title := cell top_labels row col in
           let value := cell top_values row col in
           let t_width := text_width title in
           let v_width := text_width value in
           t_width + v_width + cell_padd)
      (range 0 3))
    (range 0 3).

(** "find max width for each column" *)
Definition top_col_widths_px : list Q :=
  map (fun i =>
         let i := Z.to_nat i in
         max (max (nth i max_top_widths 0) (nth (i + 3) max_top_widths 0))
           (nth (i + 6) max_top_widths 0))
    (range 0 3).

Definition avg_top_col_width : Q := sum top_col_widths_px / 3.

(** "Each bottom cell is half the width of a top cell" *)
Definition bottom_col_widths_px : list Q := repeat (avg_top_col_width / 2) 6.

Definition col_widths_px : list Q := bottom_col_widths_px.

Definition top_row_height : Q := 0.2.

(** "Draw top 3 rows": one cell. *)
Definition top_cell (row col : Z) : list draw :=
  let y_pos := 1.0 - (inject_Z row * top_row_height) in
  let col_width := 1.0 / 3.0 in
  let x_pos := inject_Z col * col_width in
  let label := cell top_labels row col in
  let value := cell top_values row col in
  [ rectangle x_pos (y_pos - top_row_height) col_width top_row_height ]
  ++ (if nonempty label then
        [ text (x_pos + col_width * 0.05) (y_pos - top_row_height * 0.2)
            label va_top ha_left 8 ]
      else [])
  ++ (if nonempty value then
        [ text (x_pos + col_width * 0.05) (y_pos - top_row_height * 0.6)
            value va_top ha_left 8 ]
      else []).

Definition top_rows : list draw :=
  flat_map (fun row => flat_map (top_cell row) (range 0 3)) (range 0 3).

(** "Draw bottom row rectangles and text": the loop threads [x]. *)
Definition bottom_row_height : Q := 0.2.

Definition px_to_axes : Q :=
  let total_col_width_px := sum col_widths_px in
  let axes_width := 1.0 in
  axes_width / total_col_width_px.

Definition bottom_cell (st : Q * list draw) (i : Z) : Q * list draw :=
  let (x, calls) := st in
  let col_width := nth (Z.to_nat i) col_widths_px 0 * px_to_axes in
  (x + col_width,
   calls
   ++ [ rectangle x 0.2 col_width bottom_row_height;
        text (x + col_width / 2) (0.2 + bottom_row_height * 0.85)
          (nth (Z.to_nat i) bottom_labels ""%string) va_top ha_center 8;
        text (x + col_width / 2) (0.2 + bottom_row_height * 0.35)
          (nth (Z.to_nat i) bottom_values ""%string) va_top ha_center 8 ]).

Definition bottom_row : list draw :=
  snd (fold_left bottom_cell (range 0 6) (0.0, [])).

(** "Draw new additional row at the bottom" *)
Definition new_row_height : Q := 0.2.

Definition new_col_widths : list Q :=
  [0.05; 0.10; 0.06; 0.12; 0.08; 0.08; 0.10; 0.37; 0.04].

Definition new_col_labels : list string :=
  [ "Well"; "Depth (m)"; "Type"; "Results";
    String "D" (String "e" (String "p" (String "t" (String "h"
      (String (ascii_of_nat 10) "(m)")))));
    String "L" (String "e" (String "v" (String "e" (String "l"
      (String (ascii_of_nat 10) "(m)")))));
    "Legend"; "Stratum Description"; "" ]%string.

Definition new_cell (st : Q * list draw)
    (entry : nat * (Q * string)) : Q * list draw :=
  let (x, calls) := st in
  let '(i, (col_width, label)) := entry in
  (x + col_width,
   calls
   ++ [ rectangle x 0 col_width new_row_height ]
   ++ (if Nat.eqb i 1 then
         let merged_width :=
           nth 1 new_col_widths 0 + nth 2 new_col_widths 0
           + nth 3 new_col_widths 0 in
         [ text (x + merged_width / 2) (new_row_height * 0.9)
             "Sample and In Situ Testing" va_top ha_center 8;
           plot x (x + merged_width)
             (new_row_height * 0.6) (new_row_height * 0.6) 1 ]
       else [])
   ++ (if existsb (Nat.eqb i) [1; 2; 3]%nat then
         [ text (x + col_width / 2) (new_row_height * 0.4)
             label va_top ha_center 7 ]
       else if nonempty label then
         [ text (x + col_width / 2) (new_row_height / 2)
             label va_center ha_center 8 ]
       else [])).

Definition new_row : list draw :=
  snd (fold_left new_cell
         (enumerate (combine new_col_widths new_col_labels)) (0.0, [])).

Definition draw_header : list draw := top_rows ++ bottom_row ++ new_row.

End Measured.

End Header.

(** * Facts about the Python conventions *)

Module PyFacts.

Import Py.

Lemma Qleb_spec (a b : Q) : reflect (a <= b)%Q (Qleb a b).
Proof.
  unfold Qleb. destruct (Qle_bool a b) eqn:E; constructor.
  - now apply Qle_bool_iff.
  - intro H. apply Qle_bool_iff in H. congruence.
Qed.

Lemma Qltb_spec (a b : Q) : reflect (a < b)%Q (Qltb a b).
Proof.
  unfold Qltb. destruct (Qle_bool b a) eqn:E; constructor.
  - apply Qle_bool_iff in E. now apply Qle_not_lt.
  - apply Qnot_le_lt. intro H. apply Qle_bool_iff in H. congruence.
Qed.

Lemma max_cases (a b : Q) :
  (a < b /\ max a b = b)%Q \/ (b <= a /\ max a b = a)%Q.
Proof.
  unfold max. destruct (Qltb_spec a b); [left | right]; split; auto.
  now apply Qnot_lt_le.
Qed.

Lemma min_cases (a b : Q) :
  (b < a /\ min a b = b)%Q \/ (a <= b /\ min a b = a)%Q.
Proof.
  unfold min. destruct (Qltb_spec b a); [left | right]; split; auto.
  now apply Qnot_lt_le.
Qed.

Lemma range_length (start stop : Z) :
  List.length (range start stop) = Z.to_nat (stop - start).
Proof. unfold range. now rewrite length_map, length_seq. Qed.

Lemma range_nth_error (start stop : Z) (k : nat) :
  (k < Z.to_nat (stop - start))%nat ->
  nth_error (range start stop) k = Some (start + Z.of_nat k)%Z.
Proof.
  intro H. unfold range. rewrite nth_error_map, nth_error_seq.
  destruct (Nat.ltb_spec k (Z.to_nat (stop - start))); [reflexivity | lia].
Qed.

Lemma in_range (start stop x : Z) :
  In x (range start stop) <-> (start <= x < stop)%Z.
Proof.
  unfold range. rewrite in_map_iff. split.
  - intros (k & <- & Hk). apply in_seq in Hk. lia.
  - intros H. exists (Z.to_nat (x - start)). split; [lia |].
    apply in_seq. lia.
Qed.

Lemma range_snoc (start : Z) (n : nat) :
  range start (start + Z.of_nat (S n)) =
  range start (start + Z.of_nat n) ++ [(start + Z.of_nat n)%Z].
Proof.
  unfold range.
  replace (Z.to_nat (start + Z.of_nat (S n) - start)) with (S n) by lia.
  replace (Z.to_nat (start + Z.of_nat n - start)) with n by lia.
  now rewrite seq_S, map_app.
Qed.

Lemma enumerate_from_nth_error {A : Type} (l : list A) (k i : nat) (x : A) :
  nth_error (enumerate_from k l) i = Some (k + i, x)%nat <->
  nth_error l i = Some x.
Proof.
  revert k i; induction l as [| y t IH]; intros k i; simpl.
  - destruct i; simpl; split; discriminate.
  - destruct i as [| i]; simpl.
    + rewrite Nat.add_0_r. split; intro H; inversion H; subst; reflexivity.
    + rewrite <- (IH (S k) i).
      now replace (k + S i)%nat with (S k + i)%nat by lia.
Qed.

End PyFacts.

(** * Properties of the log routine *)

Module LogFacts.

Import Py PyFacts Log.
Open Scope Q_scope.

(** The data-model invariant of one interval, and of an interval list in
    depth order: every top is non-negative and above its base, and each
    interval starts where the previous one ends. *)
Definition valid_row (r : Row.t) : Prop :=
  0 <= Row.Depth_Top r /\ Row.Depth_Top r < Row.Depth_Base r.

Fixpoint contiguous (data : DataFrame) : Prop :=
  match data with
  | [] => True
  | r :: rest =>
      match rest with
      | [] => True
      | r' :: _ => Row.Depth_Top r' == Row.Depth_Base r
      end /\ contiguous rest
  end.

Definition well_formed (data : DataFrame) : Prop :=
  Forall valid_row data /\ contiguous data.

(** Sum of a list of numbers. *)
Definition Qsum (l : list Q) : Q := fold_right Qplus 0 l.

Lemma Qsum_app (l1 l2 : list Q) : Qsum (l1 ++ l2) == Qsum l1 + Qsum l2.
Proof.
  induction l1 as [| x l1 IH]; simpl.
  - lra.
  - rewrite IH. lra.
Qed.

Lemma page_bot_top (page_num : Z) :
  (page_top page_num + 10 = page_bot page_num)%Z.
Proof. unfold page_top, page_bot. lia. Qed.

Lemma inject_page_bot (page_num : Z) :
  inject_Z (page_bot page_num) == inject_Z (page_top page_num) + 10.
Proof.
  rewrite <- page_bot_top, inject_Z_plus. reflexivity.
Qed.

Lemma inject_page_top_succ (page_num : Z) :
  inject_Z (page_top (page_num + 1)) == inject_Z (page_top page_num) + 10.
Proof.
  replace (page_top (page_num + 1)) with (page_top page_num + 10)%Z
    by (unfold page_top; lia).
  rewrite inject_Z_plus. reflexivity.
Qed.

Lemma inject_page_top (page_num : Z) :
  inject_Z (page_top page_num) == 10 * inject_Z page_num - 10.
Proof.
  unfold page_top. rewrite inject_Z_mult.
  replace (page_num - 1)%Z with (page_num + -1)%Z by lia.
  rewrite inject_Z_plus.
  change (inject_Z 10) with 10. change (inject_Z (-1)) with (-1). lra.
Qed.

(** *** The depth mapping *)

Lemma depth_to_y_affine (page_num : Z) (d : Q) :
  depth_to_y page_num d ==
  1 - (1 - bottom_line_y) * (d - inject_Z (page_top page_num)) / 10.
Proof. unfold depth_to_y, bottom_line_y. field. Qed.

Lemma depth_to_y_decreasing (page_num : Z) (d d' : Q) :
  d <= d' -> depth_to_y page_num d' <= depth_to_y page_num d.
Proof.
  intro H. rewrite !depth_to_y_affine. unfold bottom_line_y.
  set (t := inject_Z (page_top page_num)). 
  assert (E : forall x, 1 - (1 - 0.025) * (x - t) / 10 == 1 - 0.0975 * (x - t))
    by (intro x; field).
  rewrite !E. lra.
Qed.

Lemma depth_to_y_strict (page_num : Z) (d d' : Q) :
  depth_to_y page_num d' < depth_to_y page_num d <-> d < d'.
Proof.
  rewrite !depth_to_y_affine. unfold bottom_line_y.
  set (t := inject_Z (page_top page_num)). 
  assert (E : forall x, 1 - (1 - 0.025) * (x - t) / 10 == 1 - 0.0975 * (x - t))
    by (intro x; field).
  rewrite !E. split; intro; lra.
Qed.

(** *** The deepest base *)

Definition is_max_base (data : DataFrame) (m : Q) : Prop :=
  (exists r, In r data /\ Row.Depth_Base r = m)
  /\ forall r, In r data -> Row.Depth_Base r <= m.

Lemma fold_max_spec (rest : DataFrame) (m0 : Q) :
  let m := fold_left (fun m r' => max m (Row.Depth_Base r')) rest m0 in
  (m = m0 \/ exists r, In r rest /\ Row.Depth_Base r = m)
  /\ m0 <= m
  /\ forall r, In r rest -> Row.Depth_Base r <= m.
Proof.
  revert m0; induction rest as [| r rest IH]; intro m0; simpl.
  - repeat split; [now left | lra | tauto].
  - destruct (IH (max m0 (Row.Depth_Base r))) as (Hin & Hle & Hall).
    destruct (max_cases m0 (Row.Depth_Base r)) as [[Hlt E] | [Hge E]];
      rewrite E in *.
    + repeat split.
      * destruct Hin as [-> | (r' & Hr' & <-)]; right; eauto.
      * lra.
      * intros r' [<- | Hr']; [exact Hle | now apply Hall].
    + repeat split.
      * destruct Hin as [-> | (r' & Hr' & <-)]; [now left | right; eauto].
      * exact Hle.
      * intros r' [<- | Hr']; [lra | now apply Hall].
Qed.

Lemma Depth_Base_max_spec (data : DataFrame) (m : Q) :
  Depth_Base_max data = Some m -> is_max_base data m.
Proof.
  destruct data as [| r rest]; simpl; [discriminate |].
  intros [= <-].
  destruct (fold_max_spec rest (Row.Depth_Base r)) as (Hin & Hle & Hall).
  split.
  - destruct Hin as [-> | (r' & Hr' & E)].
    + exists r. split; [now left | reflexivity].
    + exists r'. split; [now right | exact E].
  - intros r' [<- | Hr']; [exact Hle | now apply Hall].
Qed.

Lemma Depth_Base_max_some (data : DataFrame) :
  data <> [] -> exists m, Depth_Base_max data = Some m.
Proof. destruct data; [congruence | simpl; eauto]. Qed.

Lemma max_base_positive (data : DataFrame) (m : Q) :
  Forall valid_row data -> is_max_base data m -> 0 < m.
Proof.
  intros Hv ((r & Hr & <-) & _).
  rewrite Forall_forall in Hv. destruct (Hv r Hr). lra.
Qed.

(** *** Page count *)

Lemma last_borehole_page_bounds (log_depth : Q) :
  10 * inject_Z (last_borehole_page log_depth) - 10 < log_depth
  /\ log_depth <= 10 * inject_Z (last_borehole_page log_depth).
Proof.
  unfold last_borehole_page.
  assert (E : log_depth / 10.0 == log_depth / 10) by field.
  rewrite (Qceiling_comp _ _ E).
  pose proof (Qle_ceiling (log_depth / 10)) as Hle.
  pose proof (Qceiling_lt (log_depth / 10)) as Hlt.
  set (c := Qceiling (log_depth / 10)) in *.
  replace (c - 1)%Z with (c + -1)%Z in Hlt by lia.
  rewrite inject_Z_plus in Hlt. change (inject_Z (-1)) with (-1) in Hlt.
  assert (E' : log_depth == 10 * (log_depth / 10)) by field.
  split; lra.
Qed.

Lemma last_borehole_page_ceiling (log_depth : Q) :
  last_borehole_page log_depth = Qceiling (log_depth / 10).
Proof.
  unfold last_borehole_page. apply Qceiling_comp. field.
Qed.

Lemma last_borehole_page_positive (log_depth : Q) :
  0 < log_depth -> (1 <= last_borehole_page log_depth)%Z.
Proof.
  intro H. destruct (last_borehole_page_bounds log_depth) as [_ Hle].
  assert (Hc : 0 < inject_Z (last_borehole_page log_depth)) by lra.
  change 0 with (inject_Z 0) in Hc. rewrite <- Zlt_Qlt in Hc. lia.
Qed.

Lemma last_borehole_page_multiple (n : Z) (log_depth : Q) :
  log_depth == inject_Z n * 10 -> last_borehole_page log_depth = n.
Proof.
  intro H. rewrite last_borehole_page_ceiling.
  assert (E : log_depth / 10 == inject_Z n) by (rewrite H; field).
  rewrite (Qceiling_comp _ _ E). apply Qceiling_Z.
Qed.

Lemma pages_eq (log_depth : Q) :
  pages log_depth =
  map (fun k => Z.of_nat (S k)) (seq 0 (Z.to_nat (last_borehole_page log_depth))).
Proof.
  unfold pages, range.
  replace (last_borehole_page log_depth + 1 - 1)%Z
    with (last_borehole_page log_depth) by lia.
  apply map_ext. intro k. lia.
Qed.

Lemma pages_length (log_depth : Q) :
  List.length (pages log_depth) = Z.to_nat (last_borehole_page log_depth).
Proof. rewrite pages_eq, length_map, length_seq. reflexivity. Qed.

Lemma pages_nth_error (log_depth : Q) (k : nat) :
  (k < List.length (pages log_depth))%nat ->
  nth_error (pages log_depth) k = Some (Z.of_nat k + 1)%Z.
Proof.
  intro H. rewrite pages_length in H.
  rewrite pages_eq, nth_error_map, nth_error_seq.
  destruct (Nat.ltb_spec k (Z.to_nat (last_borehole_page log_depth)));
    [simpl; f_equal; lia | lia].
Qed.

(** A row that meets a page leaves a segment there. *)
Lemma clip_row_overlap (page_num : Z) (i : nat) (row : Row.t) :
  inject_Z (page_top page_num) < Row.Depth_Base row ->
  Row.Depth_Top row < inject_Z (page_bot page_num) ->
  clip_row page_num (i, row) =
  [ Seg.mk i (max (Row.Depth_Top row) (inject_Z (page_top page_num)))
      (min (Row.Depth_Base row) (inject_Z (page_bot page_num)))
      (Row.Geology_Code row) (Row.Description row)
      (Row.Depth_Top row) (Row.Depth_Base row) ].
Proof.
  intros H1 H2. unfold clip_row.
  destruct (Qleb_spec (Row.Depth_Base row) (inject_Z (page_top page_num)));
    [lra |].
  destruct (Qleb_spec (inject_Z (page_bot page_num)) (Row.Depth_Top row));
    [lra |].
  reflexivity.
Qed.

Lemma clip_row_disjoint (page_num : Z) (i : nat) (row : Row.t) :
  Row.Depth_Base row <= inject_Z (page_top page_num)
  \/ inject_Z (page_bot page_num) <= Row.Depth_Top row ->
  clip_row page_num (i, row) = [].
Proof.
  intros H. unfold clip_row.
  destruct (Qleb_spec (Row.Depth_Base row) (inject_Z (page_top page_num)));
    [reflexivity |].
  destruct (Qleb_spec (inject_Z (page_bot page_num)) (Row.Depth_Top row));
    [reflexivity |].
  destruct H; contradiction.
Qed.

Lemma in_enumerate_from {A : Type} (l : list A) (k : nat) (x : A) :
  In x l -> exists i, In (i, x) (enumerate_from k l).
Proof.
  revert k; induction l as [| y t IH]; intros k; simpl; [tauto |].
  intros [-> | H].
  - exists k. now left.
  - destruct (IH (S k) H) as (i & Hi). exists i. now right.
Qed.

(** C3.  For every non-empty list of valid intervals the routine writes
    [ceil(max base_depth / 10)] pages, the page at position [k] (from 0)
    carrying page number [k + 1]; when the deepest base is [n] times the page
    span the count is exactly [n]; and the last page is never empty: it holds
    at least one segment. *)
Theorem page_count_is_ceiling (data : DataFrame) :
  data <> [] ->
  Forall valid_row data ->
  exists (log_depth : Q) (out : list (Z * list draw)),
    plot_dummy_borehole_log data = Some out
    /\ is_max_base data log_depth
    /\ Z.of_nat (List.length out) = Qceiling (log_depth / 10)
    /\ (forall k : nat, (k < List.length out)%nat ->
          exists calls, nth_error out k = Some ((Z.of_nat k + 1)%Z, calls))
    /\ (forall n : Z, log_depth == inject_Z n * 10 ->
          Z.of_nat (List.length out) = n)
    /\ intervals data (Z.of_nat (List.length out)) <> [].
Proof.
  intros Hne Hv.
  destruct (Depth_Base_max_some data Hne) as (log_depth & Hmax).
  pose proof (Depth_Base_max_spec data log_depth Hmax) as Hspec.
  pose proof (max_base_positive data log_depth Hv Hspec) as Hpos.
  pose proof (last_borehole_page_positive log_depth Hpos) as Hpage.
  unfold plot_dummy_borehole_log. rewrite Hmax.
  eexists log_depth, _. split; [reflexivity |].
  rewrite length_map, pages_length.
  split; [exact Hspec |].
  split; [rewrite <- last_borehole_page_ceiling; lia |].
  split; [| split].
  - intros k Hk. rewrite <- pages_length in Hk.
    rewrite nth_error_map, (pages_nth_error _ _ Hk). simpl. eauto.
  - intros n Hn. rewrite (last_borehole_page_multiple n log_depth Hn) in *. lia.
  - rewrite Z2Nat.id by lia.
    destruct Hspec as ((r & Hr & Er) & _).
    rewrite Forall_forall in Hv. destruct (Hv r Hr) as [Ht Hb].
    destruct (last_borehole_page_bounds log_depth) as [Hlo Hhi].
    destruct (in_enumerate_from data 0 r Hr) as (i & Hi).
    intro Hnil. unfold intervals in Hnil.
    assert (Hin : In (Seg.mk i
                (max (Row.Depth_Top r)
                   (inject_Z (page_top (last_borehole_page log_depth))))
                (min (Row.Depth_Base r)
                   (inject_Z (page_bot (last_borehole_page log_depth))))
                (Row.Geology_Code r) (Row.Description r)
                (Row.Depth_Top r) (Row.Depth_Base r))
              (flat_map (clip_row (last_borehole_page log_depth))
                 (enumerate data))).
    { apply in_flat_map. exists (i, r). split; [exact Hi |].
      rewrite clip_row_overlap; [now left | |].
      - rewrite Er, inject_page_top. lra.
      - rewrite Er in Hb. rewrite inject_page_bot, inject_page_top. lra. }
    rewrite Hnil in Hin. exact Hin.
Qed.

Lemma dummy_data_valid : Forall valid_row DUMMY_BOREHOLE_DATA.
Proof. repeat constructor; simpl; unfold Qle, Qlt; simpl; lia. Qed.

Lemma dummy_data_well_formed : well_formed DUMMY_BOREHOLE_DATA.
Proof.
  split; [exact dummy_data_valid |].
  simpl. repeat split; reflexivity.
Qed.

(** The dummy data (deepest base 15.0) meet the hypotheses of C3. *)
Lemma page_count_of_dummy_data :
  DUMMY_BOREHOLE_DATA <> []
  /\ Forall valid_row DUMMY_BOREHOLE_DATA
  /\ exists (log_depth : Q) (out : list (Z * list draw)),
       plot_dummy_borehole_log DUMMY_BOREHOLE_DATA = Some out
       /\ is_max_base DUMMY_BOREHOLE_DATA log_depth
       /\ Z.of_nat (List.length out) = Qceiling (log_depth / 10)
       /\ (forall k : nat, (k < List.length out)%nat ->
             exists calls, nth_error out k = Some ((Z.of_nat k + 1)%Z, calls))
       /\ (forall n : Z, log_depth == inject_Z n * 10 ->
             Z.of_nat (List.length out) = n)
       /\ intervals DUMMY_BOREHOLE_DATA (Z.of_nat (List.length out)) <> [].
Proof.
  split; [discriminate |]. split; [exact dummy_data_valid |].
  apply (page_count_is_ceiling DUMMY_BOREHOLE_DATA);
    [discriminate | exact dummy_data_valid].
Defined.

(** The two examples of the specification: a deepest base of 15 gives two
    pages, and so does a deepest base of 20. *)
Lemma page_count_examples :
  pages 15 = [1; 2]%Z /\ pages 20 = [1; 2]%Z /\ pages 20.5 = [1; 2; 3]%Z.
Proof. repeat split. Qed.

(** *** Selection and clipping *)

(** The overlap test of the specification. *)
Definition overlaps (row : Row.t) (page_num : Z) : Prop :=
  inject_Z (page_top page_num) < Row.Depth_Base row
  /\ Row.Depth_Top row < inject_Z (page_bot page_num).

(** The segments of a page that come from row [i]. *)
Definition segments_of (i : nat) (segs : list Seg.t) : list Seg.t :=
  filter (fun seg => Nat.eqb (Seg.orig_idx seg) i) segs.

Lemma overlaps_dec (row : Row.t) (page_num : Z) :
  overlaps row page_num \/
  (Row.Depth_Base row <= inject_Z (page_top page_num)
   \/ inject_Z (page_bot page_num) <= Row.Depth_Top row).
Proof.
  unfold overlaps.
  destruct (Qlt_le_dec (inject_Z (page_top page_num)) (Row.Depth_Base row));
    [| now (right; left)].
  destruct (Qlt_le_dec (Row.Depth_Top row) (inject_Z (page_bot page_num)));
    [now left | now (right; right)].
Qed.

Lemma clip_row_idx (page_num : Z) (i : nat) (row : Row.t) (seg : Seg.t) :
  In seg (clip_row page_num (i, row)) -> Seg.orig_idx seg = i.
Proof.
  unfold clip_row.
  destruct (_ || _); simpl; [tauto |]. intros [<- | []]. reflexivity.
Qed.

Lemma segments_of_clip_row_same (page_num : Z) (i : nat) (row : Row.t) :
  segments_of i (clip_row page_num (i, row)) = clip_row page_num (i, row).
Proof.
  unfold segments_of, clip_row.
  destruct (_ || _); simpl; [reflexivity |]. now rewrite Nat.eqb_refl.
Qed.

Lemma segments_of_clip_row_other (page_num : Z) (i k : nat) (row : Row.t) :
  k <> i -> segments_of i (clip_row page_num (k, row)) = [].
Proof.
  intro H. unfold segments_of, clip_row.
  destruct (_ || _); simpl; [reflexivity |].
  destruct (Nat.eqb_spec k i); [contradiction | reflexivity].
Qed.

Lemma segments_of_app (i : nat) (l1 l2 : list Seg.t) :
  segments_of i (l1 ++ l2) = segments_of i l1 ++ segments_of i l2.
Proof. unfold segments_of. apply filter_app. Qed.

Lemma segments_of_from (page_num : Z) (data : DataFrame) (k i : nat) :
  segments_of i (flat_map (clip_row page_num) (enumerate_from k data)) =
  match (if (k <=? i)%nat then nth_error data (i - k) else None) with
  | Some row => clip_row page_num (i, row)
  | None => []
  end.
Proof.
  revert k; induction data as [| r rest IH]; intro k;
    cbn [enumerate_from flat_map].
  - destruct (k <=? i)%nat; [destruct (i - k)%nat |]; reflexivity.
  - rewrite segments_of_app, (IH (S k)).
    destruct (Nat.leb_spec k i) as [Hle | Hgt].
    + destruct (Nat.eq_dec k i) as [-> | Hne].
      * rewrite segments_of_clip_row_same, Nat.sub_diag.
        cbn [nth_error].
        destruct (Nat.leb_spec (S i) i); [lia |]. now rewrite app_nil_r.
      * rewrite (segments_of_clip_row_other _ _ _ _ Hne).
        cbn [app].
        destruct (Nat.leb_spec (S k) i); [| lia].
        replace (i - k)%nat with (S (i - S k)) by lia. reflexivity.
    + rewrite (segments_of_clip_row_other page_num i k r) by lia.
      cbn [app].
      destruct (Nat.leb_spec (S k) i); [lia | reflexivity].
Qed.

Lemma segments_of_intervals (data : DataFrame) (page_num : Z) (i : nat)
    (row : Row.t) :
  nth_error data i = Some row ->
  segments_of i (intervals data page_num) = clip_row page_num (i, row).
Proof.
  intro H. unfold intervals, enumerate. rewrite segments_of_from.
  simpl. now rewrite Nat.sub_0_r, H.
Qed.

Lemma in_enumerate_from_inv {A : Type} (l : list A) (k i : nat) (x : A) :
  In (i, x) (enumerate_from k l) -> In x l.
Proof.
  revert k; induction l as [| y t IH]; intros k; simpl; [tauto |].
  intros [[= _ ->] | H]; [now left | right; eauto].
Qed.

(** A clipped segment lies inside its row and inside the page, and is never
    empty. *)
Lemma clip_row_bounds (page_num : Z) (i : nat) (row : Row.t) (seg : Seg.t) :
  Row.Depth_Top row < Row.Depth_Base row ->
  In seg (clip_row page_num (i, row)) ->
  Row.Depth_Top row <= Seg.Depth_Top seg
  /\ inject_Z (page_top page_num) <= Seg.Depth_Top seg
  /\ Seg.Depth_Top seg < Seg.Depth_Base seg
  /\ Seg.Depth_Base seg <= Row.Depth_Base row
  /\ Seg.Depth_Base seg <= inject_Z (page_bot page_num).
Proof.
  intros Hrow Hin.
  destruct (overlaps_dec row page_num) as [[H1 H2] | H].
  - rewrite (clip_row_overlap _ _ _ H1 H2) in Hin.
    destruct Hin as [<- | []]. simpl.
    pose proof (inject_page_bot page_num) as Hpb.
    destruct (max_cases (Row.Depth_Top row) (inject_Z (page_top page_num)))
      as [[? ->] | [? ->]];
    destruct (min_cases (Row.Depth_Base row) (inject_Z (page_bot page_num)))
      as [[? ->] | [? ->]]; repeat split; lra.
  - rewrite (clip_row_disjoint _ _ _ H) in Hin. destruct Hin.
Qed.

(** In a well-formed list every later row starts at or below the base of
    every earlier one. *)
Definition row_before (r r' : Row.t) : Prop :=
  Row.Depth_Base r <= Row.Depth_Top r'.

Lemma well_formed_sorted (data : DataFrame) :
  well_formed data -> StronglySorted row_before data.
Proof.
  intros [Hv Hc]. induction data as [| r rest IH]; [constructor |].
  inversion Hv as [| ? ? Hr Hrest]; subst.
  destruct Hc as [Hhead Hc]. specialize (IH Hrest Hc).
  constructor; [exact IH |].
  destruct rest as [| r' rest']; [constructor |].
  inversion IH as [| ? ? _ Hall]; subst.
  inversion Hrest as [| ? ? Hr' _]; subst.
  assert (H0 : row_before r r') by (unfold row_before; lra).
  constructor; [exact H0 |].
  rewrite Forall_forall in *. intros x Hx.
  specialize (Hall x Hx). unfold row_before, valid_row in *.
  destruct Hr'. lra.
Qed.

(** Segment [a] ends where segment [b] starts, or above. *)
Definition seg_before (a b : Seg.t) : Prop :=
  Seg.Depth_Top a < Seg.Depth_Top b /\ Seg.Depth_Base a <= Seg.Depth_Top b.

Lemma intervals_sorted_from (page_num : Z) (data : DataFrame) (k : nat) :
  Forall valid_row data ->
  StronglySorted row_before data ->
  StronglySorted seg_before
    (flat_map (clip_row page_num) (enumerate_from k data)).
Proof.
  intros Hv Hs. revert k.
  induction data as [| r rest IH]; intro k; cbn [enumerate_from flat_map];
    [constructor |].
  inversion Hv as [| ? ? Hr Hrest]; subst.
  inversion Hs as [| ? ? Hs' Hall]; subst.
  specialize (IH Hrest Hs' (S k)).
  destruct (clip_row page_num (k, r)) as [| seg l] eqn:E; [exact IH |].
  assert (l = []) as ->.
  { unfold clip_row in E. destruct (_ || _); [discriminate |]. congruence. }
  simpl. constructor; [exact IH |].
  rewrite Forall_forall. intros seg' Hin.
  apply in_flat_map in Hin. destruct Hin as ((i' & r') & Hir & Hseg').
  pose proof (in_enumerate_from_inv _ _ _ _ Hir) as Hr'.
  rewrite Forall_forall in Hall, Hrest.
  specialize (Hall r' Hr'). specialize (Hrest r' Hr').
  destruct Hr as [_ Hr]. destruct Hrest as [_ Hrest].
  assert (Hs1 : In seg (clip_row page_num (k, r))) by (rewrite E; now left).
  destruct (clip_row_bounds _ _ _ _ Hr Hs1) as (_ & _ & A1 & A2 & _).
  destruct (clip_row_bounds _ _ _ _ Hrest Hseg') as (B1 & _).
  unfold seg_before, row_before in *. split; lra.
Qed.

Lemma intervals_sorted (data : DataFrame) (page_num : Z) :
  well_formed data -> StronglySorted seg_before (intervals data page_num).
Proof.
  intro H. apply intervals_sorted_from; [apply H | now apply well_formed_sorted].
Qed.

Lemma StronglySorted_nth {A : Type} (R : A -> A -> Prop) (l : list A)
    (j k : nat) (a b : A) :
  StronglySorted R l -> (j < k)%nat ->
  nth_error l j = Some a -> nth_error l k = Some b -> R a b.
Proof.
  intros Hs. revert j k. induction Hs as [| x l Hs IH Hall]; intros j k Hjk Ha Hb.
  - destruct j; discriminate.
  - destruct k as [| k]; [lia |]. simpl in Hb.
    destruct j as [| j]; simpl in Ha.
    + injection Ha as <-. rewrite Forall_forall in Hall.
      apply Hall. eapply nth_error_In; eassumption.
    + apply (IH j k); [lia | assumption | assumption].
Qed.

(** C2.  On every page, the segment list holds exactly one segment of row [i]
    if and only if [base_depth > page_top] and [top_depth < page_bot] (strict
    comparisons), and none otherwise; that segment runs from
    [max(top_depth, page_top)] to [min(base_depth, page_bot)] and remembers
    the row's own top and base; every segment comes from a row; and for a
    well-formed interval list the segments of the page are in ascending order
    of [Depth_Top], each one ending where the next one starts or above. *)
Theorem one_clipped_segment_per_overlap (data : DataFrame) (page_num : Z) :
  (forall (i : nat) (row : Row.t),
      nth_error data i = Some row ->
      let segs := segments_of i (intervals data page_num) in
      (List.length segs = 1%nat <->
         inject_Z (page_top page_num) < Row.Depth_Base row
         /\ Row.Depth_Top row < inject_Z (page_bot page_num))
      /\ (List.length segs = 0%nat \/ List.length segs = 1%nat)
      /\ forall seg, In seg segs ->
           Seg.Depth_Top seg
             = max (Row.Depth_Top row) (inject_Z (page_top page_num))
           /\ Seg.Depth_Base seg
             = min (Row.Depth_Base row) (inject_Z (page_bot page_num))
           /\ Seg.orig_Depth_Top seg = Row.Depth_Top row
           /\ Seg.orig_Depth_Base seg = Row.Depth_Base row)
  /\ (forall seg, In seg (intervals data page_num) ->
        exists row, nth_error data (Seg.orig_idx seg) = Some row)
  /\ (well_formed data ->
      StronglySorted seg_before (intervals data page_num)).
Proof.
  split; [| split].
  - intros i row Hrow segs. subst segs.
    rewrite (segments_of_intervals _ _ _ _ Hrow).
    destruct (overlaps_dec row page_num) as [[H1 H2] | H].
    + rewrite (clip_row_overlap _ _ _ H1 H2). simpl.
      split; [tauto |]. split; [now right |].
      intros seg [<- | []]. simpl. auto.
    + rewrite (clip_row_disjoint _ _ _ H). simpl.
      split; [| split; [now left | tauto]].
      split; [discriminate |]. intros [H1 H2]. destruct H; lra.
  - intros seg Hin. unfold intervals in Hin.
    apply in_flat_map in Hin. destruct Hin as ((i & row) & Hir & Hseg).
    rewrite (clip_row_idx _ _ _ _ Hseg). exists row.
    unfold enumerate in Hir. apply In_nth_error in Hir.
    destruct Hir as (n & Hn).
    assert (G : forall (l : DataFrame) k n,
               nth_error (enumerate_from k l) n = Some (i, row) ->
               (k <= i)%nat /\ nth_error l (i - k) = Some row).
    { clear. induction l as [| x t IH]; intros k n H.
      - destruct n; discriminate.
      - destruct n as [| n]; simpl in H.
        + injection H as -> ->. rewrite Nat.sub_diag. auto.
        + destruct (IH _ _ H) as [Hle Hnth]. split; [lia |].
          replace (i - k)%nat with (S (i - S k)) by lia. exact Hnth. }
    destruct (G _ _ _ Hn) as [_ Hnth]. now rewrite Nat.sub_0_r in Hnth.
  - apply intervals_sorted.
Qed.

(** *** Coverage *)

(** Depth span of a segment, and the span row [i] receives on one page and
    on all pages of the log. *)
Definition span (seg : Seg.t) : Q := Seg.Depth_Base seg - Seg.Depth_Top seg.

Definition span_on_page (data : DataFrame) (i : nat) (page_num : Z) : Q :=
  Qsum (map span (segments_of i (intervals data page_num))).

Definition span_on_pages (data : DataFrame) (log_depth : Q) (i : nat) : Q :=
  Qsum (map (span_on_page data i) (pages log_depth)).

(** A depth is covered by a segment when it lies in [[top, base)]. *)
Definition covers (seg : Seg.t) (d : Q) : Prop :=
  Seg.Depth_Top seg <= d /\ d < Seg.Depth_Base seg.

(** What one page takes of a row. *)
Definition row_span_on_page (row : Row.t) (page_num : Z) : Q :=
  Qsum (map span (clip_row page_num (0%nat, row))).

Lemma span_clip_row_idx (page_num : Z) (i k : nat) (row : Row.t) :
  map span (clip_row page_num (i, row)) = map span (clip_row page_num (k, row)).
Proof. unfold clip_row. destruct (_ || _); reflexivity. Qed.

Lemma row_span_cases (row : Row.t) (page_num : Z) :
  let t := inject_Z (page_top page_num) in
  let d1 := Row.Depth_Top row in
  let d2 := Row.Depth_Base row in
  (d2 <= t \/ t + 10 <= d1 -> row_span_on_page row page_num == 0)
  /\ (t < d2 -> d1 < t + 10 ->
      (d1 <= t -> d2 <= t + 10 -> row_span_on_page row page_num == d2 - t)
      /\ (d1 <= t -> t + 10 <= d2 -> row_span_on_page row page_num == 10)
      /\ (t <= d1 -> d2 <= t + 10 -> row_span_on_page row page_num == d2 - d1)
      /\ (t <= d1 -> t + 10 <= d2 ->
          row_span_on_page row page_num == t + 10 - d1)).
Proof.
  intros t d1 d2. subst t d1 d2. unfold row_span_on_page.
  pose proof (inject_page_bot page_num) as Hpb.
  split.
  - intro H. rewrite clip_row_disjoint; [reflexivity |].
    destruct H; [now left | right; lra].
  - intros H1 H2. rewrite clip_row_overlap by lra.
    unfold span. simpl.
    destruct (max_cases (Row.Depth_Top row) (inject_Z (page_top page_num)))
      as [[? ->] | [? ->]];
    destruct (min_cases (Row.Depth_Base row) (inject_Z (page_bot page_num)))
      as [[? ->] | [? ->]]; repeat split; intros; lra.
Qed.

(** The first [n] pages cover a row from its top down to depth [10 n]. *)
Lemma row_span_first_pages (row : Row.t) (n : nat) :
  Row.Depth_Top row < Row.Depth_Base row ->
  0 <= Row.Depth_Top row ->
  let T := 10 * inject_Z (Z.of_nat n) in
  let total :=
    Qsum (map (row_span_on_page row) (range 1 (1 + Z.of_nat n))) in
  (T <= Row.Depth_Top row -> total == 0)
  /\ (Row.Depth_Top row <= T -> T <= Row.Depth_Base row ->
      total == T - Row.Depth_Top row)
  /\ (Row.Depth_Base row <= T ->
      total == Row.Depth_Base row - Row.Depth_Top row).
Proof.
  intros Hrow Htop. induction n as [| n IH].
  - simpl. change (inject_Z 0) with 0. repeat split; intros; lra.
  - cbv zeta in *. rewrite range_snoc, map_app, Qsum_app.
    cbn [map Qsum fold_right].
    destruct (row_span_cases row (1 + Z.of_nat n)) as [C0 C1].
    cbv zeta in C0, C1.
    assert (Et : inject_Z (page_top (1 + Z.of_nat n))
                 == 10 * inject_Z (Z.of_nat n)).
    { rewrite inject_page_top, inject_Z_plus. change (inject_Z 1) with 1. lra. }
    assert (ES : inject_Z (Z.of_nat (S n)) == inject_Z (Z.of_nat n) + 1).
    { rewrite Nat2Z.inj_succ. unfold Z.succ. rewrite inject_Z_plus.
      reflexivity. }
    rewrite Et in C0, C1. rewrite ES.
    set (t := inject_Z (Z.of_nat n)) in *.
    set (d1 := Row.Depth_Top row) in *.
    set (d2 := Row.Depth_Base row) in *.
    set (s := row_span_on_page row (1 + Z.of_nat n)) in *.
    set (acc := Qsum (map (row_span_on_page row) (range 1 (1 + Z.of_nat n))))
      in *.
    destruct IH as (I0 & I1 & I2).
    destruct (Qlt_le_dec (10 * t) d2) as [Hd2 | Hd2];
      [| assert (s == 0) by (apply C0; left; lra);
         specialize (I2 Hd2); repeat split; intros; lra].
    destruct (Qlt_le_dec d1 (10 * t + 10)) as [Hd1 | Hd1];
      [| assert (s == 0) by (apply C0; right; lra);
         assert (acc == 0) by (apply I0; lra);
         repeat split; intros; lra].
    destruct (C1 Hd2 Hd1) as (K1 & K2 & K3 & K4).
    destruct (Qlt_le_dec d1 (10 * t)) as [Ha | Ha];
      destruct (Qlt_le_dec d2 (10 * t + 10)) as [Hb | Hb].
    + assert (s == d2 - 10 * t) by (apply K1; lra).
      assert (acc == 10 * t - d1) by (apply I1; lra).
      repeat split; intros; lra.
    + assert (s == 10) by (apply K2; lra).
      assert (acc == 10 * t - d1) by (apply I1; lra).
      repeat split; intros; lra.
    + assert (s == d2 - d1) by (apply K3; lra).
      assert (acc == 0) by (apply I0; lra).
      repeat split; intros; lra.
    + assert (s == 10 * t + 10 - d1) by (apply K4; lra).
      assert (acc == 0) by (apply I0; lra).
      repeat split; intros; lra.
Qed.

Lemma span_on_page_row (data : DataFrame) (i : nat) (row : Row.t)
    (page_num : Z) :
  nth_error data i = Some row ->
  span_on_page data i page_num = row_span_on_page row page_num.
Proof.
  intro H. unfold span_on_page, row_span_on_page.
  rewrite (segments_of_intervals _ _ _ _ H).
  now rewrite (span_clip_row_idx _ i 0).
Qed.

Lemma span_on_pages_row (data : DataFrame) (log_depth : Q) (i : nat)
    (row : Row.t) :
  nth_error data i = Some row ->
  span_on_pages data log_depth i =
  Qsum (map (row_span_on_page row) (pages log_depth)).
Proof.
  intro H. unfold span_on_pages. f_equal. apply map_ext.
  intro p. now apply span_on_page_row.
Qed.

Lemma rows_reconstructed (data : DataFrame) (log_depth : Q) (i : nat)
    (row : Row.t) :
  Forall valid_row data ->
  Depth_Base_max data = Some log_depth ->
  nth_error data i = Some row ->
  span_on_pages data log_depth i == Row.Depth_Base row - Row.Depth_Top row.
Proof.
  intros Hv Hmax Hrow.
  rewrite (span_on_pages_row _ _ _ _ Hrow).
  pose proof (Depth_Base_max_spec _ _ Hmax) as Hspec.
  pose proof (max_base_positive _ _ Hv Hspec) as Hpos.
  pose proof (last_borehole_page_positive _ Hpos) as Hpage.
  destruct (last_borehole_page_bounds log_depth) as [_ Hhi].
  assert (Hin : In row data) by (eapply nth_error_In; eassumption).
  rewrite Forall_forall in Hv. destruct (Hv row Hin) as [Ht Hb].
  destruct Hspec as [_ Hle]. specialize (Hle row Hin).
  unfold pages.
  replace (last_borehole_page log_depth + 1)%Z
    with (1 + Z.of_nat (Z.to_nat (last_borehole_page log_depth)))%Z by lia.
  destruct (row_span_first_pages row
              (Z.to_nat (last_borehole_page log_depth)) Hb Ht) as (_ & _ & H).
  apply H. rewrite Z2Nat.id by lia. lra.
Qed.

Lemma segments_disjoint (data : DataFrame) (page_num : Z) (j k : nat)
    (a b : Seg.t) (d : Q) :
  well_formed data ->
  j <> k ->
  nth_error (intervals data page_num) j = Some a ->
  nth_error (intervals data page_num) k = Some b ->
  ~ (covers a d /\ covers b d).
Proof.
  intros Hwf Hjk Ha Hb [[A1 A2] [B1 B2]].
  pose proof (intervals_sorted data page_num Hwf) as Hs.
  destruct (Nat.lt_total j k) as [Hlt | [-> | Hgt]]; [| congruence |].
  - destruct (StronglySorted_nth _ _ _ _ _ _ Hs Hlt Ha Hb) as [_ H]. lra.
  - destruct (StronglySorted_nth _ _ _ _ _ _ Hs Hgt Hb Ha) as [_ H]. lra.
Qed.

(** C1.  For every contiguous, sorted list of valid intervals: summed over
    all pages of the log, the spans [Depth_Base - Depth_Top] of the segments
    of row [i] make up [base_depth - top_depth] of that row, and no depth is
    covered by two different segments of one page. *)
Theorem clipped_segments_reconstruct_intervals (data : DataFrame)
    (log_depth : Q) :
  well_formed data ->
  Depth_Base_max data = Some log_depth ->
  (forall (i : nat) (row : Row.t),
      nth_error data i = Some row ->
      span_on_pages data log_depth i
      == Row.Depth_Base row - Row.Depth_Top row)
  /\ (forall (page_num : Z) (j k : nat) (a b : Seg.t) (d : Q),
        In page_num (pages log_depth) ->
        j <> k ->
        nth_error (intervals data page_num) j = Some a ->
        nth_error (intervals data page_num) k = Some b ->
        ~ (covers a d /\ covers b d)).
Proof.
  intros Hwf Hmax. split.
  - intros i row Hrow. apply rows_reconstructed; [apply Hwf | assumption ..].
  - intros page_num j k a b d _. now apply segments_disjoint.
Qed.

(** The dummy data meet the hypotheses of C1; its fifth row, 7.0 to 10.0,
    is given back whole. *)
Lemma dummy_data_reconstructed :
  well_formed DUMMY_BOREHOLE_DATA
  /\ Depth_Base_max DUMMY_BOREHOLE_DATA = Some 15.0
  /\ span_on_pages DUMMY_BOREHOLE_DATA 15.0 4 == 10.0 - 7.0.
Proof.
  split; [exact dummy_data_well_formed |]. split; [reflexivity |].
  exact (proj1 (clipped_segments_reconstruct_intervals DUMMY_BOREHOLE_DATA
                  15.0 dummy_data_well_formed eq_refl)
           4%nat (Row.mk 7.0 10.0 "504" "Dense sandy GRAVEL, occasional cobbles")
           eq_refl).
Defined.

(** *** The depth mapping in exact arithmetic *)

(** In exact arithmetic, for every page and all depths [d] and [d']: the top of the page is mapped to 1, the depth one page span
    below it to [bottom_line_y], the mapping is the affine function
    [1 - (1 - bottom_line_y) * (d - page_top) / 10], and the midpoint of two
    depths is mapped to the mean of their images. *)
Lemma depth_to_y_in_exact_arithmetic (page_num : Z) (d d' : Q) :
  depth_to_y page_num (inject_Z (page_top page_num)) == 1
  /\ depth_to_y page_num (inject_Z (page_top page_num) + 10) == bottom_line_y
  /\ depth_to_y page_num d
     == 1 - (1 - bottom_line_y) * (d - inject_Z (page_top page_num)) / 10
  /\ depth_to_y page_num ((d + d') / 2)
     == (depth_to_y page_num d + depth_to_y page_num d') / 2.
Proof.
  unfold depth_to_y, bottom_line_y. repeat split; field.
Qed.

(** *** The ruler *)

Lemma nth_error_flat_map_blocks {A B : Type} (f : A -> list B) (n : nat)
    (l : list A) (i j : nat) :
  (forall x, List.length (f x) = n) ->
  (j < n)%nat ->
  nth_error (flat_map f l) (n * i + j) =
  match nth_error l i with
  | Some x => nth_error (f x) j
  | None => None
  end.
Proof.
  intros Hlen Hj. revert i. induction l as [| x t IH]; intro i.
  - simpl. destruct i; simpl; now destruct (n * _ + j)%nat.
  - cbn [flat_map]. destruct i as [| i].
    + rewrite Nat.mul_0_r. simpl.
      apply nth_error_app1. now rewrite Hlen.
    + cbn [nth_error]. rewrite <- IH.
      rewrite nth_error_app2 by (rewrite Hlen; lia).
      f_equal. rewrite Hlen. lia.
Qed.

Lemma length_flat_map_blocks {A B : Type} (f : A -> list B) (n : nat)
    (l : list A) :
  (forall x, List.length (f x) = n) ->
  List.length (flat_map f l) = (n * List.length l)%nat.
Proof.
  intro Hlen. induction l as [| x t IH]; simpl; [lia |].
  rewrite length_app, Hlen, IH. lia.
Qed.

Lemma marker_range_length (page_num : Z) :
  Z.to_nat (marker_end page_num + 1 - marker_start page_num) = 11%nat.
Proof. unfold marker_end, marker_start. lia. Qed.

(** The height of a main marker is the image of its depth. *)
Lemma main_marker_y (page_num marker : Z) :
  1 - (1 - bottom_line_y) * (inject_Z (marker - marker_start page_num) / 10)
  == depth_to_y page_num (inject_Z marker).
Proof.
  unfold depth_to_y, marker_start, page_top.
  replace (marker - (page_num - 1) * 10)%Z
    with (marker + - ((page_num - 1) * 10))%Z by lia.
  rewrite inject_Z_plus, inject_Z_opp. field.
Qed.

(** The height of a subtick is the image of the depth [i + sub/10] below the
    first marker of the page. *)
Lemma subtick_y (page_num i sub : Z) :
  1 - (1 - bottom_line_y) * ((inject_Z i + inject_Z sub / 10) / 10)
  == depth_to_y page_num
       (inject_Z (marker_start page_num) + inject_Z i + inject_Z sub / 10).
Proof.
  unfold depth_to_y, marker_start, page_top. field.
Qed.

Definition is_plot (d : draw) : Prop :=
  match d with
  | plot _ _ _ _ _ _ => True
  | _ => False
  end.

(** On every page the ruler has 11 main markers, one line and one label
    each, at the integer depths [marker_start + k] for [k = 0..10]; the label
    is that absolute depth; between two neighbouring markers there are 9
    subticks, 90 in all, at the tenths [marker_start + i + sub/10], none with
    a label; and the height of every marker and subtick is the image of its
    depth under the [depth_to_y] of the page. *)
Lemma ruler_ticks_in_exact_arithmetic (page_num : Z) :
  List.length (main_markers page_num) = (2 * 11)%nat
  /\ (forall k : nat, (k <= 10)%nat ->
        let marker := (marker_start page_num + Z.of_nat k)%Z in
        exists y : Q,
          y == depth_to_y page_num (inject_Z marker)
          /\ nth_error (main_markers page_num) (2 * k)
             = Some (plot ruler_x (ruler_x + main_tick_length) y y 1.1 31)
          /\ nth_error (main_markers page_num) (2 * k + 1)
             = Some (text (ruler_x + main_tick_length + ruler_width * 0.1) y
                       (Int marker) va_center ha_left 32))
  /\ List.length subticks = (9 * 10)%nat
  /\ (forall d, In d subticks -> is_plot d)
  /\ (forall i sub : nat, (i < 10)%nat -> (1 <= sub <= 9)%nat ->
        exists y : Q,
          y == depth_to_y page_num
                 (inject_Z (marker_start page_num) + inject_Z (Z.of_nat i)
                  + inject_Z (Z.of_nat sub) / 10)
          /\ nth_error subticks (9 * i + (sub - 1))
             = Some (plot ruler_x (ruler_x + sub_tick_length) y y 0.7 30)).
Proof.
  assert (Hmain : forall m, List.length (main_marker page_num m) = 2%nat)
    by reflexivity.
  assert (Hsub : forall i : Z, List.length (map (subtick i) (range 1 10)) = 9%nat)
    by reflexivity.
  split; [| split; [| split; [| split]]].
  - unfold main_markers.
    rewrite (length_flat_map_blocks _ 2 _ Hmain), range_length.
    now rewrite marker_range_length.
  - intros k Hk marker.
    exists (1 - (1 - bottom_line_y)
                * (inject_Z (marker - marker_start page_num) / 10)).
    split; [apply main_marker_y |].
    unfold main_markers. split.
    + replace (2 * k)%nat with (2 * k + 0)%nat by lia.
      rewrite (nth_error_flat_map_blocks _ 2 _ _ _ Hmain) by lia.
      rewrite range_nth_error by (rewrite marker_range_length; lia).
      reflexivity.
    + rewrite (nth_error_flat_map_blocks _ 2 _ _ _ Hmain) by lia.
      rewrite range_nth_error by (rewrite marker_range_length; lia).
      reflexivity.
  - unfold subticks.
    now rewrite (length_flat_map_blocks _ 9 _ Hsub), range_length.
  - intros d Hd. unfold subticks in Hd.
    apply in_flat_map in Hd. destruct Hd as (i & _ & Hd).
    apply in_map_iff in Hd. destruct Hd as (sub & <- & _). exact I.
  - intros i sub Hi Hs.
    exists (1 - (1 - bottom_line_y)
                * ((inject_Z (Z.of_nat i) + inject_Z (Z.of_nat sub) / 10) / 10)).
    split; [apply subtick_y |].
    unfold subticks.
    rewrite (nth_error_flat_map_blocks _ 9 _ _ _ Hsub) by lia.
    rewrite range_nth_error by (simpl; lia).
    rewrite nth_error_map, range_nth_error by (simpl; lia).
    cbn [option_map]. unfold subtick.
    replace (0 + Z.of_nat i)%Z with (Z.of_nat i) by lia.
    replace (1 + Z.of_nat (sub - 1))%Z with (Z.of_nat sub) by lia.
    reflexivity.
Qed.

(** *** Depth and level labels *)















(** The single-page routine draws no top label for the second row of the
    dummy data, whose top 0.5 is a true boundary below depth 0. *)
Lemma single_page_skips_top_labels :
  exists row,
    nth_error DUMMY_BOREHOLE_DATA 1 = Some row
    /\ 0 < Row.Depth_Top row
    /\ SinglePage.top_label_shown 1 row = false.
Proof. eexists. split; [reflexivity |]. split; reflexivity. Qed.

(** *** Bars, description anchors and the closing line *)

(** The calls of a page are told apart by their [zorder], as the routine
    assigns them: 2 for lithology bars, 16 for the closing line. *)
Definition zorder (d : draw) : Z :=
  match d with
  | add_patch _ _ _ _ z => z
  | text _ _ _ _ _ z => z
  | plot _ _ _ _ _ z => z
  end.

Lemma borehole_end_inside (log_depth : Q) (page_num : Z) :
  log_depth < inject_Z (page_bot page_num) ->
  borehole_end_depth log_depth page_num = log_depth.
Proof.
  intro H. unfold borehole_end_depth. rewrite page_bot_top.
  destruct (min_cases log_depth (inject_Z (page_bot page_num)))
    as [[Hc _] | [_ E]]; [lra | exact E].
Qed.

Lemma closing_line_inside (log_depth : Q) (page_num : Z) :
  log_depth < inject_Z (page_bot page_num) ->
  closing_line log_depth page_num =
  [ plot legend_left (desc_left + desc_width)
      (depth_to_y page_num log_depth) (depth_to_y page_num log_depth) 1 16 ].
Proof.
  intro H. unfold closing_line.
  rewrite (borehole_end_inside _ _ H), page_bot_top.
  destruct (Qltb_spec log_depth (inject_Z (page_bot page_num)));
    [reflexivity | contradiction].
Qed.

Lemma closing_line_full (log_depth : Q) (page_num : Z) :
  inject_Z (page_bot page_num) <= log_depth ->
  closing_line log_depth page_num =
  [ plot legend_left (desc_left + desc_width) bottom_line_y bottom_line_y
      1 16 ].
Proof.
  intro H. unfold closing_line, borehole_end_depth. rewrite page_bot_top.
  destruct (min_cases log_depth (inject_Z (page_bot page_num)))
    as [[_ ->] | [_ ->]];
    match goal with
    | |- context [Qltb ?a ?b] => destruct (Qltb_spec a b)
    end; try reflexivity; lra.
Qed.

Lemma y_base_clipped_inside (log_depth : Q) (page_num : Z) (seg : Seg.t) :
  log_depth < inject_Z (page_bot page_num) ->
  y_base_clipped log_depth page_num seg =
  max (depth_to_y page_num (Seg.Depth_Base seg))
    (depth_to_y page_num log_depth)
  /\ depth_to_y page_num log_depth <= y_base_clipped log_depth page_num seg.
Proof.
  intro H. unfold y_base_clipped. rewrite (borehole_end_inside _ _ H).
  split; [reflexivity |].
  destruct (max_cases (depth_to_y page_num (Seg.Depth_Base seg))
              (depth_to_y page_num log_depth)) as [[? ->] | [? ->]]; lra.
Qed.

(** What [draw_bar] leaves: nothing, or a bar of positive height with the
    code and the description anchored at its middle. *)
Lemma draw_bar_cases (log_depth : Q) (page_num : Z) (seg : Seg.t) :
  draw_bar log_depth page_num seg = []
  \/ exists y h yc : Q,
       y = y_base_clipped log_depth page_num seg
       /\ 0 < h
       /\ y + h == depth_to_y page_num (Seg.Depth_Top seg)
       /\ yc == y + h / 2
       /\ draw_bar log_depth page_num seg =
          [ add_patch legend_left y legend_width h 2;
            text (legend_left + legend_width / 2) yc
              (Str (Seg.Geology_Code seg)) va_center ha_center 3;
            text (desc_left + desc_width * 0.02) yc
              (Str (Seg.Description seg)) va_center ha_left 3 ].
Proof.
  unfold draw_bar.
  destruct (Qltb_spec (y_base_clipped log_depth page_num seg)
              (depth_to_y page_num (Seg.Depth_Top seg))) as [Hlt | Hge];
    [right | now left].
  eexists _, _, _. split; [reflexivity |].
  split; [| split; [| split; [| reflexivity]]].
  - lra.
  - ring.
  - field.
Qed.

Ltac in_cases H :=
  repeat match type of H with
    | In _ (_ ++ _) => apply in_app_or in H; destruct H as [H | H]
    | In _ (_ :: _) => destruct H as [H | H]
    | In _ [] => destruct H
    end.

Lemma in_draw_interval (log_depth : Q) (page_num : Z) (j : nat) (seg : Seg.t)
    (d : draw) :
  In d (draw_interval log_depth page_num (j, seg)) ->
  In d (draw_bar log_depth page_num seg)
  \/ zorder d = 3%Z \/ zorder d = 15%Z.
Proof.
  unfold draw_interval. intro H. in_cases H.
  - now left.
  - right. left. unfold draw_top_label in H.
    destruct (_ && _); in_cases H; subst d; reflexivity.
  - right. left. unfold draw_base_label in H.
    destruct (show_base seg); in_cases H; subst d; reflexivity.
  - right. right. unfold draw_divider in H.
    destruct (0 <? j)%nat; in_cases H; subst d; reflexivity.
Qed.

Lemma in_draw_bar_zorder (log_depth : Q) (page_num : Z) (seg : Seg.t)
    (d : draw) :
  In d (draw_bar log_depth page_num seg) -> zorder d = 2%Z \/ zorder d = 3%Z.
Proof.
  unfold draw_bar. destruct (Qltb _ _); intro H; in_cases H; subst d;
    simpl; auto.
Qed.

(** Where the calls of a page with [zorder] 2 and 16 come from. *)
Lemma in_page_cases (data : DataFrame) (log_depth : Q) (page_num : Z)
    (d : draw) :
  In d (draw_log_page data log_depth page_num) ->
  (exists seg, In seg (intervals data page_num)
               /\ In d (draw_bar log_depth page_num seg))
  \/ In d (closing_line log_depth page_num)
  \/ (zorder d <> 2%Z /\ zorder d <> 16%Z).
Proof.
  unfold draw_log_page. intro H. in_cases H.
  - subst d. right. right. simpl. lia.
  - apply in_map_iff in H. destruct H as (x & <- & _).
    right. right. simpl. lia.
  - subst d. right. right. simpl. lia.
  - apply in_flat_map in H. destruct H as ((j & seg) & Hjs & Hd).
    apply in_enumerate_from_inv in Hjs.
    destruct (in_draw_interval _ _ _ _ _ Hd) as [Hb | [Hz | Hz]].
    + left. eauto.
    + right. right. lia.
    + right. right. lia.
  - right. now left.
  - subst d. right. right. simpl. lia.
  - unfold main_markers in H. apply in_flat_map in H.
    destruct H as (m & _ & H). unfold main_marker in H. in_cases H; subst d;
      right; right; simpl; lia.
  - unfold subticks in H. apply in_flat_map in H.
    destruct H as (i & _ & H). apply in_map_iff in H.
    destruct H as (sub & <- & _). right. right. simpl. lia.
Qed.

Lemma closing_line_in_page (data : DataFrame) (log_depth : Q) (page_num : Z)
    (d : draw) :
  In d (closing_line log_depth page_num) ->
  In d (draw_log_page data log_depth page_num).
Proof.
  intro H. unfold draw_log_page.
  do 4 (apply in_or_app; right). apply in_or_app. now left.
Qed.

Lemma closing_line_zorder (log_depth : Q) (page_num : Z) (d : draw) :
  In d (closing_line log_depth page_num) -> zorder d = 16%Z.
Proof.
  unfold closing_line. destruct (Qltb _ _); intro H; in_cases H; subst d;
    reflexivity.
Qed.

(** The calls of [draw_bar] are calls of the page. *)
Lemma draw_bar_in_page (data : DataFrame) (log_depth : Q) (page_num : Z)
    (seg : Seg.t) (d : draw) :
  In seg (intervals data page_num) ->
  In d (draw_bar log_depth page_num seg) ->
  In d (draw_log_page data log_depth page_num).
Proof.
  intros Hseg Hd. unfold draw_log_page.
  do 3 (apply in_or_app; right). apply in_or_app. left.
  destruct (in_enumerate_from _ 0%nat _ Hseg) as (j & Hj).
  apply in_flat_map. exists (j, seg). split; [exact Hj |].
  unfold draw_interval. apply in_or_app. now left.
Qed.

(** The texts written left-aligned with [zorder] 3 are the descriptions,
    and [draw_bar] writes them. *)
Lemma description_text_cases (data : DataFrame) (log_depth : Q)
    (page_num : Z) (x y : Q) (s : label) (va : valign) :
  In (text x y s va ha_left 3) (draw_log_page data log_depth page_num) ->
  exists seg,
    In seg (intervals data page_num)
    /\ In (text x y s va ha_left 3) (draw_bar log_depth page_num seg).
Proof.
  unfold draw_log_page. intro H. in_cases H; try discriminate.
  - apply in_map_iff in H. destruct H as (x0 & H & _). discriminate.
  - apply in_flat_map in H. destruct H as ((j & seg) & Hjs & Hd).
    apply in_enumerate_from_inv in Hjs. exists seg. split; [exact Hjs |].
    unfold draw_interval in Hd. in_cases Hd.
    + exact Hd.
    + unfold draw_top_label in Hd.
      destruct (_ && _); in_cases Hd; discriminate.
    + unfold draw_base_label in Hd.
      destruct (show_base seg); in_cases Hd; discriminate.
    + unfold draw_divider in Hd.
      destruct (0 <? j)%nat; in_cases Hd; discriminate.
  - unfold closing_line in H. destruct (Qltb _ _); in_cases H; discriminate.
  - unfold main_markers in H. apply in_flat_map in H.
    destruct H as (m & _ & H). unfold main_marker in H.
    in_cases H; discriminate.
  - unfold subticks in H. apply in_flat_map in H.
    destruct H as (i & _ & H). apply in_map_iff in H.
    destruct H as (sub & H & _). discriminate.
Qed.

(** C5.  On a page whose bottom lies below the true end [log_depth] of the
    borehole, every lithology bar has its bottom at
    [max(depth_to_y(segment base), depth_to_y(log_depth))], hence never below
    the image of the true end, and the closing line (the only line of
    [zorder] 16) is drawn at the image of the true end; on every other page
    the closing line is drawn at [bottom_line_y].  On every page a segment
    whose clipped bar has positive height, the test of the source, gets its
    bar, its code and its description, the two texts at the middle of the bar
    as drawn, between its clipped bottom and its top and not at the middle
    of the unclipped span; any other segment gets nothing; and every
    description on the page is such a text. *)
Theorem bars_and_closing_line_stop_at_true_end (data : DataFrame)
    (log_depth : Q) (page_num : Z) :
  let page := draw_log_page data log_depth page_num in
  let end_y := depth_to_y page_num log_depth in
  (log_depth < inject_Z (page_bot page_num) ->
     (forall x y w h : Q,
         In (add_patch x y w h 2) page ->
         end_y <= y
         /\ exists seg, In seg (intervals data page_num)
              /\ y = max (depth_to_y page_num (Seg.Depth_Base seg)) end_y)
     /\ In (plot legend_left (desc_left + desc_width) end_y end_y 1 16) page
     /\ forall x1 x2 y1 y2 lw : Q,
          In (plot x1 x2 y1 y2 lw 16) page -> y1 = end_y /\ y2 = end_y)
  /\ (inject_Z (page_bot page_num) <= log_depth ->
      In (plot legend_left (desc_left + desc_width)
            bottom_line_y bottom_line_y 1 16) page
      /\ forall x1 x2 y1 y2 lw : Q,
           In (plot x1 x2 y1 y2 lw 16) page ->
           y1 = bottom_line_y /\ y2 = bottom_line_y)
  /\ (forall seg : Seg.t,
        In seg (intervals data page_num) ->
        let y_top := depth_to_y page_num (Seg.Depth_Top seg) in
        let y := y_base_clipped log_depth page_num seg in
        (y < y_top ->
           In (add_patch legend_left y legend_width (y_top - y) 2) page
           /\ In (text (legend_left + legend_width / 2) ((y_top + y) / 2)
                    (Str (Seg.Geology_Code seg)) va_center ha_center 3) page
           /\ In (text (desc_left + desc_width * 0.02) ((y_top + y) / 2)
                    (Str (Seg.Description seg)) va_center ha_left 3) page
           /\ y <= (y_top + y) / 2 <= y_top)
        /\ (y_top <= y -> draw_bar log_depth page_num seg = []))
  /\ (forall (x y : Q) (s : label) (va : valign),
        In (text x y s va ha_left 3) page ->
        exists seg,
          In seg (intervals data page_num)
          /\ s = Str (Seg.Description seg)
          /\ y_base_clipped log_depth page_num seg
             < depth_to_y page_num (Seg.Depth_Top seg)
          /\ y = (depth_to_y page_num (Seg.Depth_Top seg)
                  + y_base_clipped log_depth page_num seg) / 2).
Proof.
  intros page end_y. subst page end_y. split; [| split; [| split]].
  - intro Hend. split; [| split].
    + intros x y w h Hin.
      destruct (in_page_cases _ _ _ _ Hin) as [(seg & Hseg & Hbar) | [Hc | Hz]].
      * destruct (draw_bar_cases log_depth page_num seg)
          as [E | (y' & h' & yc & Ey & _ & _ & _ & E)];
          rewrite E in Hbar; in_cases Hbar; try discriminate.
        injection Hbar as _ <- _ _.
        destruct (y_base_clipped_inside log_depth page_num seg Hend)
          as [Emax Hle].
        rewrite Ey. split; [exact Hle |]. exists seg. auto.
      * apply closing_line_zorder in Hc. discriminate.
      * simpl in Hz. lia.
    + apply closing_line_in_page. rewrite (closing_line_inside _ _ Hend).
      now left.
    + intros x1 x2 y1 y2 lw Hin.
      destruct (in_page_cases _ _ _ _ Hin) as [(seg & _ & Hbar) | [Hc | Hz]].
      * apply in_draw_bar_zorder in Hbar. simpl in Hbar. lia.
      * rewrite (closing_line_inside _ _ Hend) in Hc. in_cases Hc.
        injection Hc as _ _ <- <- _. auto.
      * simpl in Hz. lia.
  - intro Hfull. split.
    + apply closing_line_in_page. rewrite (closing_line_full _ _ Hfull).
      now left.
    + intros x1 x2 y1 y2 lw Hin.
      destruct (in_page_cases _ _ _ _ Hin) as [(seg & _ & Hbar) | [Hc | Hz]].
      * apply in_draw_bar_zorder in Hbar. simpl in Hbar. lia.
      * rewrite (closing_line_full _ _ Hfull) in Hc. in_cases Hc.
        injection Hc as _ _ <- <- _. auto.
      * simpl in Hz. lia.
  - intros seg Hseg y_top y. subst y_top y. split.
    + intro Hlt.
      assert (E : draw_bar log_depth page_num seg =
                  [ add_patch legend_left
                      (y_base_clipped log_depth page_num seg) legend_width
                      (depth_to_y page_num (Seg.Depth_Top seg)
                       - y_base_clipped log_depth page_num seg) 2;
                    text (legend_left + legend_width / 2)
                      ((depth_to_y page_num (Seg.Depth_Top seg)
                        + y_base_clipped log_depth page_num seg) / 2)
                      (Str (Seg.Geology_Code seg)) va_center ha_center 3;
                    text (desc_left + desc_width * 0.02)
                      ((depth_to_y page_num (Seg.Depth_Top seg)
                        + y_base_clipped log_depth page_num seg) / 2)
                      (Str (Seg.Description seg)) va_center ha_left 3 ]).
      { unfold draw_bar.
        destruct (Qltb_spec (y_base_clipped log_depth page_num seg)
                    (depth_to_y page_num (Seg.Depth_Top seg)));
          [reflexivity | lra]. }
      repeat split;
        try (apply (draw_bar_in_page data log_depth page_num seg _ Hseg);
             rewrite E; simpl; tauto);
        unfold Qdiv; change (/ 2) with (1 # 2); lra.
    + intro Hge. unfold draw_bar.
      destruct (Qltb_spec (y_base_clipped log_depth page_num seg)
                  (depth_to_y page_num (Seg.Depth_Top seg)));
        [lra | reflexivity].
  - intros x y s va Hin.
    destruct (description_text_cases _ _ _ _ _ _ _ Hin) as (seg & Hseg & Hd).
    exists seg. split; [exact Hseg |]. unfold draw_bar in Hd.
    destruct (Qltb_spec (y_base_clipped log_depth page_num seg)
                (depth_to_y page_num (Seg.Depth_Top seg))) as [Hlt | Hge];
      in_cases Hd; try discriminate.
    injection Hd as _ <- <- _. auto.
Qed.

(** The dummy data on its second page, which ends at 20 m while the
    borehole ends at 15 m: the bar of the last stratum stands on the image of
    15 m, its description is written at the middle of the bar, and the
    closing line is drawn at the image of 15 m. *)
Lemma dummy_data_stops_at_true_end :
  let page := draw_log_page DUMMY_BOREHOLE_DATA 15.0 2 in
  let seg := Seg.mk 5 10.0 15.0 "801" "Weathered MUDSTONE, grey, fissured"
               10.0 15.0 in
  15.0 < inject_Z (page_bot 2)
  /\ In seg (intervals DUMMY_BOREHOLE_DATA 2)
  /\ y_base_clipped 15.0 2 seg == 0.5125
  /\ depth_to_y 2 (Seg.Depth_Top seg) == 1
  /\ In (text (desc_left + desc_width * 0.02)
           ((depth_to_y 2 (Seg.Depth_Top seg) + y_base_clipped 15.0 2 seg) / 2)
           (Str "Weathered MUDSTONE, grey, fissured") va_center ha_left 3) page
  /\ In (plot legend_left (desc_left + desc_width)
           (depth_to_y 2 15.0) (depth_to_y 2 15.0) 1 16) page.
Proof.
  assert (Hend : 15.0 < inject_Z (page_bot 2)) by reflexivity.
  assert (Hseg : In (Seg.mk 5 10.0 15.0 "801"
                       "Weathered MUDSTONE, grey, fissured" 10.0 15.0)
                   (intervals DUMMY_BOREHOLE_DATA 2))
    by (left; reflexivity).
  assert (Hlt : y_base_clipped 15.0 2
                  (Seg.mk 5 10.0 15.0 "801"
                     "Weathered MUDSTONE, grey, fissured" 10.0 15.0)
                < depth_to_y 2 10.0) by reflexivity.
  pose proof (bars_and_closing_line_stop_at_true_end DUMMY_BOREHOLE_DATA
                15.0 2) as (Hinside & _ & Hbars & _).
  destruct (Hinside Hend) as (_ & Hline & _).
  destruct (Hbars _ Hseg) as [Hdrawn _].
  destruct (Hdrawn Hlt) as (_ & _ & Htext & _).
  split; [exact Hend |]. split; [exact Hseg |].
  split; [reflexivity |]. split; [reflexivity |].
  split; [exact Htext | exact Hline].
Defined.

(** *** Every stratum is drawn, and drawn inside the axes *)

Lemma segment_bounds (data : DataFrame) (page_num : Z) (seg : Seg.t) :
  Forall valid_row data ->
  In seg (intervals data page_num) ->
  exists row,
    In row data
    /\ inject_Z (page_top page_num) <= Seg.Depth_Top seg
    /\ Seg.Depth_Top seg < Seg.Depth_Base seg
    /\ Seg.Depth_Base seg <= Row.Depth_Base row
    /\ Seg.Depth_Base seg <= inject_Z (page_bot page_num).
Proof.
  intros Hv Hin. unfold intervals in Hin. apply in_flat_map in Hin.
  destruct Hin as ((i & row) & Hir & Hseg).
  apply in_enumerate_from_inv in Hir. exists row. split; [exact Hir |].
  rewrite Forall_forall in Hv. destruct (Hv row Hir) as [_ Hrow].
  destruct (clip_row_bounds _ _ _ _ Hrow Hseg) as (_ & H1 & H2 & H3 & H4).
  auto.
Qed.

Lemma y_base_not_clipped (data : DataFrame) (log_depth : Q) (page_num : Z)
    (seg : Seg.t) :
  Forall valid_row data ->
  Depth_Base_max data = Some log_depth ->
  In seg (intervals data page_num) ->
  y_base_clipped log_depth page_num seg
  = depth_to_y page_num (Seg.Depth_Base seg).
Proof.
  intros Hv Hmax Hin.
  destruct (segment_bounds _ _ _ Hv Hin) as (row & Hrow & _ & _ & Hb & Hp).
  destruct (Depth_Base_max_spec _ _ Hmax) as [_ Hle]. specialize (Hle row Hrow).
  unfold y_base_clipped.
  assert (He : Seg.Depth_Base seg <= borehole_end_depth log_depth page_num).
  { unfold borehole_end_depth. rewrite page_bot_top.
    destruct (min_cases log_depth (inject_Z (page_bot page_num)))
      as [[_ ->] | [_ ->]]; lra. }
  apply depth_to_y_decreasing with (page_num := page_num) in He.
  destruct (max_cases (depth_to_y page_num (Seg.Depth_Base seg))
              (depth_to_y page_num (borehole_end_depth log_depth page_num)))
    as [[Hc _] | [_ ->]]; [lra | reflexivity].
Qed.

Lemma draw_bar_of_segment (data : DataFrame) (log_depth : Q)
    (page_num : Z) (seg : Seg.t) :
  Forall valid_row data ->
  Depth_Base_max data = Some log_depth ->
  In seg (intervals data page_num) ->
  let y_top := depth_to_y page_num (Seg.Depth_Top seg) in
  let y_base := depth_to_y page_num (Seg.Depth_Base seg) in
  y_base < y_top
  /\ draw_bar log_depth page_num seg =
     [ add_patch legend_left y_base legend_width (y_top - y_base) 2;
       text (legend_left + legend_width / 2) ((y_top + y_base) / 2)
         (Str (Seg.Geology_Code seg)) va_center ha_center 3;
       text (desc_left + desc_width * 0.02) ((y_top + y_base) / 2)
         (Str (Seg.Description seg)) va_center ha_left 3 ].
Proof.
  intros Hv Hmax Hin y_top y_base. subst y_top y_base.
  destruct (segment_bounds _ _ _ Hv Hin) as (row & _ & _ & Hlt & _ & _).
  apply (depth_to_y_strict page_num) in Hlt. split; [exact Hlt |].
  unfold draw_bar. rewrite (y_base_not_clipped _ _ _ _ Hv Hmax Hin).
  destruct (Qltb_spec (depth_to_y page_num (Seg.Depth_Base seg))
              (depth_to_y page_num (Seg.Depth_Top seg)));
    [reflexivity | contradiction].
Qed.

(** In exact arithmetic, for valid intervals and the depth of the deepest
    base, no stratum is left out: every segment of every page gets its bar,
    from the image of its top down to the image of its base and of positive
    height, with the code and the description at the middle of the bar. *)
Theorem every_segment_draws_its_bar (data : DataFrame) (log_depth : Q)
    (page_num : Z) (seg : Seg.t) :
  Forall valid_row data ->
  Depth_Base_max data = Some log_depth ->
  In seg (intervals data page_num) ->
  let y_top := depth_to_y page_num (Seg.Depth_Top seg) in
  let y_base := depth_to_y page_num (Seg.Depth_Base seg) in
  y_base < y_top
  /\ draw_bar log_depth page_num seg =
     [ add_patch legend_left y_base legend_width (y_top - y_base) 2;
       text (legend_left + legend_width / 2) ((y_top + y_base) / 2)
         (Str (Seg.Geology_Code seg)) va_center ha_center 3;
       text (desc_left + desc_width * 0.02) ((y_top + y_base) / 2)
         (Str (Seg.Description seg)) va_center ha_left 3 ].
Proof. exact (draw_bar_of_segment data log_depth page_num seg). Qed.

(** The fifth stratum of the dummy data, 7.0 to 10.0, on page 1. *)
Lemma every_segment_draws_its_bar_of_dummy_data :
  let seg := Seg.mk 4 7.0 10.0 "504" "Dense sandy GRAVEL, occasional cobbles"
               7.0 10.0 in
  Forall valid_row DUMMY_BOREHOLE_DATA
  /\ Depth_Base_max DUMMY_BOREHOLE_DATA = Some 15.0
  /\ In seg (intervals DUMMY_BOREHOLE_DATA 1)
  /\ depth_to_y 1 (Seg.Depth_Base seg) < depth_to_y 1 (Seg.Depth_Top seg)
  /\ List.length (draw_bar 15.0 1 seg) = 3%nat.
Proof.
  assert (Hin : In (Seg.mk 4 7.0 10.0 "504"
                      "Dense sandy GRAVEL, occasional cobbles" 7.0 10.0)
                  (intervals DUMMY_BOREHOLE_DATA 1))
    by (vm_compute; do 4 right; left; reflexivity).
  split; [exact dummy_data_valid |]. split; [reflexivity |].
  split; [exact Hin |].
  destruct (every_segment_draws_its_bar DUMMY_BOREHOLE_DATA 15.0 1 _
              dummy_data_valid eq_refl Hin) as [Hlt E].
  split; [exact Hlt |]. now rewrite E.
Defined.

(** A call stays inside the axes, whose limits are 0 and 1 both ways: a
    patch with its four corners, a text with its anchor, a line with its two
    ends. *)
Definition inside_axes (d : draw) : Prop :=
  match d with
  | add_patch x y width height _ =>
      0 <= x /\ 0 <= width /\ x + width <= 1
      /\ 0 <= y /\ 0 <= height /\ y + height <= 1
  | text x y _ _ _ _ => 0 <= x <= 1 /\ 0 <= y <= 1
  | plot x1 x2 y1 y2 _ _ =>
      0 <= x1 <= 1 /\ 0 <= x2 <= 1 /\ 0 <= y1 <= 1 /\ 0 <= y2 <= 1
  end.

Lemma column_values :
  legend_left == 0.49 /\ legend_width == 0.10
  /\ desc_left == 0.59 /\ desc_width == 0.37
  /\ depth_left == 0.33 /\ depth_width == 0.08
  /\ level_left == 0.41 /\ level_width == 0.08
  /\ ruler_left == 0.96 /\ ruler_width == 0.04.
Proof. repeat split. Qed.

Lemma depth_to_y_range (page_num : Z) (d : Q) :
  inject_Z (page_top page_num) <= d <= inject_Z (page_bot page_num) ->
  bottom_line_y <= depth_to_y page_num d <= 1.
Proof.
  intros [H1 H2]. rewrite inject_page_bot in H2.
  rewrite depth_to_y_affine. unfold bottom_line_y.
  set (t := inject_Z (page_top page_num)) in *.
  assert (E : 1 - (1 - 0.025) * (d - t) / 10 == 1 - 0.0975 * (d - t))
    by field.
  rewrite E. split; lra.
Qed.

Lemma page_in_pages (log_depth : Q) (page_num : Z) :
  In page_num (pages log_depth) ->
  inject_Z (page_top page_num) < log_depth.
Proof.
  unfold pages. rewrite in_range. intros [H1 H2].
  assert (Hp : (page_num - 1 < last_borehole_page log_depth)%Z) by lia.
  unfold last_borehole_page in Hp.
  assert (Hq : inject_Z (page_num - 1) < log_depth / 10.0).
  { apply Qnot_le_lt. intro Hle.
    apply Qceiling_resp_le in Hle. rewrite Qceiling_Z in Hle. lia. }
  unfold page_top. rewrite inject_Z_mult. change (inject_Z 10) with 10.
  assert (E : log_depth == log_depth / 10.0 * 10) by field.
  rewrite E. lra.
Qed.

Lemma closing_line_inside_axes (log_depth : Q) (page_num : Z) (d : draw) :
  In page_num (pages log_depth) ->
  In d (closing_line log_depth page_num) -> inside_axes d.
Proof.
  intros Hp Hd. apply page_in_pages in Hp.
  pose proof column_values as (El & Ew & Edl & Edw & _).
  unfold closing_line in Hd.
  destruct (Qltb_spec (borehole_end_depth log_depth page_num)
              (inject_Z (page_top page_num + 10))) as [Hlt | Hge];
    in_cases Hd; subst d; cbn [inside_axes].
  - assert (Hr : bottom_line_y
                 <= depth_to_y page_num (borehole_end_depth log_depth page_num)
                 <= 1).
    { apply depth_to_y_range. rewrite page_bot_top in Hlt.
      unfold borehole_end_depth in *. rewrite page_bot_top in *.
      destruct (min_cases log_depth (inject_Z (page_bot page_num)))
        as [[_ E] | [_ E]]; rewrite E in *; lra. }
    unfold bottom_line_y in Hr. repeat split; lra.
  - unfold bottom_line_y. repeat split; lra.
Qed.

Lemma interval_inside_axes (data : DataFrame) (log_depth : Q) (page_num : Z)
    (j : nat) (seg : Seg.t) (d : draw) :
  Forall valid_row data ->
  Depth_Base_max data = Some log_depth ->
  In seg (intervals data page_num) ->
  In d (draw_interval log_depth page_num (j, seg)) -> inside_axes d.
Proof.
  intros Hv Hmax Hseg Hd.
  pose proof column_values
    as (El & Ew & Edl & Edw & Epl & Epw & Ell & Elw & _).
  destruct (segment_bounds _ _ _ Hv Hseg) as (row & _ & H1 & H2 & _ & H4).
  assert (Ht : bottom_line_y <= depth_to_y page_num (Seg.Depth_Top seg) <= 1)
    by (apply depth_to_y_range; lra).
  assert (Hb : bottom_line_y <= depth_to_y page_num (Seg.Depth_Base seg) <= 1)
    by (apply depth_to_y_range; lra).
  unfold bottom_line_y in Ht, Hb.
  destruct (draw_bar_of_segment _ _ _ _ Hv Hmax Hseg) as [Hlt Ebar].
  unfold draw_interval in Hd. rewrite Ebar in Hd.
  unfold draw_top_label, draw_base_label, draw_divider in Hd.
  destruct (show_top seg && Qltb 0 (Seg.Depth_Top seg));
    destruct (show_base seg); destruct (0 <? j)%nat;
    in_cases Hd; subst d; cbn [inside_axes]; unfold Qdiv;
    change (/ 2) with (1 # 2); repeat split; lra.
Qed.

Lemma main_marker_inside_axes (page_num marker : Z) (d : draw) :
  In marker (range (marker_start page_num) (marker_end page_num + 1)) ->
  In d (main_marker page_num marker) -> inside_axes d.
Proof.
  rewrite in_range. unfold marker_start, marker_end. intros Hm Hd.
  pose proof column_values as (_ & _ & _ & _ & _ & _ & _ & _ & Erl & Erw).
  set (k := (marker - (page_num - 1) * 10)%Z).
  assert (Hk : 0 <= inject_Z k <= 10).
  { split; [change 0 with (inject_Z 0) | change 10 with (inject_Z 10)];
      rewrite <- Zle_Qle; subst k; lia. }
  unfold main_marker, marker_start in Hd. fold k in Hd.
  unfold ruler_x, main_tick_length, bottom_line_y in Hd.
  assert (E : 1 - (1 - 0.025) * (inject_Z k / 10)
              == 1 - 0.0975 * inject_Z k) by field.
  in_cases Hd; subst d; cbn [inside_axes]; rewrite ?E; repeat split; lra.
Qed.

Lemma subtick_inside_axes (i sub : Z) :
  In i (range 0 10) -> In sub (range 1 10) -> inside_axes (subtick i sub).
Proof.
  rewrite !in_range. intros Hi Hs.
  pose proof column_values as (_ & _ & _ & _ & _ & _ & _ & _ & Erl & Erw).
  assert (Hqi : 0 <= inject_Z i <= 9).
  { split; [change 0 with (inject_Z 0) | change 9 with (inject_Z 9)];
      rewrite <- Zle_Qle; lia. }
  assert (Hqs : 1 <= inject_Z sub <= 9).
  { split; [change 1 with (inject_Z 1) | change 9 with (inject_Z 9)];
      rewrite <- Zle_Qle; lia. }
  unfold subtick, ruler_x, sub_tick_length, bottom_line_y.
  assert (E : 1 - (1 - 0.025) * ((inject_Z i + inject_Z sub / 10) / 10)
              == 1 - 0.0975 * inject_Z i - 0.00975 * inject_Z sub) by field.
  cbn [inside_axes]. rewrite ?E. repeat split; lra.
Qed.

Lemma column_lines_inside :
  Forall (fun x => 0 <= x <= 1) (removelast (tl log_col_x)).
Proof. repeat constructor; vm_compute; discriminate. Qed.

Lemma page_inside_axes (data : DataFrame) (log_depth : Q) (page_num : Z) :
  Forall valid_row data ->
  Depth_Base_max data = Some log_depth ->
  In page_num (pages log_depth) ->
  Forall inside_axes (draw_log_page data log_depth page_num).
Proof.
  intros Hv Hmax Hp. rewrite Forall_forall. intros d Hd.
  pose proof column_values as (_ & _ & _ & _ & _ & _ & _ & _ & Erl & Erw).
  unfold draw_log_page in Hd. in_cases Hd.
  - subst d. cbn [inside_axes]. repeat split; lra.
  - apply in_map_iff in Hd. destruct Hd as (x & <- & Hx).
    assert (Hx' : 0 <= x <= 1)
      by (revert x Hx; apply Forall_forall; exact column_lines_inside).
    cbn [inside_axes]. repeat split; lra.
  - subst d. cbn [inside_axes]. repeat split; lra.
  - apply in_flat_map in Hd. destruct Hd as ((j & seg) & Hjs & Hd).
    apply in_enumerate_from_inv in Hjs.
    now apply (interval_inside_axes data log_depth page_num j seg).
  - now apply (closing_line_inside_axes log_depth page_num).
  - subst d. unfold ruler_x. cbn [inside_axes]. repeat split; lra.
  - unfold main_markers in Hd. apply in_flat_map in Hd.
    destruct Hd as (m & Hm & Hd). now apply (main_marker_inside_axes page_num m).
  - unfold subticks in Hd. apply in_flat_map in Hd.
    destruct Hd as (i & Hi & Hd). apply in_map_iff in Hd.
    destruct Hd as (sub & <- & Hs). now apply subtick_inside_axes.
Qed.

(** For valid intervals, nothing is drawn outside the log axes: on every
    page written, every bar, label, divider, column line and ruler tick lies
    within the limits 0 and 1 of the axes. *)
Theorem pages_draw_inside_axes (data : DataFrame)
    (out : list (Z * list draw)) (page_num : Z) (calls : list draw) :
  Forall valid_row data ->
  plot_dummy_borehole_log data = Some out ->
  In (page_num, calls) out ->
  Forall inside_axes calls.
Proof.
  intros Hv Hout Hin. unfold plot_dummy_borehole_log in Hout.
  destruct (Depth_Base_max data) as [log_depth |] eqn:Hmax; [| discriminate].
  injection Hout as <-. apply in_map_iff in Hin.
  destruct Hin as (p & [= -> <-] & Hp).
  now apply page_inside_axes.
Qed.

Lemma dummy_pages_draw_inside_axes :
  Forall valid_row DUMMY_BOREHOLE_DATA
  /\ exists out calls,
       plot_dummy_borehole_log DUMMY_BOREHOLE_DATA = Some out
       /\ In (2%Z, calls) out
       /\ Forall inside_axes calls.
Proof.
  split; [exact dummy_data_valid |].
  eexists _, _. split; [reflexivity |].
  assert (Hin : In (2%Z, draw_log_page DUMMY_BOREHOLE_DATA 15.0 2)
                  (map (fun page_num =>
                          (page_num,
                           draw_log_page DUMMY_BOREHOLE_DATA 15.0 page_num))
                     (pages 15.0)))
    by (apply in_map_iff; exists 2%Z; split; [reflexivity |];
        right; left; reflexivity).
  split; [exact Hin |].
  exact (pages_draw_inside_axes DUMMY_BOREHOLE_DATA _ 2 _ dummy_data_valid
           eq_refl Hin).
Defined.

End LogFacts.

(** * The depth mapping as the code evaluates it *)

Module Binary64Facts.

Import Binary64.
#[local] Set Warnings "-inexact-float".
Open Scope float_scope.

(** C6, counterexample: on page 1 ([page_top = 0]) the code maps the bottom
    depth [0 + 10] to 0.025000000000000022, which is not [bottom_line_y];
    Python's [==] on the two numbers is [False]. *)
Lemma page_bottom_is_not_bottom_line_y :
  PrimFloat.eqb (depth_to_y 0 (0 + 10)) bottom_line_y = false
  /\ depth_to_y 0 (0 + 10) = 0.025000000000000022.
Proof. split; vm_compute; reflexivity. Qed.

(** The midpoint 0.5 of the depths 0 and 1 is mapped to
    0.95125000000000004, the mean of their images is 0.95124999999999993. *)
Lemma midpoint_is_not_mean :
  PrimFloat.eqb (depth_to_y 0 ((0 + 1) / 2))
    ((depth_to_y 0 0 + depth_to_y 0 1) / 2) = false.
Proof. vm_compute. reflexivity. Qed.

(** A finite number taken from itself leaves zero. *)
Lemma float_sub_diag (x : float) : is_finite x = true -> x - x = 0.
Proof.
  intro Hf. apply Prim2SF_inj. rewrite FloatAxioms.sub_spec.
  unfold is_finite, is_nan, is_infinity in Hf.
  rewrite !FloatAxioms.eqb_spec, FloatAxioms.abs_spec in Hf.
  destruct (Prim2SF x) as [s | s | | s m e] eqn:E.
  - now destruct s.
  - destruct s; discriminate.
  - discriminate.
  - unfold SF64sub, SFsub. rewrite Z.sub_diag. reflexivity.
Qed.

(** The top of a page is mapped to 1 without rounding error, whatever
    finite number it is. *)
Lemma page_top_is_one (page_top : float) :
  is_finite page_top = true -> depth_to_y page_top page_top = 1.
Proof.
  intro H. unfold depth_to_y. rewrite (float_sub_diag _ H). reflexivity.
Qed.

(** The code divides the depth below the page top by 10 and multiplies then;
    multiplying first rounds differently, as at 9 m on page 1. *)
Lemma affine_form_rounds_differently :
  PrimFloat.eqb (depth_to_y 0 9) (1 - (1 - bottom_line_y) * (9 - 0) / 10)
  = false.
Proof. vm_compute. reflexivity. Qed.

(** C6, as amended.  The top of a page is mapped to 1 exactly, also in the
    binary64 arithmetic of the code, whatever finite number the top is.  In
    exact arithmetic, for every page and all depths [d] and [d']: the depth
    one page span below the top is mapped to [bottom_line_y], the mapping is
    the affine function [1 - (1 - bottom_line_y) * (d - page_top) / 10], and
    the midpoint of two depths is mapped to the mean of their images. *)
Theorem depth_to_y_top_exactly_rest_in_exact_arithmetic (page_num : Z)
    (d d' : Q) :
  (forall page_top : float,
      is_finite page_top = true -> depth_to_y page_top page_top = 1)
  /\ (Log.depth_to_y page_num (inject_Z (Log.page_top page_num)) == 1)%Q
  /\ (Log.depth_to_y page_num (inject_Z (Log.page_top page_num) + 10)
      == Log.bottom_line_y)%Q
  /\ (Log.depth_to_y page_num d
      == 1 - (1 - Log.bottom_line_y)
             * (d - inject_Z (Log.page_top page_num)) / 10)%Q
  /\ (Log.depth_to_y page_num ((d + d') / 2)
      == (Log.depth_to_y page_num d + Log.depth_to_y page_num d') / 2)%Q.
Proof.
  split; [exact page_top_is_one |].
  exact (LogFacts.depth_to_y_in_exact_arithmetic page_num d d').
Qed.

(** The top of the third page, 20 m. *)
Lemma third_page_top_is_one :
  is_finite (of_int (Log.page_top 3)) = true
  /\ depth_to_y (of_int (Log.page_top 3)) (of_int (Log.page_top 3)) = 1.
Proof.
  assert (H : is_finite (of_int (Log.page_top 3)) = true) by reflexivity.
  split; [exact H | exact (page_top_is_one _ H)].
Qed.

Definition Z_range (lo hi : Z) : list Z :=
  map (fun k => (lo + Z.of_nat k)%Z) (seq 0 (Z.to_nat (hi + 1 - lo))).

Lemma in_Z_range (lo hi z : Z) : (lo <= z <= hi)%Z -> In z (Z_range lo hi).
Proof.
  intro H. unfold Z_range. apply in_map_iff. exists (Z.to_nat (z - lo)).
  split; [lia |]. apply in_seq. lia.
Qed.

Lemma main_markers_checked :
  forallb (fun page_num =>
     forallb (fun k =>
        PrimFloat.eqb
          (y_marker page_num (Log.marker_start page_num + k))
          (depth_to_y (of_int (Log.page_top page_num))
             (of_int (Log.marker_start page_num + k))))
       (Z_range 0 10))
    (Z_range 1 10000) = true.
Proof. vm_compute. reflexivity. Qed.

Lemma first_page_subticks_checked :
  forallb (fun i =>
     forallb (fun sub =>
        PrimFloat.eqb (y_subtick i sub)
          (depth_to_y (of_int (Log.page_top 1)) (subtick_depth 1 i sub)))
       (Z_range 1 9))
    (Z_range 0 9) = true.
Proof. vm_compute. reflexivity. Qed.

Lemma main_marker_is_depth_to_y (page_num k : Z) :
  (1 <= page_num <= 10000)%Z -> (0 <= k <= 10)%Z ->
  PrimFloat.eqb
    (y_marker page_num (Log.marker_start page_num + k))
    (depth_to_y (of_int (Log.page_top page_num))
       (of_int (Log.marker_start page_num + k))) = true.
Proof.
  intros Hp Hk. pose proof main_markers_checked as H.
  rewrite forallb_forall in H. specialize (H _ (in_Z_range _ _ _ Hp)).
  rewrite forallb_forall in H. exact (H _ (in_Z_range _ _ _ Hk)).
Qed.

Lemma first_page_subtick_is_depth_to_y (i sub : Z) :
  (0 <= i <= 9)%Z -> (1 <= sub <= 9)%Z ->
  PrimFloat.eqb (y_subtick i sub)
    (depth_to_y (of_int (Log.page_top 1)) (subtick_depth 1 i sub)) = true.
Proof.
  intros Hi Hs. pose proof first_page_subticks_checked as H.
  rewrite forallb_forall in H. specialize (H _ (in_Z_range _ _ _ Hi)).
  rewrite forallb_forall in H. exact (H _ (in_Z_range _ _ _ Hs)).
Qed.

(** C7, counterexample: the first subtick of page 2 is drawn at
    0.99024999999999996, the height of the offset 0.1 below the page top;
    [depth_to_y] maps its depth 10.1 to 0.99025000000000007, and Python's
    [==] on the two numbers is [False]. *)
Lemma subtick_is_not_depth_to_y_on_page_2 :
  PrimFloat.eqb (y_subtick 0 1)
    (depth_to_y (of_int (Log.page_top 2)) (subtick_depth 2 0 1)) = false
  /\ subtick_depth 2 0 1 = 10.1
  /\ y_subtick 0 1 = 0.99024999999999996
  /\ depth_to_y (of_int (Log.page_top 2)) 10.1 = 0.99025000000000007.
Proof. repeat split; vm_compute; reflexivity. Qed.

(** C7, as amended.  On every page the ruler has 11 main markers, one line
    and one label each, at the integer depths [marker_start + k] for
    [k = 0..10]; the label is that absolute depth; between two neighbouring
    markers there are 9 subticks, 90 in all, at the tenths
    [marker_start + i + sub/10], none with a label; in exact arithmetic the
    height of every marker and subtick is the image of its depth under the
    [depth_to_y] of the page.  In binary64 the main markers of the pages 1
    to 10000 and the subticks of page 1 are at exactly that image. *)
Theorem ruler_ticks_follow_depth_to_y_in_exact_arithmetic (page_num : Z) :
  (List.length (Log.main_markers page_num) = (2 * 11)%nat
   /\ (forall k : nat, (k <= 10)%nat ->
         let marker := (Log.marker_start page_num + Z.of_nat k)%Z in
         exists y : Q,
           (y == Log.depth_to_y page_num (inject_Z marker))%Q
           /\ nth_error (Log.main_markers page_num) (2 * k)
              = Some (Log.plot Log.ruler_x
                        (Log.ruler_x + Log.main_tick_length)%Q y y 1.1%Q 31)
           /\ nth_error (Log.main_markers page_num) (2 * k + 1)
              = Some (Log.text
                        (Log.ruler_x + Log.main_tick_length
                         + Log.ruler_width * 0.1)%Q y
                        (Log.Int marker) Log.va_center Log.ha_left 32))
   /\ List.length Log.subticks = (9 * 10)%nat
   /\ (forall d, In d Log.subticks -> LogFacts.is_plot d)
   /\ (forall i sub : nat, (i < 10)%nat -> (1 <= sub <= 9)%nat ->
         exists y : Q,
           (y == Log.depth_to_y page_num
                   (inject_Z (Log.marker_start page_num)
                    + inject_Z (Z.of_nat i)
                    + inject_Z (Z.of_nat sub) / 10))%Q
           /\ nth_error Log.subticks (9 * i + (sub - 1))
              = Some (Log.plot Log.ruler_x
                        (Log.ruler_x + Log.sub_tick_length)%Q y y 0.7%Q 30)))
  /\ ((1 <= page_num <= 10000)%Z ->
      forall k : Z, (0 <= k <= 10)%Z ->
        PrimFloat.eqb
          (y_marker page_num (Log.marker_start page_num + k))
          (depth_to_y (of_int (Log.page_top page_num))
             (of_int (Log.marker_start page_num + k))) = true)
  /\ (forall i sub : Z, (0 <= i <= 9)%Z -> (1 <= sub <= 9)%Z ->
        PrimFloat.eqb (y_subtick i sub)
          (depth_to_y (of_int (Log.page_top 1)) (subtick_depth 1 i sub))
        = true).
Proof.
  split; [exact (LogFacts.ruler_ticks_in_exact_arithmetic page_num) |].
  split.
  - intros Hp k Hk. now apply main_marker_is_depth_to_y.
  - intros i sub Hi Hs. now apply first_page_subtick_is_depth_to_y.
Qed.

(** *** Where the rounding of the code shows

    The statements made in exact arithmetic about bars, rectangles and
    dividers have these limits on binary64 numbers. *)

(** A stratum from 0 to 1e-17 m is valid, and both its ends are mapped to 1:
    the test [y_top > y_base_clipped] fails and it gets no bar. *)
Lemma thin_stratum_has_no_height :
  PrimFloat.ltb 0 1e-17 = true
  /\ depth_to_y 0 0 = 1 /\ depth_to_y 0 1e-17 = 1
  /\ PrimFloat.ltb (depth_to_y 0 1e-17) (depth_to_y 0 0) = false.
Proof. repeat split; vm_compute; reflexivity. Qed.

(** The rectangle of a layer from 0.3 to 0.9 has the height [0.9 - 0.3] and
    ends at [0.3 + (0.9 - 0.3)], which is 0.9000000000000001, above 0.9. *)
Lemma rectangle_edge_is_not_the_base :
  0.3 + (0.9 - 0.3) = 0.9000000000000001
  /\ PrimFloat.ltb 0.9 (0.3 + (0.9 - 0.3)) = true.
Proof. split; vm_compute; reflexivity. Qed.

(** On the single page the last row is drawn down to [bottom_line_y]; the
    image of its base, [1 - (1 - bottom_line_y) * (15.0 / 15.0)] for the
    dummy data, is 0.025000000000000022. *)
Lemma forced_bottom_is_not_the_image :
  1 - (1 - bottom_line_y) * (15.0 / 15.0) = 0.025000000000000022
  /\ PrimFloat.eqb (1 - (1 - bottom_line_y) * (15.0 / 15.0)) bottom_line_y
     = false.
Proof. split; vm_compute; reflexivity. Qed.

End Binary64Facts.

(** * Properties of the word wrapper *)

Module WrapFacts.

Import Wrap.
Open Scope Z_scope.

(** *** Lengths and joins *)

Lemma len_app {A : Type} (a b : list A) : len (a ++ b) = len a + len b.
Proof. unfold len. rewrite length_app. lia. Qed.

Lemma len_nonneg {A : Type} (a : list A) : 0 <= len a.
Proof. unfold len. lia. Qed.

Lemma len_cons {A : Type} (x : A) (a : list A) : len (x :: a) = 1 + len a.
Proof. unfold len. simpl List.length. lia. Qed.

Lemma join_cons (sep : str) (x y : str) (t : list str) :
  join sep (x :: y :: t) = x ++ sep ++ join sep (y :: t).
Proof. reflexivity. Qed.

Lemma join_snoc (sep : str) (l : list str) (w : str) :
  l <> [] -> join sep (l ++ [w]) = join sep l ++ sep ++ w.
Proof.
  induction l as [| x t IH]; [congruence |]. intros _.
  destruct t as [| y t]; [reflexivity |].
  change ((x :: y :: t) ++ [w]) with (x :: (y :: t) ++ [w]).
  change ((y :: t) ++ [w]) with (y :: t ++ [w]) at 1.
  rewrite join_cons. change (y :: t ++ [w]) with ((y :: t) ++ [w]).
  rewrite IH by discriminate. rewrite join_cons.
  now rewrite <- !app_assoc.
Qed.

Lemma join_app (sep : str) (l1 l2 : list str) :
  l1 <> [] -> l2 <> [] ->
  join sep (l1 ++ l2) = join sep l1 ++ sep ++ join sep l2.
Proof.
  intros H1 H2. induction l1 as [| x t IH]; [congruence |].
  destruct t as [| y t].
  - destruct l2 as [| z l2]; [congruence |]. reflexivity.
  - change ((x :: y :: t) ++ l2) with (x :: y :: (t ++ l2)).
    rewrite !join_cons. change (y :: t ++ l2) with ((y :: t) ++ l2).
    rewrite IH by discriminate. now rewrite <- !app_assoc.
Qed.

(** The length of a line: its words and one separator between neighbours. *)
Lemma line_length_snoc (l : list str) (w : str) :
  l <> [] -> line_length (l ++ [w]) = line_length l + 1 + len w.
Proof.
  intro H. unfold line_length. rewrite join_snoc by assumption.
  rewrite !len_app. change (len [space]) with 1. lia.
Qed.

Lemma line_length_single (w : str) : line_length [w] = len w.
Proof. reflexivity. Qed.

Lemma line_length_nonneg (l : list str) : 0 <= line_length l.
Proof. apply len_nonneg. Qed.

(** *** Words *)

Definition nonspace (w : str) : Prop :=
  forallb (fun c => negb (isspace c)) w = true.

Definition wordlike (w : str) : Prop := w <> [] /\ nonspace w.

Lemma nonspace_app (a b : str) :
  nonspace (a ++ b) <-> nonspace a /\ nonspace b.
Proof. unfold nonspace. rewrite forallb_app. apply andb_true_iff. Qed.

Lemma flush_word_wordlike (word : str) :
  nonspace word -> Forall wordlike (flush_word word).
Proof.
  intro H. destruct word; simpl; constructor; [| constructor].
  split; [discriminate | exact H].
Qed.

Lemma split_from_wordlike (text word : str) :
  nonspace word -> Forall wordlike (split_from word text).
Proof.
  revert word. induction text as [| c rest IH]; intros word Hw; simpl.
  - now apply flush_word_wordlike.
  - destruct (isspace c) eqn:Ec.
    + apply Forall_app. split; [now apply flush_word_wordlike |].
      now apply IH.
    + apply IH. apply nonspace_app. split; [exact Hw |].
      unfold nonspace. simpl. now rewrite Ec.
Qed.

Lemma split_wordlike (text : str) : Forall wordlike (split text).
Proof. now apply split_from_wordlike. Qed.

Lemma split_from_nonspace (w word rest : str) :
  nonspace w -> split_from word (w ++ rest) = split_from (word ++ w) rest.
Proof.
  revert word. induction w as [| c w IH]; intros word Hw; simpl.
  - now rewrite app_nil_r.
  - unfold nonspace in Hw. simpl in Hw. apply andb_true_iff in Hw.
    destruct Hw as [Hc Hw]. apply negb_true_iff in Hc. rewrite Hc.
    rewrite (IH (word ++ [c]) Hw). now rewrite <- app_assoc.
Qed.

Lemma isspace_space : isspace space = true.
Proof. reflexivity. Qed.

Lemma isspace_newline : isspace newline = true.
Proof. reflexivity. Qed.

(** Splitting the single-space join of words gives the words back. *)
Lemma split_join (ws : list str) :
  Forall wordlike ws -> split (join [space] ws) = ws.
Proof.
  unfold split. induction 1 as [| w ws [Hne Hns] Hws IH]; [reflexivity |].
  destruct ws as [| w' ws].
  - simpl join. rewrite <- (app_nil_r w) at 1.
    rewrite split_from_nonspace by assumption. simpl.
    destruct w; [congruence | reflexivity].
  - rewrite join_cons, split_from_nonspace by assumption.
    cbn [app split_from]. rewrite isspace_space, IH.
    destruct w; [congruence | reflexivity].
Qed.

(** *** Lines *)

Definition no_newline (l : str) : Prop :=
  forallb (fun c => negb (Ascii.eqb c newline)) l = true.

Lemma nonspace_no_newline (w : str) : nonspace w -> no_newline w.
Proof.
  unfold nonspace, no_newline. induction w as [| c w IH]; simpl; [auto |].
  intro H. apply andb_true_iff in H. destruct H as [Hc Hw].
  rewrite (IH Hw), andb_true_r.
  destruct (Ascii.eqb_spec c newline) as [-> |]; [| reflexivity].
  now rewrite isspace_newline in Hc.
Qed.

Lemma no_newline_app (a b : str) :
  no_newline (a ++ b) <-> no_newline a /\ no_newline b.
Proof. unfold no_newline. rewrite forallb_app. apply andb_true_iff. Qed.

Lemma join_space_no_newline (ws : list str) :
  Forall no_newline ws -> no_newline (join [space] ws).
Proof.
  induction 1 as [| w ws Hw Hws IH]; [reflexivity |].
  destruct ws as [| w' ws]; [exact Hw |].
  rewrite join_cons. apply no_newline_app. split; [exact Hw |].
  apply no_newline_app. split; [reflexivity | exact IH].
Qed.

Lemma split_on_from_no_newline (l piece rest : str) :
  no_newline l ->
  split_on_from newline piece (l ++ rest)
  = split_on_from newline (piece ++ l) rest.
Proof.
  revert piece. induction l as [| c l IH]; intros piece Hl; simpl.
  - now rewrite app_nil_r.
  - unfold no_newline in Hl. simpl in Hl. apply andb_true_iff in Hl.
    destruct Hl as [Hc Hl]. apply negb_true_iff in Hc. rewrite Hc.
    rewrite (IH (piece ++ [c]) Hl). now rewrite <- app_assoc.
Qed.

Lemma lines_of_no_newline (l : str) : no_newline l -> lines_of l = [l].
Proof.
  intro H. unfold lines_of, split_on.
  rewrite <- (app_nil_r l) at 1.
  now rewrite split_on_from_no_newline.
Qed.

(** The lines of a newline join of lines are those lines. *)
Lemma lines_of_join (ls : list str) :
  ls <> [] -> Forall no_newline ls -> lines_of (join [newline] ls) = ls.
Proof.
  intros Hne Hls. unfold lines_of, split_on.
  induction Hls as [| l ls Hl Hls IH]; [congruence |].
  destruct ls as [| l' ls].
  - simpl join. now apply lines_of_no_newline.
  - rewrite join_cons, split_on_from_no_newline by assumption.
    cbn [app split_on_from]. rewrite Ascii.eqb_refl.
    now rewrite IH by discriminate.
Qed.

Lemma split_on_from_len (sep : ascii) (text piece l : str) :
  In l (split_on_from sep piece text) -> len l <= len piece + len text.
Proof.
  revert piece. induction text as [| c rest IH]; intros piece; simpl.
  - intros [<- | []]. unfold len. simpl. lia.
  - rewrite len_cons. destruct (Ascii.eqb c sep).
    + intros [<- | H].
      * pose proof (len_nonneg rest). lia.
      * specialize (IH [] H). change (len (@nil ascii)) with 0 in IH.
        pose proof (len_nonneg piece). lia.
    + intro H. specialize (IH _ H). rewrite len_app in IH.
      change (len [c]) with 1 in IH. lia.
Qed.

Lemma lines_of_len (text l : str) : In l (lines_of text) -> len l <= len text.
Proof.
  intro H. apply split_on_from_len in H.
  change (len (@nil ascii)) with 0 in H. lia.
Qed.

(** *** The loop, with its lines kept as groups of words *)

Record gstate : Type := mk_gstate
  { groups : list (list str);
    g_line : list str;
    g_length : Z }.

Definition gflush (gs : list (list str)) (cur : list str) : list (list str) :=
  match cur with
  | [] => gs
  | _ :: _ => gs ++ [cur]
  end.

Definition gstep (max_chars : Z) (g : gstate) (word : str) : gstate :=
  if g_length g + len word + 1 <=? max_chars then
    mk_gstate (groups g) (g_line g ++ [word]) (g_length g + (len word + 1))
  else
    mk_gstate (gflush (groups g) (g_line g)) [word] (len word).

Definition wrap_groups (words : list str) (max_chars : Z) : list (list str) :=
  let g := fold_left (gstep max_chars) words (mk_gstate [] [] 0) in
  gflush (groups g) (g_line g).

Definition erase (g : gstate) : state :=
  mk_state (map (join [space]) (groups g)) (g_line g) (g_length g).

Lemma flush_gflush (gs : list (list str)) (cur : list str) :
  flush (map (join [space]) gs) cur = map (join [space]) (gflush gs cur).
Proof. destruct cur; simpl; [reflexivity |]. now rewrite map_app. Qed.

Lemma step_erase (max_chars : Z) (g : gstate) (word : str) :
  step max_chars (erase g) word = erase (gstep max_chars g word).
Proof.
  unfold step, gstep, erase. cbn [lines current_line current_length].
  destruct (_ <=? _); cbn [groups g_line g_length]; [reflexivity |].
  now rewrite flush_gflush.
Qed.

Lemma fold_step_erase (max_chars : Z) (words : list str) (g : gstate) :
  fold_left (step max_chars) words (erase g)
  = erase (fold_left (gstep max_chars) words g).
Proof.
  revert g. induction words as [| w ws IH]; intro g; simpl; [reflexivity |].
  now rewrite step_erase, IH.
Qed.

Lemma wrap_lines_groups (words : list str) (max_chars : Z) :
  wrap_lines words max_chars
  = map (join [space]) (wrap_groups words max_chars).
Proof.
  unfold wrap_lines, wrap_groups.
  change (mk_state [] [] 0) with (erase (mk_gstate [] [] 0)).
  rewrite fold_step_erase. cbn [erase lines current_line].
  apply flush_gflush.
Qed.

(** No word is lost, repeated or moved. *)
Lemma concat_gflush (gs : list (list str)) (cur : list str) :
  List.concat (gflush gs cur) = List.concat gs ++ cur.
Proof.
  destruct cur; simpl; [now rewrite app_nil_r |].
  rewrite concat_app. simpl. now rewrite app_nil_r.
Qed.

Lemma fold_gstep_words (max_chars : Z) (words : list str) (g : gstate) :
  let g' := fold_left (gstep max_chars) words g in
  List.concat (groups g') ++ g_line g' = List.concat (groups g) ++ g_line g ++ words.
Proof.
  revert g. induction words as [| w ws IH]; intro g; simpl.
  - now rewrite app_nil_r.
  - rewrite IH. unfold gstep. destruct (_ <=? _); cbn [groups g_line].
    + now rewrite <- app_assoc.
    + rewrite concat_gflush. now rewrite <- app_assoc.
Qed.

Lemma concat_wrap_groups (words : list str) (max_chars : Z) :
  List.concat (wrap_groups words max_chars) = words.
Proof.
  unfold wrap_groups. rewrite concat_gflush.
  now rewrite (fold_gstep_words max_chars words (mk_gstate [] [] 0)).
Qed.

(** The invariant of the loop: the counter is never below the length of the
    current line, a line of two or more words has a counter within the
    budget, and so had every line already flushed. *)
Definition fits (max_chars : Z) (line : list str) : Prop :=
  line <> [] /\ ((2 <= List.length line)%nat -> line_length line <= max_chars).

Record invariant (max_chars : Z) (g : gstate) : Prop := mk_invariant
  { inv_empty : g_line g = [] -> g_length g = 0;
    inv_length : g_line g <> [] -> line_length (g_line g) <= g_length g;
    inv_budget : (2 <= List.length (g_line g))%nat -> g_length g <= max_chars;
    inv_groups : Forall (fits max_chars) (groups g) }.

Lemma gflush_fits (max_chars : Z) (g : gstate) :
  invariant max_chars g ->
  Forall (fits max_chars) (gflush (groups g) (g_line g)).
Proof.
  intros [He Hl Hb Hg]. unfold gflush.
  destruct (g_line g) as [| w l] eqn:E; [exact Hg |].
  apply Forall_app. split; [exact Hg |]. constructor; [| constructor].
  split; [discriminate |]. intro H2.
  specialize (Hl ltac:(discriminate)). specialize (Hb H2). lia.
Qed.

Lemma gstep_invariant (max_chars : Z) (g : gstate) (word : str) :
  invariant max_chars g -> invariant max_chars (gstep max_chars g word).
Proof.
  intro Hinv. pose proof (gflush_fits _ _ Hinv) as Hflush.
  destruct Hinv as [He Hl Hb Hg]. unfold gstep.
  destruct (Z.leb_spec (g_length g + len word + 1) max_chars) as [Hfit | Hno];
    constructor; cbn [groups g_line g_length].
  - intro H. now destruct (g_line g).
  - intros _. destruct (g_line g) as [| w l] eqn:E.
    + rewrite (He eq_refl). simpl app. rewrite line_length_single. lia.
    + rewrite line_length_snoc by discriminate.
      specialize (Hl ltac:(discriminate)). lia.
  - intros _. lia.
  - exact Hg.
  - discriminate.
  - intros _. rewrite line_length_single. lia.
  - simpl. lia.
  - exact Hflush.
Qed.

Lemma fold_gstep_invariant (max_chars : Z) (words : list str) (g : gstate) :
  invariant max_chars g ->
  invariant max_chars (fold_left (gstep max_chars) words g).
Proof.
  revert g. induction words as [| w ws IH]; intros g H; simpl; [exact H |].
  apply IH. now apply gstep_invariant.
Qed.

Lemma wrap_groups_fit (words : list str) (max_chars : Z) :
  Forall (fits max_chars) (wrap_groups words max_chars).
Proof.
  unfold wrap_groups. apply gflush_fits. apply fold_gstep_invariant.
  constructor; cbn [groups g_line g_length];
    [reflexivity | congruence | simpl; lia | constructor].
Qed.

Lemma in_concat_wordlike (gs : list (list str)) (g : list str) :
  Forall wordlike (List.concat gs) -> In g gs -> Forall wordlike g.
Proof.
  intros H Hin. rewrite Forall_forall in *. intros w Hw.
  apply H. apply in_concat. eauto.
Qed.

Lemma wordlike_no_newline (w : str) : wordlike w -> no_newline w.
Proof. intros [_ H]. now apply nonspace_no_newline. Qed.

Lemma joined_group_no_newline (g : list str) :
  Forall wordlike g -> no_newline (join [space] g).
Proof.
  intro H. apply join_space_no_newline.
  eapply Forall_impl; [| exact H]. apply wordlike_no_newline.
Qed.

(** The lines of a wrapped long text are the joined groups. *)
Lemma lines_of_wrapped (words : list str) (max_chars : Z) :
  words <> [] ->
  Forall wordlike words ->
  lines_of (join [newline] (wrap_lines words max_chars))
  = map (join [space]) (wrap_groups words max_chars).
Proof.
  intros Hne Hw. rewrite wrap_lines_groups.
  pose proof (concat_wrap_groups words max_chars) as Hc.
  apply lines_of_join.
  - destruct (wrap_groups words max_chars); [simpl in Hc; congruence |].
    discriminate.
  - rewrite Forall_map, Forall_forall. intros g Hg.
    apply joined_group_no_newline.
    apply (in_concat_wordlike (wrap_groups words max_chars)); [| exact Hg].
    now rewrite Hc.
Qed.

Lemma wrap_lines_nil (max_chars : Z) : wrap_lines [] max_chars = [].
Proof. reflexivity. Qed.

(** C10.  For every text and every [max_chars > 0], a line of the result
    that holds two or more words is at most [max_chars] long, and a line
    longer than [max_chars] is one single word. *)
Theorem multiword_lines_fit_budget (text : str) (max_chars : Z) (line : str) :
  0 < max_chars ->
  In line (lines_of (_wrap_text text max_chars)) ->
  ((2 <= List.length (split line))%nat -> len line <= max_chars)
  /\ (max_chars < len line -> split line = [line]).
Proof.
  intros Hmax Hin. unfold _wrap_text in Hin.
  destruct (Z.leb_spec (len text) max_chars) as [Hshort | Hlong].
  - apply lines_of_len in Hin. split; intros; lia.
  - pose proof (split_wordlike text) as Hw.
    destruct (split text) as [| w0 ws] eqn:Es.
    + rewrite wrap_lines_nil in Hin. destruct Hin as [<- | []].
      change (len (@nil ascii)) with 0. split; intros; [| lia].
      simpl in *. lia.
    + rewrite lines_of_wrapped in Hin by (assumption || discriminate).
      apply in_map_iff in Hin. destruct Hin as (g & <- & Hg).
      pose proof (wrap_groups_fit (w0 :: ws) max_chars) as Hfit.
      rewrite Forall_forall in Hfit. destruct (Hfit g Hg) as [Hne Hb].
      assert (Hgw : Forall wordlike g).
      { apply (in_concat_wordlike (wrap_groups (w0 :: ws) max_chars));
          [| exact Hg]. now rewrite concat_wrap_groups. }
      rewrite (split_join g Hgw). split.
      * exact Hb.
      * intro Hover. destruct g as [| w [| w' g]]; [congruence | reflexivity |].
        specialize (Hb ltac:(simpl; lia)). unfold line_length in Hb. lia.
Qed.

(** The first description of the dummy data, wrapped to 12 characters, has
    the two-word line "Dark brown". *)
Lemma dark_brown_fits_budget :
  let text := lit "Dark brown silty TOPSOIL with roots" in
  0 < 12
  /\ In (lit "Dark brown") (lines_of (_wrap_text text 12))
  /\ ((2 <= List.length (split (lit "Dark brown")))%nat ->
      len (lit "Dark brown") <= 12)
  /\ (12 < len (lit "Dark brown") ->
      split (lit "Dark brown") = [lit "Dark brown"]).
Proof.
  assert (H0 : 0 < 12) by lia.
  assert (Hin : In (lit "Dark brown")
                  (lines_of (_wrap_text
                     (lit "Dark brown silty TOPSOIL with roots") 12)))
    by (vm_compute; left; reflexivity).
  split; [exact H0 |]. split; [exact Hin |].
  exact (multiword_lines_fit_budget _ 12 _ H0 Hin).
Defined.

(** *** Short texts and long words *)

Lemma wrap_short_text_unchanged (text : str) (max_chars : Z) :
  len text <= max_chars -> _wrap_text text max_chars = text.
Proof.
  intro H. unfold _wrap_text.
  destruct (Z.leb_spec (len text) max_chars); [reflexivity | lia].
Qed.

Lemma wrap_long_text (text : str) (max_chars : Z) :
  max_chars < len text ->
  _wrap_text text max_chars
  = join [newline] (wrap_lines (split text) max_chars).
Proof.
  intro H. unfold _wrap_text.
  destruct (Z.leb_spec (len text) max_chars); [lia | reflexivity].
Qed.

Lemma flush_word_len (word w : str) :
  In w (flush_word word) -> len w <= len word.
Proof. destruct word; simpl; [tauto |]. intros [<- | []]. lia. Qed.

Lemma split_from_len (text word w : str) :
  In w (split_from word text) -> len w <= len word + len text.
Proof.
  revert word. induction text as [| c rest IH]; intros word; simpl.
  - intro H. apply flush_word_len in H. change (len (@nil ascii)) with 0. lia.
  - rewrite len_cons. destruct (isspace c).
    + intro H. apply in_app_or in H. destruct H as [H | H].
      * apply flush_word_len in H. pose proof (len_nonneg rest). lia.
      * apply IH in H. change (len (@nil ascii)) with 0 in H.
        pose proof (len_nonneg word). lia.
    + intro H. apply IH in H. rewrite len_app in H.
      change (len [c]) with 1 in H. lia.
Qed.

Lemma word_len_le_line_length (g : list str) (w : str) :
  In w g -> len w <= line_length g.
Proof.
  unfold line_length. induction g as [| x t IH]; [intros [] |].
  destruct t as [| y t].
  - intros [<- | []]. simpl. lia.
  - rewrite join_cons, !len_app. intros [<- | H].
    + pose proof (len_nonneg (join [space] (y :: t))).
      pose proof (len_nonneg [space]). lia.
    + specialize (IH H). pose proof (len_nonneg x).
      pose proof (len_nonneg [space]). lia.
Qed.

(** A word longer than the budget is a line of the result, alone and whole. *)
Lemma long_word_alone (text : str) (max_chars : Z) (w : str) :
  In w (split text) ->
  max_chars < len w ->
  In w (lines_of (_wrap_text text max_chars)).
Proof.
  intros Hw Hlong.
  pose proof (split_from_len text [] w Hw) as Hlen.
  change (len (@nil ascii)) with 0 in Hlen.
  rewrite wrap_long_text by lia.
  rewrite lines_of_wrapped;
    [| intro E; rewrite E in Hw; destruct Hw | apply split_wordlike].
  pose proof (concat_wrap_groups (split text) max_chars) as Hc.
  rewrite <- Hc in Hw. apply in_concat in Hw. destruct Hw as (g & Hg & Hwg).
  pose proof (wrap_groups_fit (split text) max_chars) as Hfit.
  rewrite Forall_forall in Hfit. destruct (Hfit g Hg) as [_ Hb].
  pose proof (word_len_le_line_length g w Hwg) as Hle.
  apply in_map_iff. exists g. split; [| exact Hg].
  destruct g as [| x [| y g]].
  - destruct Hwg.
  - destruct Hwg as [<- | []]. reflexivity.
  - specialize (Hb ltac:(simpl; lia)). lia.
Qed.

(** *** Wrapping a wrapped text again *)

Lemma line_length_prefix (l1 l2 : list str) :
  line_length l1 <= line_length (l1 ++ l2).
Proof.
  destruct l1 as [| x l1]; [apply line_length_nonneg |].
  destruct l2 as [| y l2]; [rewrite app_nil_r; lia |].
  unfold line_length. rewrite join_app by discriminate.
  rewrite !len_app. pose proof (len_nonneg (join [space] (y :: l2))).
  pose proof (len_nonneg [space]). lia.
Qed.

(** When all words and the spaces between them leave one character of the
    budget free, the loop never flushes. *)
Lemma fold_gstep_all_fit (max_chars : Z) (rest cur : list str) (cl : Z) :
  (cur = [] -> cl = 0) ->
  (cur <> [] -> cl = line_length cur + 1) ->
  line_length (cur ++ rest) + 1 <= max_chars ->
  exists cl',
    fold_left (gstep max_chars) rest (mk_gstate [] cur cl)
    = mk_gstate [] (cur ++ rest) cl'.
Proof.
  revert cur cl. induction rest as [| w rest IH]; intros cur cl He Hn Hfit.
  - exists cl. simpl. now rewrite app_nil_r.
  - cbn [fold_left]. unfold gstep at 2. cbn [groups g_line g_length].
    pose proof (line_length_prefix (cur ++ [w]) rest) as Hp.
    rewrite <- app_assoc in Hp. cbn [app] in Hp.
    assert (Hcl : cl + len w + 1 = line_length (cur ++ [w]) + 1).
    { destruct cur as [| x cur].
      - rewrite (He eq_refl). simpl app. rewrite line_length_single. lia.
      - rewrite (Hn ltac:(discriminate)), line_length_snoc by discriminate.
        lia. }
    destruct (Z.leb_spec (cl + len w + 1) max_chars) as [_ | Hno]; [| lia].
    destruct (IH (cur ++ [w]) (cl + (len w + 1))) as (cl' & E).
    + intro H. now destruct cur.
    + intros _. lia.
    + rewrite <- app_assoc. exact Hfit.
    + exists cl'. rewrite E. now rewrite <- app_assoc.
Qed.

Lemma wrap_groups_all_fit (words : list str) (max_chars : Z) :
  words <> [] ->
  line_length words + 1 <= max_chars ->
  wrap_groups words max_chars = [words].
Proof.
  intros Hne Hfit. unfold wrap_groups.
  destruct (fold_gstep_all_fit max_chars words [] 0) as (cl' & E);
    [reflexivity | congruence | exact Hfit |].
  rewrite E. cbn [groups g_line app]. destruct words; [congruence | reflexivity].
Qed.

Lemma join_concat (gs : list (list str)) :
  Forall (fun g => g <> []) gs ->
  join [space] (map (join [space]) gs) = join [space] (List.concat gs).
Proof.
  induction 1 as [| g gs Hg Hgs IH]; [reflexivity |].
  destruct gs as [| g' gs].
  - simpl. now rewrite app_nil_r.
  - cbn [map]. rewrite join_cons. cbn [map] in IH. rewrite IH.
    cbn [List.concat]. rewrite <- join_app; [reflexivity | exact Hg |].
    inversion Hgs as [| ? ? Hg' _]; subst.
    cbn [List.concat]. destruct g'; [congruence | discriminate].
Qed.

Lemma wrap_text_nil (max_chars : Z) : _wrap_text [] max_chars = [].
Proof. unfold _wrap_text. now destruct (_ <=? _). Qed.

(** The rejoined lines of a wrapped long text are its words, one space
    apart. *)
Lemma rejoin_wrapped (text : str) (max_chars : Z) :
  max_chars < len text ->
  rejoin (_wrap_text text max_chars) = join [space] (split text).
Proof.
  intro Hlong. rewrite wrap_long_text by assumption. unfold rejoin.
  pose proof (split_wordlike text) as Hw.
  destruct (split text) as [| w0 ws] eqn:Es; [reflexivity |].
  rewrite lines_of_wrapped by (assumption || discriminate).
  rewrite join_concat.
  - now rewrite concat_wrap_groups.
  - pose proof (wrap_groups_fit (w0 :: ws) max_chars) as Hfit.
    eapply Forall_impl; [| exact Hfit]. now intros g [Hne _].
Qed.

(** A single word is one line, whatever the budget. *)
Lemma wrap_groups_single (w : str) (max_chars : Z) :
  wrap_groups [w] max_chars = [[w]].
Proof.
  unfold wrap_groups. cbn [fold_left]. unfold gstep.
  cbn [groups g_line g_length].
  destruct (0 + len w + 1 <=? max_chars); reflexivity.
Qed.

(** C9, as amended.  Wrapping the rejoined lines of a result again gives the
    same lines, for every text that is at most [max_chars] long and holds no
    line break, and for every longer text whose words, joined by single
    spaces, are not exactly [max_chars] long or are a single word. *)
Theorem rewrapping_keeps_lines (text : str) (max_chars : Z) :
  (len text <= max_chars /\ no_newline text)
  \/ (max_chars < len text
      /\ (len (join [space] (split text)) <> max_chars
          \/ (List.length (split text) <= 1)%nat)) ->
  lines_of (_wrap_text (rejoin (_wrap_text text max_chars)) max_chars)
  = lines_of (_wrap_text text max_chars).
Proof.
  intros [[Hshort Hnl] | [Hlong Hne]].
  - rewrite (wrap_short_text_unchanged _ _ Hshort).
    unfold rejoin. rewrite (lines_of_no_newline _ Hnl). cbn [join].
    rewrite (wrap_short_text_unchanged _ _ Hshort).
    now apply lines_of_no_newline.
  - rewrite (rejoin_wrapped _ _ Hlong).
    pose proof (split_wordlike text) as Hw.
    destruct (split text) as [| w0 ws] eqn:Es.
    + cbn [join]. rewrite wrap_text_nil, wrap_long_text by assumption.
      now rewrite Es.
    + set (words := w0 :: ws) in *.
      rewrite (wrap_long_text text) by assumption. rewrite Es.
      destruct (Z.leb_spec (len (join [space] words)) max_chars)
        as [Hfit | Hover].
      * rewrite wrap_short_text_unchanged by assumption.
        rewrite lines_of_wrapped by (assumption || discriminate).
        destruct Hne as [Hne | Hone].
        -- rewrite wrap_groups_all_fit;
             [| discriminate | unfold line_length; lia].
           cbn [map]. apply lines_of_no_newline.
           now apply joined_group_no_newline.
        -- subst words. destruct ws as [| w1 ws]; [| simpl in Hone; lia].
           rewrite wrap_groups_single. cbn [map].
           apply lines_of_no_newline. now apply joined_group_no_newline.
      * rewrite wrap_long_text by assumption.
        now rewrite (split_join words Hw).
Qed.

(** A word of exactly the budget behind a space: the text is longer than the
    budget, its one word fills the budget, and a second wrap keeps the
    line. *)
Lemma rewrapping_keeps_lines_of_a_full_word :
  let text := lit " abcde" in
  (5 < len text
   /\ (len (join [space] (split text)) <> 5
       \/ (List.length (split text) <= 1)%nat))
  /\ lines_of (_wrap_text (rejoin (_wrap_text text 5)) 5)
     = lines_of (_wrap_text text 5).
Proof.
  assert (H : 5 < len (lit " abcde")
              /\ (len (join [space] (split (lit " abcde"))) <> 5
                  \/ (List.length (split (lit " abcde")) <= 1)%nat))
    by (split; [reflexivity | right; vm_compute; lia]).
  split; [exact H |].
  exact (rewrapping_keeps_lines _ 5 (or_intror H)).
Defined.

(** A description of the dummy data, with a doubled space, wrapped to 12
    characters and wrapped again. *)
Lemma rewrapping_keeps_the_lines_of_a_description :
  let text := lit "Dark brown  silty TOPSOIL with roots" in
  lines_of (_wrap_text text 12)
  = [ lit "Dark brown"; lit "silty"; lit "TOPSOIL with"; lit "roots" ]
  /\ lines_of (_wrap_text (rejoin (_wrap_text text 12)) 12)
     = lines_of (_wrap_text text 12).
Proof. split; reflexivity. Qed.

(** C9, counterexample: a short text that holds a line break comes back
    unchanged, as two lines; rejoined and wrapped again it is one line. *)
Lemma rewrapping_merges_lines_of_short_text :
  let text := lit "a" ++ [newline] ++ lit "b" in
  0 < 40
  /\ lines_of (_wrap_text text 40) = [lit "a"; lit "b"]
  /\ lines_of (_wrap_text (rejoin (_wrap_text text 40)) 40) = [lit "a b"]
  /\ lines_of (_wrap_text (rejoin (_wrap_text text 40)) 40)
     <> lines_of (_wrap_text text 40).
Proof.
  repeat split; try reflexivity. discriminate.
Qed.

(** *** The counter of the loop and the length of the current line *)

(** A word that starts a line after a flush is counted with its length. *)
Lemma counter_after_flush (max_chars : Z) (st : state) (word : str) :
  max_chars < current_length st + len word + 1 ->
  current_length (step max_chars st word)
  = line_length (current_line (step max_chars st word)).
Proof.
  intro H. unfold step.
  destruct (Z.leb_spec (current_length st + len word + 1) max_chars);
    [lia | reflexivity].
Qed.

(** The first word of the text, when it is appended to the empty line, is
    counted with its length and one more. *)
Lemma counter_of_first_word (max_chars : Z) (word : str) :
  len word + 1 <= max_chars ->
  current_length (step max_chars (mk_state [] [] 0) word)
  = line_length (current_line (step max_chars (mk_state [] [] 0) word)) + 1.
Proof.
  intro H. unfold step. cbn [current_length current_line lines].
  destruct (Z.leb_spec (0 + len word + 1) max_chars); [| lia].
  cbn [current_length current_line app]. rewrite line_length_single. lia.
Qed.

(** C8, the code at the failing input.  On "ab cd x" with a budget of 5 the
    line "ab" has 2 characters and 2 + len("cd") + 1 = 5 <= 5, so the greedy
    rule keeps "cd" on it and gives "ab cd", "x"; the loop has counted 3 for
    "ab", one more than its length, and starts a new line: "ab", "cd x".  On
    the second line the counter is the length of the line (4 for "cd x"). *)
Theorem first_line_breaks_one_character_early :
  lines_of (_wrap_text (lit "ab cd x") 5) = [lit "ab"; lit "cd x"]
  /\ greedy_wrap (lit "ab cd x") 5 = [lit "ab cd"; lit "x"]
  /\ current_length (step 5 (mk_state [] [] 0) (lit "ab")) = 3
  /\ line_length (current_line (step 5 (mk_state [] [] 0) (lit "ab"))) = 2
  /\ current_length (step 5 (mk_state [lit "ab"] [lit "cd"] 2) (lit "x")) = 4
  /\ line_length
       (current_line (step 5 (mk_state [lit "ab"] [lit "cd"] 2) (lit "x"))) = 4.
Proof. repeat split. Qed.

(** The same miscount seen through a second wrap: "ab  cd" (two spaces) with
    a budget of 5 is wrapped to two lines, whose rejoined text "ab cd" fits
    the budget and is returned as one line. *)
Lemma first_line_miscount_breaks_rewrapping :
  lines_of (_wrap_text (lit "ab  cd") 5) = [lit "ab"; lit "cd"]
  /\ rejoin (_wrap_text (lit "ab  cd") 5) = lit "ab cd"
  /\ lines_of (_wrap_text (rejoin (_wrap_text (lit "ab  cd") 5)) 5)
     = [lit "ab cd"].
Proof. repeat split. Qed.

(** *** What wrapping keeps of a text *)

Lemma split_from_sep (a b word : str) (c : ascii) :
  isspace c = true ->
  split_from word (a ++ c :: b) = split_from word a ++ split b.
Proof.
  intro Hc. revert word. induction a as [| x a IH]; intro word.
  - cbn [app split_from]. now rewrite Hc.
  - cbn [app split_from]. destruct (isspace x).
    + now rewrite IH, app_assoc.
    + apply IH.
Qed.

Lemma split_join_lines (c : ascii) (ls : list str) :
  isspace c = true ->
  split (join [c] ls) = List.concat (map split ls).
Proof.
  intro Hc. induction ls as [| l ls IH]; [reflexivity |].
  destruct ls as [| l' ls].
  - simpl. now rewrite app_nil_r.
  - rewrite join_cons. cbn [app]. unfold split at 1.
    rewrite split_from_sep by exact Hc. rewrite IH. reflexivity.
Qed.

Lemma split_joined_groups (gs : list (list str)) :
  Forall wordlike (List.concat gs) ->
  List.concat (map split (map (join [space]) gs)) = List.concat gs.
Proof.
  induction gs as [| g gs IH]; [reflexivity |].
  cbn [List.concat map]. intro H. apply Forall_app in H. destruct H as [Hg Hgs].
  now rewrite split_join, IH.
Qed.

Lemma split_wrap_text (text : str) (max_chars : Z) :
  split (_wrap_text text max_chars) = split text.
Proof.
  unfold _wrap_text. destruct (len text <=? max_chars); [reflexivity |].
  rewrite wrap_lines_groups.
  rewrite split_join_lines by exact isspace_newline.
  rewrite split_joined_groups; rewrite concat_wrap_groups;
    [reflexivity | apply split_wordlike].
Qed.

(** [_wrap_text] changes the white space of a text and nothing else: the
    result has the words of the text, all of them, whole and in their
    order. *)
Theorem wrapping_keeps_words (text : str) (max_chars : Z) :
  split (_wrap_text text max_chars) = split text.
Proof. exact (split_wrap_text text max_chars). Qed.

Lemma wrapped_line_fits (text : str) (max_chars : Z) (line : str) :
  In line (lines_of (_wrap_text text max_chars)) ->
  (2 <= List.length (split line))%nat ->
  len line <= max_chars.
Proof.
  intros Hin H2. unfold _wrap_text in Hin.
  destruct (Z.leb_spec (len text) max_chars) as [Hshort | Hlong].
  - apply lines_of_len in Hin. lia.
  - pose proof (split_wordlike text) as Hw.
    destruct (split text) as [| w0 ws] eqn:Es.
    + rewrite wrap_lines_nil in Hin. destruct Hin as [<- | []].
      simpl in H2. lia.
    + rewrite lines_of_wrapped in Hin by (assumption || discriminate).
      apply in_map_iff in Hin. destruct Hin as (g & <- & Hg).
      pose proof (wrap_groups_fit (w0 :: ws) max_chars) as Hfit.
      rewrite Forall_forall in Hfit. destruct (Hfit g Hg) as [Hne Hb].
      assert (Hgw : Forall wordlike g).
      { apply (in_concat_wordlike (wrap_groups (w0 :: ws) max_chars));
          [| exact Hg]. now rewrite concat_wrap_groups. }
      rewrite (split_join g Hgw) in H2. exact (Hb H2).
Qed.

Lemma len_join_sep (c d : ascii) (ls : list str) :
  len (join [c] ls) = len (join [d] ls).
Proof.
  induction ls as [| l ls IH]; [reflexivity |].
  destruct ls as [| l' ls]; [reflexivity |].
  rewrite !join_cons, !len_app, IH. reflexivity.
Qed.

Lemma len_join_split_from (text word : str) :
  len (join [space] (split_from word text)) <= len word + len text.
Proof.
  revert word. induction text as [| c rest IH]; intro word.
  - cbn [split_from]. change (len (@nil ascii)) with 0.
    destruct word; unfold len; simpl; lia.
  - cbn [split_from]. rewrite len_cons. destruct (isspace c).
    + specialize (IH []). change (len (@nil ascii)) with 0 in IH.
      destruct word as [| x word]; cbn [flush_word app];
        [change (len (@nil ascii)) with 0; lia |].
      destruct (split_from [] rest) as [| w ws] eqn:E.
      * cbn [join]. pose proof (len_nonneg rest). lia.
      * rewrite join_cons, !len_app. change (len [space]) with 1. lia.
    + specialize (IH (word ++ [c])). rewrite len_app in IH.
      change (len [c]) with 1 in IH. lia.
Qed.

(** The result is never longer than the text; a text over the budget comes
    back with the length of its words joined by single spaces. *)
Theorem wrapping_never_lengthens (text : str) (max_chars : Z) :
  len (_wrap_text text max_chars) <= len text
  /\ (max_chars < len text ->
      len (_wrap_text text max_chars) = len (join [space] (split text))).
Proof.
  assert (Hlong : max_chars < len text ->
            len (_wrap_text text max_chars) = len (join [space] (split text))).
  { intro H. rewrite wrap_long_text by exact H.
    rewrite wrap_lines_groups, (len_join_sep newline space).
    rewrite join_concat.
    - now rewrite concat_wrap_groups.
    - eapply Forall_impl; [| apply wrap_groups_fit]. now intros g [Hne _]. }
  split; [| exact Hlong].
  destruct (Z.leb_spec (len text) max_chars) as [Hs | Hl].
  - rewrite wrap_short_text_unchanged by exact Hs. lia.
  - rewrite (Hlong Hl).
    pose proof (len_join_split_from text []) as H.
    change (len (@nil ascii)) with 0 in H. unfold split. lia.
Qed.

(** *** The lines of a wrapped text *)

Lemma split_blank (text : str) :
  forallb isspace text = true -> split text = [].
Proof.
  unfold split. induction text as [| c rest IH]; [reflexivity |].
  cbn [forallb split_from]. intro H. apply andb_true_iff in H.
  destruct H as [Hc Hrest]. rewrite Hc. now apply IH.
Qed.

(** A text over the budget that holds white space only is wrapped to the
    empty string. *)
Theorem blank_text_wraps_to_nothing (text : str) (max_chars : Z) :
  forallb isspace text = true ->
  max_chars < len text ->
  _wrap_text text max_chars = [].
Proof.
  intros Hb Hlong. rewrite wrap_long_text by exact Hlong.
  now rewrite (split_blank text Hb).
Qed.

Lemma blank_text_wraps_to_nothing_of_spaces :
  forallb isspace (lit "   ") = true
  /\ 2 < len (lit "   ")
  /\ _wrap_text (lit "   ") 2 = [].
Proof.
  assert (Hb : forallb isspace (lit "   ") = true) by reflexivity.
  assert (Hl : 2 < len (lit "   ")) by reflexivity.
  split; [exact Hb |]. split; [exact Hl |].
  exact (blank_text_wraps_to_nothing _ 2 Hb Hl).
Defined.

Lemma join_wordlike_nonempty (g : list str) :
  g <> [] -> Forall wordlike g -> join [space] g <> [].
Proof.
  intros Hne Hw. destruct g as [| w g]; [congruence |].
  inversion Hw as [| ? ? [Hw0 _] _]; subst.
  destruct g as [| w' g]; [exact Hw0 |].
  rewrite join_cons. destruct w; [congruence | discriminate].
Qed.

(** Every line of a wrapped text over the budget that holds a word is clean:
    not empty, made of its words with single spaces between them (no space
    at either end, no doubled space). *)
Theorem wrapped_lines_are_clean (text : str) (max_chars : Z) (line : str) :
  max_chars < len text ->
  split text <> [] ->
  In line (lines_of (_wrap_text text max_chars)) ->
  line <> [] /\ join [space] (split line) = line.
Proof.
  intros Hlong Hne Hin. rewrite wrap_long_text in Hin by exact Hlong.
  rewrite lines_of_wrapped in Hin by (exact Hne || apply split_wordlike).
  apply in_map_iff in Hin. destruct Hin as (g & <- & Hg).
  assert (Hw : Forall wordlike g).
  { apply (in_concat_wordlike (wrap_groups (split text) max_chars));
      [| exact Hg].
    rewrite concat_wrap_groups. apply split_wordlike. }
  pose proof (wrap_groups_fit (split text) max_chars) as Hfit.
  rewrite Forall_forall in Hfit. destruct (Hfit g Hg) as [Hgne _].
  split; [now apply join_wordlike_nonempty |].
  now rewrite split_join.
Qed.

Lemma wrapped_lines_are_clean_of_description :
  let text := lit "  Dark brown   silty  TOPSOIL with roots " in
  12 < len text
  /\ split text <> []
  /\ In (lit "Dark brown") (lines_of (_wrap_text text 12))
  /\ lit "Dark brown" <> []
  /\ join [space] (split (lit "Dark brown")) = lit "Dark brown".
Proof.
  assert (Hl : 12 < len (lit "  Dark brown   silty  TOPSOIL with roots "))
    by reflexivity.
  assert (Hn : split (lit "  Dark brown   silty  TOPSOIL with roots ") <> [])
    by (vm_compute; discriminate).
  assert (Hi : In (lit "Dark brown")
                 (lines_of (_wrap_text
                    (lit "  Dark brown   silty  TOPSOIL with roots ") 12)))
    by (vm_compute; left; reflexivity).
  split; [exact Hl |]. split; [exact Hn |]. split; [exact Hi |].
  exact (wrapped_lines_are_clean _ 12 _ Hl Hn Hi).
Defined.

(** *** Where the loop breaks a line *)

(** The word [w] that opens the line after [a] did not fit behind [a]: with
    one character to spare after the first line ([i = 0], whose counter may
    run one ahead), with none after every later line. *)
Definition broken_at (max_chars : Z) (i : nat) (a : list str) (w : str)
  : Prop :=
  max_chars < line_length a + len w + 2
  /\ ((0 < i)%nat -> max_chars < line_length a + len w + 1).

(** A second invariant of the loop: the counter is the length of the current
    line, or one more while the first line is filled, and every line already
    closed was closed by a word that did not fit. *)
Record tight (max_chars : Z) (g : gstate) : Prop := mk_tight
  { t_empty : g_line g = [] -> groups g = [] /\ g_length g = 0;
    t_upper : g_line g <> [] ->
              line_length (g_line g) <= g_length g
              <= line_length (g_line g) + 1;
    t_exact : groups g <> [] -> g_length g = line_length (g_line g);
    t_breaks : forall (i : nat) (a : list str) (w : str) (r : list str),
        nth_error (groups g) i = Some a ->
        nth_error (groups g ++ [g_line g]) (S i) = Some (w :: r) ->
        broken_at max_chars i a w }.

Lemma nth_error_snoc_cases {A : Type} (l : list A) (x y : A) (k : nat) :
  nth_error (l ++ [x]) k = Some y ->
  nth_error l k = Some y \/ (k = List.length l /\ y = x).
Proof.
  intro H. destruct (Nat.lt_ge_cases k (List.length l)) as [Hlt | Hge].
  - left. now rewrite nth_error_app1 in H.
  - right. rewrite nth_error_app2 in H by exact Hge.
    destruct (k - List.length l)%nat as [| m] eqn:E.
    + simpl in H. split; [lia | congruence].
    + simpl in H. now destruct m.
Qed.

Lemma nth_error_lt {A : Type} (l : list A) (k : nat) (y : A) :
  nth_error l k = Some y -> (k < List.length l)%nat.
Proof. intro H. apply nth_error_Some. congruence. Qed.

Lemma gstep_tight (max_chars : Z) (g : gstate) (word : str) :
  tight max_chars g -> tight max_chars (gstep max_chars g word).
Proof.
  intros [He Hu Hx Hb]. unfold gstep.
  destruct (Z.leb_spec (g_length g + len word + 1) max_chars) as [Hfit | Hno];
    constructor; cbn [groups g_line g_length].
  - intro H. now destruct (g_line g).
  - intros _. destruct (g_line g) as [| x l] eqn:E.
    + destruct (He eq_refl) as [_ ->]. cbn [app].
      rewrite line_length_single. lia.
    + rewrite line_length_snoc by discriminate.
      specialize (Hu ltac:(discriminate)). lia.
  - intro Hg. specialize (Hx Hg). destruct (g_line g) as [| x l] eqn:E.
    + now destruct (He eq_refl).
    + rewrite line_length_snoc by discriminate. lia.
  - intros i a w r Ha Hn. apply nth_error_snoc_cases in Hn.
    destruct Hn as [Hn | [Hi Hn]].
    + apply (Hb i a w r Ha). rewrite nth_error_app1; [exact Hn |].
      now apply nth_error_lt in Hn.
    + destruct (g_line g) as [| x l] eqn:E.
      * destruct (He eq_refl) as [Hg _]. rewrite Hg in Ha. now destruct i.
      * cbn [app] in Hn. injection Hn as -> _.
        apply (Hb i a x l Ha). rewrite nth_error_app2 by lia.
        replace (S i - List.length (groups g))%nat with 0%nat by lia.
        reflexivity.
  - discriminate.
  - intros _. rewrite line_length_single. lia.
  - intros _. now rewrite line_length_single.
  - intros i a w r Ha Hn. destruct (g_line g) as [| x l] eqn:E.
    + destruct (He eq_refl) as [Hg _]. cbn [gflush] in Ha.
      rewrite Hg in Ha. now destruct i.
    + cbn [gflush] in Ha, Hn. apply nth_error_snoc_cases in Hn.
      destruct Hn as [Hn | [Hi Hn]].
      * pose proof (nth_error_lt _ _ _ Hn) as Hlt. rewrite length_app in Hlt.
        cbn [List.length] in Hlt.
        rewrite nth_error_app1 in Ha by lia.
        now apply (Hb i a w r Ha).
      * rewrite length_app in Hi. cbn [List.length] in Hi.
        rewrite nth_error_app2 in Ha by lia.
        replace (i - List.length (groups g))%nat with 0%nat in Ha by lia.
        cbn [nth_error] in Ha. injection Ha as <-. injection Hn as -> _.
        specialize (Hu ltac:(discriminate)). split; [lia |].
        intro Hpos. rewrite <- Hx; [lia |].
        destruct (groups g); [simpl in Hi; lia | discriminate].
Qed.

Lemma fold_gstep_tight (max_chars : Z) (words : list str) (g : gstate) :
  tight max_chars g -> tight max_chars (fold_left (gstep max_chars) words g).
Proof.
  revert g. induction words as [| w ws IH]; intros g H; simpl; [exact H |].
  apply IH. now apply gstep_tight.
Qed.

Lemma wrap_groups_broken (words : list str) (max_chars : Z)
      (i : nat) (a : list str) (w : str) (r : list str) :
  nth_error (wrap_groups words max_chars) i = Some a ->
  nth_error (wrap_groups words max_chars) (S i) = Some (w :: r) ->
  broken_at max_chars i a w.
Proof.
  unfold wrap_groups.
  set (g := fold_left (gstep max_chars) words (mk_gstate [] [] 0)).
  assert (Ht : tight max_chars g).
  { apply fold_gstep_tight. constructor; cbn [groups g_line g_length].
    - now split.
    - congruence.
    - congruence.
    - intros k a0 w0 r0 H. now destruct k. }
  destruct Ht as [He _ _ Hb]. intros Ha Hn.
  destruct (g_line g) as [| x l] eqn:E.
  - destruct (He eq_refl) as [Hg _]. cbn [gflush] in Ha.
    rewrite Hg in Ha. now destruct i.
  - cbn [gflush] in Ha, Hn. apply (Hb i a w r); [| exact Hn].
    pose proof (nth_error_lt _ _ _ Hn) as Hlt. rewrite length_app in Hlt.
    cbn [List.length] in Hlt. now rewrite nth_error_app1 in Ha by lia.
Qed.

(** In the result for a text over the budget, the word that opens a line did
    not fit on the line before it: that line, a space and the word are
    longer than [max_chars], for every line but the first; the first line is
    closed one character early (its counter has counted one character too
    many), so there the bound is [max_chars - 1]. *)
Theorem line_breaks_are_forced (text : str) (max_chars : Z) (i : nat)
        (line next w : str) (ws : list str) :
  max_chars < len text ->
  nth_error (lines_of (_wrap_text text max_chars)) i = Some line ->
  nth_error (lines_of (_wrap_text text max_chars)) (S i) = Some next ->
  split next = w :: ws ->
  max_chars - 1 < len line + 1 + len w
  /\ ((0 < i)%nat -> max_chars < len line + 1 + len w).
Proof.
  intros Hlong Hl Hn Hs. rewrite wrap_long_text in Hl, Hn by exact Hlong.
  destruct (split text) as [| w0 ws0] eqn:Es.
  { cbn in Hn. now destruct i. }
  assert (Hw : Forall wordlike (w0 :: ws0))
    by (rewrite <- Es; apply split_wordlike).
  rewrite lines_of_wrapped in Hl, Hn by (discriminate || exact Hw).
  rewrite nth_error_map in Hl, Hn.
  destruct (nth_error (wrap_groups (w0 :: ws0) max_chars) i)
    as [a |] eqn:Ha; [| discriminate].
  destruct (nth_error (wrap_groups (w0 :: ws0) max_chars) (S i))
    as [b |] eqn:Hb; [| discriminate].
  cbn [option_map] in Hl, Hn. injection Hl as <-. injection Hn as <-.
  rewrite split_join in Hs.
  - subst b.
    destruct (wrap_groups_broken _ _ _ _ _ _ Ha Hb) as [H1 H2].
    unfold line_length in H1, H2. split; [lia |]. intro Hi.
    specialize (H2 Hi). lia.
  - apply (in_concat_wordlike (wrap_groups (w0 :: ws0) max_chars)).
    + now rewrite concat_wrap_groups.
    + eapply nth_error_In. exact Hb.
Qed.

Lemma line_breaks_are_forced_in_description :
  let text := lit "Dark brown silty TOPSOIL with roots" in
  12 < len text
  /\ nth_error (lines_of (_wrap_text text 12)) 1 = Some (lit "silty")
  /\ nth_error (lines_of (_wrap_text text 12)) 2 = Some (lit "TOPSOIL with")
  /\ split (lit "TOPSOIL with") = [lit "TOPSOIL"; lit "with"]
  /\ 12 - 1 < len (lit "silty") + 1 + len (lit "TOPSOIL")
  /\ ((0 < 1)%nat -> 12 < len (lit "silty") + 1 + len (lit "TOPSOIL")).
Proof.
  assert (H0 : 12 < len (lit "Dark brown silty TOPSOIL with roots"))
    by reflexivity.
  assert (H1 : nth_error
                 (lines_of (_wrap_text
                    (lit "Dark brown silty TOPSOIL with roots") 12)) 1
               = Some (lit "silty")) by reflexivity.
  assert (H2 : nth_error
                 (lines_of (_wrap_text
                    (lit "Dark brown silty TOPSOIL with roots") 12)) 2
               = Some (lit "TOPSOIL with")) by reflexivity.
  assert (H3 : split (lit "TOPSOIL with") = [lit "TOPSOIL"; lit "with"])
    by reflexivity.
  split; [exact H0 |]. split; [exact H1 |]. split; [exact H2 |].
  split; [exact H3 |].
  exact (line_breaks_are_forced _ 12 1 _ _ _ _ H0 H1 H2 H3).
Defined.

(** A word longer than the budget, between two short ones. *)
Lemma long_word_alone_in_description :
  let text := lit "very unconsolidated sand" in
  In (lit "unconsolidated") (split text)
  /\ 10 < len (lit "unconsolidated")
  /\ In (lit "unconsolidated") (lines_of (_wrap_text text 10)).
Proof.
  assert (Hw : In (lit "unconsolidated")
                 (split (lit "very unconsolidated sand")))
    by (vm_compute; right; left; reflexivity).
  assert (Hl : 10 < len (lit "unconsolidated")) by reflexivity.
  split; [exact Hw |]. split; [exact Hl |].
  exact (long_word_alone _ 10 _ Hw Hl).
Defined.

(** *** The texts that do not keep their lines *)

Lemma split_on_from_nonempty (sep : ascii) (piece text : str) :
  (1 <= List.length (split_on_from sep piece text))%nat.
Proof.
  revert piece. induction text as [| c rest IH]; intro piece; simpl;
    [lia |].
  destruct (Ascii.eqb c sep); [simpl; lia | apply IH].
Qed.

Lemma split_on_from_two (piece text : str) :
  ~ no_newline text ->
  (2 <= List.length (split_on_from newline piece text))%nat.
Proof.
  revert piece. induction text as [| c rest IH]; intros piece Hn.
  - now contradiction Hn.
  - simpl. destruct (Ascii.eqb c newline) eqn:Ec.
    + pose proof (split_on_from_nonempty newline [] rest). simpl. lia.
    + apply IH. intro Hrest. apply Hn. unfold no_newline in *. simpl.
      now rewrite Ec, Hrest.
Qed.

Lemma split_on_from_pieces (piece text : str) :
  no_newline piece ->
  Forall no_newline (split_on_from newline piece text).
Proof.
  revert piece. induction text as [| c rest IH]; intros piece Hp; simpl.
  - now constructor.
  - destruct (Ascii.eqb c newline) eqn:Ec.
    + constructor; [exact Hp | now apply IH].
    + apply IH. apply no_newline_app. split; [exact Hp |].
      unfold no_newline. simpl. now rewrite Ec.
Qed.

Lemma len_join_split_on_from (piece text : str) :
  len (join [space] (split_on_from newline piece text))
  = len piece + len text.
Proof.
  revert piece. induction text as [| c rest IH]; intro piece.
  - simpl. change (len (@nil ascii)) with 0. lia.
  - cbn [split_on_from]. rewrite len_cons. destruct (Ascii.eqb c newline).
    + pose proof (split_on_from_nonempty newline [] rest) as Hne.
      specialize (IH []).
      destruct (split_on_from newline [] rest) as [| p ps];
        [simpl in Hne; lia |].
      rewrite join_cons, !len_app, IH.
      change (len [space]) with 1. change (len (@nil ascii)) with 0. lia.
    + rewrite IH, len_app. change (len [c]) with 1. lia.
Qed.

(** A short text with a line break: the first wrap keeps the break, the
    second has none to keep. *)
Lemma rewrapping_merges_broken_short_text (text : str) (max_chars : Z) :
  len text <= max_chars -> ~ no_newline text ->
  (2 <= List.length (lines_of (_wrap_text text max_chars)))%nat
  /\ List.length
       (lines_of (_wrap_text (rejoin (_wrap_text text max_chars)) max_chars))
     = 1%nat.
Proof.
  intros Hshort Hn. rewrite (wrap_short_text_unchanged _ _ Hshort).
  split; [now apply split_on_from_two |].
  assert (Hlen : len (rejoin text) = len text).
  { unfold rejoin, lines_of, split_on. rewrite len_join_split_on_from.
    change (len (@nil ascii)) with 0. lia. }
  rewrite wrap_short_text_unchanged by lia.
  rewrite lines_of_no_newline; [reflexivity |].
  unfold rejoin. apply join_space_no_newline.
  now apply split_on_from_pieces.
Qed.

(** Once a line is closed, the result has two lines or more. *)
Lemma fold_gstep_two_groups (max_chars : Z) (words : list str) (g : gstate) :
  groups g <> [] -> g_line g <> [] ->
  let g' := fold_left (gstep max_chars) words g in
  (2 <= List.length (gflush (groups g') (g_line g')))%nat.
Proof.
  revert g. induction words as [| w ws IH]; intros g Hg Hl; cbn [fold_left].
  - cbn zeta. destruct (g_line g) as [| x l]; [congruence |].
    cbn [gflush]. rewrite length_app. destruct (groups g); [congruence |].
    simpl. lia.
  - apply IH; unfold gstep; destruct (_ <=? _); cbn [groups g_line].
    + exact Hg.
    + destruct (g_line g); [congruence |]. cbn [gflush].
      now destruct (groups g).
    + now destruct (g_line g).
    + discriminate.
Qed.

(** While the first line is filled its counter is one more than its length;
    words that need the whole budget do not fit on it. *)
Lemma fold_gstep_first_line_full (max_chars : Z) (rest cur : list str) :
  cur <> [] ->
  line_length cur + 1 <= max_chars ->
  max_chars < line_length (cur ++ rest) + 1 ->
  let g' := fold_left (gstep max_chars) rest
              (mk_gstate [] cur (line_length cur + 1)) in
  (2 <= List.length (gflush (groups g') (g_line g')))%nat.
Proof.
  cbn zeta.
  revert cur. induction rest as [| w rest IH]; intros cur Hne Hfit Hover.
  - rewrite app_nil_r in Hover. lia.
  - cbn [fold_left].
    destruct (Z.leb_spec (line_length cur + 1 + len w + 1) max_chars)
      as [Hyes | Hno].
    + assert (E : gstep max_chars
                    (mk_gstate [] cur (line_length cur + 1)) w
                  = mk_gstate [] (cur ++ [w])
                      (line_length (cur ++ [w]) + 1)).
      { unfold gstep. cbn [groups g_line g_length].
        destruct (Z.leb_spec (line_length cur + 1 + len w + 1) max_chars);
          [| lia].
        f_equal. rewrite line_length_snoc by assumption. lia. }
      rewrite E. apply IH.
      * now destruct cur.
      * rewrite line_length_snoc by assumption. lia.
      * now rewrite <- app_assoc.
    + assert (E : gstep max_chars
                    (mk_gstate [] cur (line_length cur + 1)) w
                  = mk_gstate [cur] [w] (len w)).
      { unfold gstep. cbn [groups g_line g_length].
        destruct (Z.leb_spec (line_length cur + 1 + len w + 1) max_chars);
          [lia |].
        destruct cur; [congruence | reflexivity]. }
      rewrite E.
      apply (fold_gstep_two_groups max_chars rest); discriminate.
Qed.

Lemma wrap_groups_full_budget (words : list str) (max_chars : Z) :
  (2 <= List.length words)%nat ->
  line_length words = max_chars ->
  (2 <= List.length (wrap_groups words max_chars))%nat.
Proof.
  intros Htwo Hfull. destruct words as [| w0 [| w1 ws]];
    [simpl in Htwo; lia | simpl in Htwo; lia |].
  assert (Hfirst : line_length [w0] + 1 <= max_chars).
  { rewrite <- Hfull.
    pose proof (line_length_prefix [w0; w1] ws) as Hp.
    change ([w0; w1] ++ ws) with (w0 :: w1 :: ws) in Hp.
    change [w0; w1] with ([w0] ++ [w1]) in Hp.
    rewrite line_length_snoc in Hp by discriminate.
    pose proof (len_nonneg w1). lia. }
  assert (E : gstep max_chars (mk_gstate [] [] 0) w0
              = mk_gstate [] [w0] (line_length [w0] + 1)).
  { unfold gstep. cbn [groups g_line g_length].
    rewrite line_length_single in *.
    destruct (Z.leb_spec (0 + len w0 + 1) max_chars); [| lia].
    reflexivity. }
  unfold wrap_groups. cbn [fold_left]. rewrite E.
  apply (fold_gstep_first_line_full max_chars (w1 :: ws) [w0]).
  - discriminate.
  - exact Hfirst.
  - cbn [app]. lia.
Qed.

(** A long text of two words or more that fill the budget exactly: the first
    wrap breaks it, the second returns it as one line. *)
Lemma rewrapping_merges_full_budget_text (text : str) (max_chars : Z) :
  max_chars < len text ->
  len (join [space] (split text)) = max_chars ->
  (2 <= List.length (split text))%nat ->
  (2 <= List.length (lines_of (_wrap_text text max_chars)))%nat
  /\ List.length
       (lines_of (_wrap_text (rejoin (_wrap_text text max_chars)) max_chars))
     = 1%nat.
Proof.
  intros Hlong Hfull Htwo.
  pose proof (split_wordlike text) as Hw.
  rewrite (rejoin_wrapped _ _ Hlong).
  rewrite (wrap_long_text text) by assumption.
  assert (Hne : split text <> [])
    by (intro E; rewrite E in Htwo; simpl in Htwo; lia).
  rewrite lines_of_wrapped by assumption. rewrite length_map. split.
  - now apply wrap_groups_full_budget.
  - rewrite wrap_short_text_unchanged by lia.
    rewrite lines_of_no_newline; [reflexivity |].
    now apply joined_group_no_newline.
Qed.

(** All other texts change their lines when they are wrapped again: a short
    text with a line break, and a long text of two words or more that fill
    the budget exactly. *)
Lemma rewrapping_changes_all_other_texts (text : str) (max_chars : Z) :
  (len text <= max_chars /\ ~ no_newline text)
  \/ (max_chars < len text
      /\ len (join [space] (split text)) = max_chars
      /\ (2 <= List.length (split text))%nat) ->
  lines_of (_wrap_text (rejoin (_wrap_text text max_chars)) max_chars)
  <> lines_of (_wrap_text text max_chars).
Proof.
  intros [[Hshort Hn] | (Hlong & Hfull & Htwo)] E.
  - destruct (rewrapping_merges_broken_short_text _ _ Hshort Hn) as [H2 H1].
    rewrite E in H1. lia.
  - destruct (rewrapping_merges_full_budget_text _ _ Hlong Hfull Htwo)
      as [H2 H1].
    rewrite E in H1. lia.
Qed.

End WrapFacts.

(** * Properties of the three-column log *)

Module ColumnsFacts.

Import Py PyFacts Wrap WrapFacts Columns.
Open Scope Q_scope.

(** *** [sorted(set(depths))] *)

(** Membership up to equality of numbers. *)
Definition InQ (d : Q) (l : list Q) : Prop := exists x, In x l /\ x == d.

Definition distinct (l : list Q) : Prop :=
  ForallOrdPairs (fun a b => ~ a == b) l.

Lemma Qeq_bool_false (x y : Q) : Qeq_bool x y = false <-> ~ x == y.
Proof.
  split.
  - intros E H. apply Qeq_bool_iff in H. congruence.
  - intro H. destruct (Qeq_bool x y) eqn:E; [| reflexivity].
    apply Qeq_bool_iff in E. contradiction.
Qed.

Lemma FOP_filter {A : Type} (R : A -> A -> Prop) (f : A -> bool)
    (l : list A) :
  ForallOrdPairs R l -> ForallOrdPairs R (filter f l).
Proof.
  induction 1 as [| a l Ha Hl IH]; simpl; [constructor |].
  destruct (f a); [| exact IH]. constructor; [| exact IH].
  rewrite Forall_forall in *. intros x Hx. apply filter_In in Hx.
  now apply Ha.
Qed.

Lemma set_distinct (l : list Q) : distinct (set_ l).
Proof.
  induction l as [| x t IH]; simpl; constructor.
  - apply Forall_forall. intros y Hy. apply filter_In in Hy.
    destruct Hy as [_ Hy]. apply negb_true_iff in Hy.
    now apply Qeq_bool_false.
  - now apply FOP_filter.
Qed.

Lemma set_subset (l : list Q) (d : Q) : In d (set_ l) -> In d l.
Proof.
  revert d. induction l as [| x t IH]; simpl; [tauto |].
  intros d [-> | H]; [now left | right].
  apply filter_In in H. now apply IH.
Qed.

Lemma set_complete (l : list Q) (d : Q) : In d l -> InQ d (set_ l).
Proof.
  induction l as [| x t IH]; simpl; [tauto |].
  intros [-> | H].
  - exists d. split; [now left | reflexivity].
  - destruct (IH H) as (y & Hy & E).
    destruct (Qeq_bool x y) eqn:Exy.
    + apply Qeq_bool_iff in Exy. exists x. split; [now left |].
      now rewrite Exy.
    + exists y. split; [| exact E]. right. apply filter_In.
      split; [exact Hy |]. now rewrite Exy.
Qed.

Lemma in_insort (x y : Q) (l : list Q) :
  In y (insort x l) <-> y = x \/ In y l.
Proof.
  induction l as [| z t IH]; simpl.
  - split; intros [H | H]; auto.
  - destruct (Qleb x z); simpl; [split; intros [H | H]; auto |].
    rewrite IH. split; intros [H | [H | H]]; auto.
Qed.

Lemma in_sorted (y : Q) (l : list Q) : In y (sorted l) <-> In y l.
Proof.
  induction l as [| x t IH]; simpl; [tauto |].
  rewrite in_insort, IH. split; intros [H | H]; auto.
Qed.

Lemma insort_strict (x : Q) (l : list Q) :
  StronglySorted Qlt l ->
  Forall (fun y => ~ x == y) l ->
  StronglySorted Qlt (insort x l).
Proof.
  induction 1 as [| z t Ht IH Hz]; intro Hx; simpl.
  - repeat constructor.
  - inversion Hx as [| ? ? Hxz Hxt]; subst.
    destruct (Qleb_spec x z) as [Hle | Hgt].
    + assert (Hlt : x < z).
      { apply Qle_lteq in Hle. destruct Hle; [assumption | contradiction]. }
      constructor; [now constructor |].
      constructor; [exact Hlt |].
      eapply Forall_impl; [| exact Hz]. intros a Ha. lra.
    + constructor; [now apply IH |].
      apply Forall_forall. intros a Ha. apply in_insort in Ha.
      destruct Ha as [-> | Ha]; [lra |].
      rewrite Forall_forall in Hz. now apply Hz.
Qed.

Lemma sorted_strict (l : list Q) :
  distinct l -> StronglySorted Qlt (sorted l).
Proof.
  induction 1 as [| x t Hx Ht IH]; simpl; [constructor |].
  apply insort_strict; [exact IH |].
  apply Forall_forall. intros y Hy. apply (proj1 (in_sorted _ _)) in Hy.
  rewrite Forall_forall in Hx. exact (Hx y Hy).
Qed.

(** Two ascending lists without repetition that hold the same numbers are
    the same list. *)
Lemma strict_sorted_unique (l1 l2 : list Q) :
  StronglySorted Qlt l1 ->
  StronglySorted Qlt l2 ->
  (forall d, InQ d l1 <-> InQ d l2) ->
  Forall2 Qeq l1 l2.
Proof.
  intro H1. revert l2. induction H1 as [| x t1 Ht1 IH Hx]; intros l2 H2 Hm.
  - destruct l2 as [| y t2]; [constructor |].
    destruct (proj2 (Hm y)) as (z & [] & _).
    exists y. split; [now left | reflexivity].
  - destruct l2 as [| y t2].
    + destruct (proj1 (Hm x)) as (z & [] & _).
      exists x. split; [now left | reflexivity].
    + inversion H2 as [| ? ? Ht2 Hy]; subst.
      rewrite Forall_forall in Hx, Hy.
      assert (Exy : x == y).
      { destruct (proj1 (Hm x)) as (a & Ha & Ea);
          [exists x; split; [now left | reflexivity] |].
        destruct (proj2 (Hm y)) as (b & Hb & Eb);
          [exists y; split; [now left | reflexivity] |].
        destruct Ha as [<- | Ha]; [now symmetry |].
        destruct Hb as [<- | Hb]; [exact Eb |].
        specialize (Hx b Hb). specialize (Hy a Ha). lra. }
      constructor; [exact Exy |]. apply IH; [exact Ht2 |].
      intro d. split; intros (a & Ha & Ea).
      * destruct (proj1 (Hm d)) as (b & Hb & Eb);
          [exists a; split; [now right | exact Ea] |].
        destruct Hb as [<- | Hb]; [| now exists b].
        specialize (Hx a Ha). lra.
      * destruct (proj2 (Hm d)) as (b & Hb & Eb);
          [exists a; split; [now right | exact Ea] |].
        destruct Hb as [<- | Hb]; [| now exists b].
        specialize (Hy a Ha). lra.
Qed.

(** *** The depth column *)

Definition boundaries (data : DataFrame) : list Q :=
  flat_map (fun row => [Row.Depth_Top row; Row.Depth_Base row]) data.

Lemma in_boundaries (data : DataFrame) (d : Q) :
  In d (boundaries data) <->
  exists row, In row data /\ (d = Row.Depth_Top row \/ d = Row.Depth_Base row).
Proof.
  unfold boundaries. rewrite in_flat_map. split.
  - intros (row & Hrow & [<- | [<- | []]]); eauto.
  - intros (row & Hrow & [-> | ->]); exists row; simpl; auto.
Qed.

Lemma depth_markers_strict (data : DataFrame) :
  StronglySorted Qlt (depth_markers data).
Proof. apply sorted_strict, set_distinct. Qed.

Lemma in_depth_markers (data : DataFrame) (d : Q) :
  InQ d (depth_markers data) <-> InQ d (boundaries data).
Proof.
  unfold depth_markers. fold (boundaries data). split.
  - intros (x & Hx & E). exists x. split; [| exact E].
    apply set_subset. now apply (proj1 (in_sorted _ _)).
  - intros (x & Hx & E). destruct (set_complete _ _ Hx) as (y & Hy & Ey).
    exists y. split; [now apply (proj2 (in_sorted _ _)) |]. now rewrite Ey.
Qed.

(** The depth column labels every layer boundary once: the depths at which
    [_plot_depth_column] writes a label and draws a line ascend strictly, so
    no two of them are equal; each is the top or the base of a row, and the
    top and the base of every row are among them.  The labels are written
    first, the lines after them. *)
Theorem depth_column_marks_each_boundary_once (ax : axes) (data : DataFrame)
    (min_depth max_depth : Q) :
  let depths := depth_markers data in
  StronglySorted Qlt depths
  /\ (forall d, In d depths ->
        exists row, In row data
                    /\ (d = Row.Depth_Top row \/ d = Row.Depth_Base row))
  /\ (forall row, In row data ->
        InQ (Row.Depth_Top row) depths /\ InQ (Row.Depth_Base row) depths)
  /\ calls (_plot_depth_column ax data min_depth max_depth)
     = calls ax
       ++ map (fun depth => text 0.5 depth (Fmt2f_m depth) ha_center 9) depths
       ++ map (fun depth => axhline depth 0.5) depths.
Proof.
  intro depths. subst depths. split; [apply depth_markers_strict |].
  split; [| split; [| reflexivity]].
  - intros d Hd. apply in_boundaries. unfold depth_markers in Hd.
    apply (proj1 (in_sorted _ _)) in Hd. now apply set_subset in Hd.
  - intros row Hrow. split; apply in_depth_markers.
    + exists (Row.Depth_Top row). split; [| reflexivity].
      apply in_boundaries. eauto.
    + exists (Row.Depth_Base row). split; [| reflexivity].
      apply in_boundaries. eauto.
Qed.

(** The rows of a log in depth order: each one has its top above its base and
    starts where the one before it ends. *)
Definition valid_row (r : Row.t) : Prop := Row.Depth_Top r < Row.Depth_Base r.

Fixpoint contiguous (data : DataFrame) : Prop :=
  match data with
  | [] => True
  | r :: rest =>
      match rest with
      | [] => True
      | r' :: _ => Row.Depth_Top r' == Row.Depth_Base r
      end /\ contiguous rest
  end.

Definition well_formed (data : DataFrame) : Prop :=
  Forall valid_row data /\ contiguous data.

(** The top of the first row followed by the base of every row. *)
Definition stacked_boundaries (data : DataFrame) : list Q :=
  match data with
  | [] => []
  | first :: _ => Row.Depth_Top first :: map Row.Depth_Base data
  end.

Lemma bases_ascend (r : Row.t) (rest : DataFrame) :
  well_formed (r :: rest) ->
  Forall (Qlt (Row.Depth_Top r)) (map Row.Depth_Base (r :: rest))
  /\ StronglySorted Qlt (map Row.Depth_Base (r :: rest)).
Proof.
  revert r. induction rest as [| r' rest IH]; intros r [Hv Hc].
  - inversion Hv as [| ? ? Hr _]; subst. simpl.
    split; repeat constructor. exact Hr.
  - inversion Hv as [| ? ? Hr Hv']; subst. destruct Hc as [E Hc].
    destruct (IH r' (conj Hv' Hc)) as [Hall Hs].
    unfold valid_row in Hr.
    assert (Hall' : Forall (Qlt (Row.Depth_Base r))
                      (map Row.Depth_Base (r' :: rest))).
    { eapply Forall_impl; [| exact Hall]. intros a Ha. lra. }
    split.
    + cbn [map]. constructor; [exact Hr |].
      eapply Forall_impl; [| exact Hall']. intros a Ha. lra.
    + cbn [map]. constructor; [exact Hs | exact Hall'].
Qed.

Lemma stacked_boundaries_strict (data : DataFrame) :
  well_formed data -> StronglySorted Qlt (stacked_boundaries data).
Proof.
  destruct data as [| r rest]; [constructor |]. intro H.
  destruct (bases_ascend r rest H) as [Hall Hs].
  unfold stacked_boundaries. now constructor.
Qed.

Lemma in_stacked_boundaries (data : DataFrame) (d : Q) :
  contiguous data ->
  InQ d (stacked_boundaries data) <-> InQ d (boundaries data).
Proof.
  intro Hc. destruct data as [| r rest]; [reflexivity |].
  unfold stacked_boundaries. split.
  - intros (x & Hx & E). exists x. split; [| exact E].
    apply in_boundaries. destruct Hx as [<- | Hx].
    + exists r. split; [now left | now left].
    + apply in_map_iff in Hx. destruct Hx as (row & <- & Hrow). eauto.
  - intros (x & Hx & E). apply in_boundaries in Hx.
    destruct Hx as (row & Hrow & Hx).
    assert (Hb : forall row', In row' (r :: rest) ->
                   In (Row.Depth_Base row')
                     (Row.Depth_Top r :: map Row.Depth_Base (r :: rest)))
      by (intros row' H'; right; now apply in_map).
    destruct Hx as [-> | ->]; [| exists (Row.Depth_Base row); auto].
    clear Hb. revert r Hc Hrow.
    induction rest as [| r' rest IH]; intros r Hc Hrow.
    + destruct Hrow as [<- | []]. exists (Row.Depth_Top r).
      split; [now left | exact E].
    + destruct Hrow as [<- | Hrow].
      * exists (Row.Depth_Top r). split; [now left | exact E].
      * destruct Hc as [E' Hc].
        destruct (IH r' Hc Hrow) as (y & Hy & Ey).
        destruct Hy as [<- | Hy].
        -- exists (Row.Depth_Base r). split; [right; now left |].
           now rewrite <- E'.
        -- exists y. split; [| exact Ey]. right. now right.
Qed.

(** For rows that follow one another without gap, the depth column has one
    marker more than there are rows: the top of the first row and the base
    of every row, in this order. *)
Theorem contiguous_rows_share_their_markers (data : DataFrame) :
  well_formed data ->
  Forall2 Qeq (depth_markers data) (stacked_boundaries data)
  /\ (data <> [] ->
      List.length (depth_markers data) = S (List.length data)).
Proof.
  intro Hwf.
  assert (H : Forall2 Qeq (depth_markers data) (stacked_boundaries data)).
  { apply strict_sorted_unique.
    - apply depth_markers_strict.
    - now apply stacked_boundaries_strict.
    - intro d. rewrite in_depth_markers.
      symmetry. apply in_stacked_boundaries. apply Hwf. }
  split; [exact H |]. intro Hne.
  rewrite (Forall2_length H). destruct data as [| r rest]; [congruence |].
  unfold stacked_boundaries. cbn [List.length]. now rewrite length_map.
Qed.

(** The sample data of the module's own example. *)
Definition sample_data : DataFrame :=
  [ Row.mk 0.0 1.5 (Some (lit "CLAY"))
      (Some (lit "Soft brown clay with occasional organic matter"));
    Row.mk 1.5 3.0 (Some (lit "SAND"))
      (Some (lit "Medium dense fine to coarse sand"));
    Row.mk 3.0 5.5 (Some (lit "GRAV"))
      (Some (lit "Dense angular gravel with cobbles"));
    Row.mk 5.5 8.0 (Some (lit "CLAY"))
      (Some (lit "Stiff grey clay with limestone fragments"));
    Row.mk 8.0 12.0 (Some (lit "ROCK"))
      (Some (lit "Weathered limestone bedrock")) ].

Lemma sample_data_well_formed : well_formed sample_data.
Proof.
  split.
  - repeat constructor.
  - simpl. repeat split; reflexivity.
Qed.

Lemma sample_data_shares_its_markers :
  well_formed sample_data
  /\ Forall2 Qeq (depth_markers sample_data) [0.0; 1.5; 3.0; 5.5; 8.0; 12.0]
  /\ (sample_data <> [] ->
      List.length (depth_markers sample_data) = 6%nat).
Proof.
  split; [exact sample_data_well_formed |].
  exact (contiguous_rows_share_their_markers sample_data
           sample_data_well_formed).
Defined.

(** *** The depth range of the axes *)

Lemma column_max_spec (first : Q) (rest : list Q) :
  In (column_max first rest) (first :: rest)
  /\ forall x, In x (first :: rest) -> x <= column_max first rest.
Proof.
  unfold column_max. revert first.
  induction rest as [| y rest IH]; intro first; cbn [fold_left].
  - split; [now left |]. intros x [<- | []]. lra.
  - destruct (IH (max first y)) as [Hin Hle]. split.
    + destruct Hin as [E | Hin]; [| right; now right].
      rewrite <- E.
      destruct (max_cases first y) as [[_ ->] | [_ ->]];
        [right; now left | now left].
    + intros x Hx.
      assert (H1 : first <= max first y /\ y <= max first y)
        by (destruct (max_cases first y) as [[? ->] | [? ->]]; lra).
      pose proof (Hle (max first y) (or_introl eq_refl)) as H2.
      destruct Hx as [<- | [<- | Hx]]; [lra | lra |].
      apply Hle. now right.
Qed.

Lemma column_min_spec (first : Q) (rest : list Q) :
  In (column_min first rest) (first :: rest)
  /\ forall x, In x (first :: rest) -> column_min first rest <= x.
Proof.
  unfold column_min. revert first.
  induction rest as [| y rest IH]; intro first; cbn [fold_left].
  - split; [now left |]. intros x [<- | []]. lra.
  - destruct (IH (min first y)) as [Hin Hle]. split.
    + destruct Hin as [E | Hin]; [| right; now right].
      rewrite <- E.
      destruct (min_cases first y) as [[_ ->] | [_ ->]];
        [right; now left | now left].
    + intros x Hx.
      assert (H1 : min first y <= first /\ min first y <= y)
        by (destruct (min_cases first y) as [[? ->] | [? ->]]; lra).
      pose proof (Hle (min first y) (or_introl eq_refl)) as H2.
      destruct Hx as [<- | [<- | Hx]]; [lra | lra |].
      apply Hle. now right.
Qed.

(** The y coordinates a call reaches: the anchor of a text, the height of a
    line, the lower and the upper edge of a rectangle. *)
Definition extent (d : draw) : list Q :=
  match d with
  | text _ y _ _ _ => [y]
  | axhline y _ => [y]
  | add_patch _ y _ height _ _ => [y; y + height]
  end.

Definition within (min_depth max_depth : Q) (ax : axes) : Prop :=
  ylim ax = Some (max_depth, min_depth)
  /\ Forall (fun d => Forall (fun y => min_depth <= y <= max_depth) (extent d))
       (calls ax).

Lemma half_between (a b : Q) : a <= b -> a <= (a + b) / 2 <= b.
Proof.
  intro H. unfold Qdiv. change (/ 2) with (1 # 2). split; lra.
Qed.

Lemma lithology_layer_within (m : mapping) (row : Row.t) (lo hi : Q) :
  lo <= Row.Depth_Top row -> Row.Depth_Top row <= Row.Depth_Base row ->
  Row.Depth_Base row <= hi ->
  Forall (fun d => Forall (fun y => lo <= y <= hi) (extent d))
    (lithology_layer m row).
Proof.
  intros H1 H2 H3. pose proof (half_between _ _ H2) as Hm.
  unfold lithology_layer.
  destruct (Qltb 0.5 (Row.Depth_Base row - Row.Depth_Top row));
    repeat constructor; cbn [extent]; try lra.
Qed.

Lemma description_layer_within (row : Row.t) (lo hi : Q) :
  lo <= Row.Depth_Top row -> Row.Depth_Top row <= Row.Depth_Base row ->
  Row.Depth_Base row <= hi ->
  Forall (fun d => Forall (fun y => lo <= y <= hi) (extent d))
    (description_layer row).
Proof.
  intros H1 H2 H3. pose proof (half_between _ _ H2) as Hm.
  unfold description_layer. repeat constructor; cbn [extent]; lra.
Qed.

Lemma Forall_flat_map_intro {A B : Type} (P : B -> Prop) (f : A -> list B)
    (l : list A) :
  (forall x, In x l -> Forall P (f x)) -> Forall P (flat_map f l).
Proof.
  intro H. apply Forall_forall. intros y Hy. apply in_flat_map in Hy.
  destruct Hy as (x & Hx & Hy). specialize (H x Hx).
  rewrite Forall_forall in H. now apply H.
Qed.

Lemma depth_column_boundaries (data : DataFrame) (d : Q) :
  In d (depth_markers data) ->
  exists row, In row data /\ (d = Row.Depth_Top row \/ d = Row.Depth_Base row).
Proof.
  intro Hd. apply in_boundaries. unfold depth_markers in Hd.
  apply (proj1 (in_sorted _ _)) in Hd. now apply set_subset in Hd.
Qed.

(** Whatever the order of the rows, as long as no row has its base above
    its top: the three axes get the same depth range, from the smallest top
    to the greatest base of the data, and in exact arithmetic nothing is
    drawn outside it. *)
Theorem columns_draw_within_the_depth_range (m : mapping)
    (data : DataFrame) (borehole_id : str) (title : option str) :
  data <> [] ->
  Forall (fun row => Row.Depth_Top row <= Row.Depth_Base row) data ->
  let fig := create_borehole_log m data borehole_id title in
  exists min_depth max_depth : Q,
    (exists row, In row data /\ min_depth = Row.Depth_Top row)
    /\ (exists row, In row data /\ max_depth = Row.Depth_Base row)
    /\ (forall row, In row data ->
          min_depth <= Row.Depth_Top row /\ Row.Depth_Base row <= max_depth)
    /\ within min_depth max_depth (ax_depth fig)
    /\ within min_depth max_depth (ax_litho fig)
    /\ within min_depth max_depth (ax_desc fig).
Proof.
  intros Hne Hv. destruct data as [| first rest]; [congruence |].
  cbn zeta. unfold create_borehole_log.
  set (mx := column_max (Row.Depth_Base first) (map Row.Depth_Base rest)).
  set (mn := column_min (Row.Depth_Top first) (map Row.Depth_Top rest)).
  destruct (column_max_spec (Row.Depth_Base first) (map Row.Depth_Base rest))
    as [Hmx_in Hmx]. fold mx in Hmx_in, Hmx.
  destruct (column_min_spec (Row.Depth_Top first) (map Row.Depth_Top rest))
    as [Hmn_in Hmn]. fold mn in Hmn_in, Hmn.
  change (Row.Depth_Base first :: map Row.Depth_Base rest)
    with (map Row.Depth_Base (first :: rest)) in Hmx_in, Hmx.
  change (Row.Depth_Top first :: map Row.Depth_Top rest)
    with (map Row.Depth_Top (first :: rest)) in Hmn_in, Hmn.
  set (data := first :: rest) in *.
  assert (Hrows : forall row, In row data ->
            mn <= Row.Depth_Top row /\ Row.Depth_Base row <= mx).
  { intros row Hrow. split; [apply Hmn | apply Hmx]; now apply in_map. }
  rewrite Forall_forall in Hv.
  exists mn, mx. split; [| split; [| split; [exact Hrows |]]].
  - apply in_map_iff in Hmn_in. destruct Hmn_in as (row & E & Hrow). eauto.
  - apply in_map_iff in Hmx_in. destruct Hmx_in as (row & E & Hrow). eauto.
  - cbn [ax_depth ax_litho ax_desc]. split; [| split];
      (split; [reflexivity |]);
      unfold _plot_depth_column, _plot_lithology_column,
        _plot_description_column, plotted, add_axes; cbn [calls app].
    + apply Forall_app. split; apply Forall_forall; intros d Hd;
        apply in_map_iff in Hd; destruct Hd as (y & <- & Hy);
        cbn [extent]; constructor; [| constructor | | constructor];
        destruct (depth_column_boundaries data y Hy)
          as (row & Hrow & [-> | ->]);
        destruct (Hrows row Hrow); specialize (Hv row Hrow); cbn beta in Hv;
        lra.
    + apply Forall_flat_map_intro. intros row Hrow.
      destruct (Hrows row Hrow). now apply lithology_layer_within; auto.
    + apply Forall_flat_map_intro. intros row Hrow.
      destruct (Hrows row Hrow). now apply description_layer_within; auto.
Qed.
Lemma sample_columns_within_the_depth_range :
  sample_data <> []
  /\ Forall (fun row => Row.Depth_Top row <= Row.Depth_Base row) sample_data
  /\ let fig := create_borehole_log empty_mapping sample_data (lit "BH001")
                  None in
     exists min_depth max_depth : Q,
       (exists row, In row sample_data /\ min_depth = Row.Depth_Top row)
       /\ (exists row, In row sample_data /\ max_depth = Row.Depth_Base row)
       /\ (forall row, In row sample_data ->
             min_depth <= Row.Depth_Top row
             /\ Row.Depth_Base row <= max_depth)
       /\ within min_depth max_depth (ax_depth fig)
       /\ within min_depth max_depth (ax_litho fig)
       /\ within min_depth max_depth (ax_desc fig).
Proof.
  assert (H1 : sample_data <> []) by discriminate.
  assert (H2 : Forall (fun row => Row.Depth_Top row <= Row.Depth_Base row)
                 sample_data)
    by (repeat constructor; vm_compute; discriminate).
  split; [exact H1 |]. split; [exact H2 |].
  exact (columns_draw_within_the_depth_range empty_mapping sample_data
           (lit "BH001") None H1 H2).
Defined.

(** *** The lithology column *)

(** Lower edge and height of the rectangles among the calls, in call
    order. *)
Definition patches (l : list draw) : list (Q * Q) :=
  flat_map (fun d => match d with
                     | add_patch _ y _ height _ _ => [(y, height)]
                     | _ => []
                     end) l.

Lemma patches_lithology (m : mapping) (data : DataFrame) :
  patches (flat_map (lithology_layer m) data)
  = map (fun row => (Row.Depth_Top row,
                     Row.Depth_Base row - Row.Depth_Top row)) data.
Proof.
  unfold patches. induction data as [| row data IH]; [reflexivity |].
  cbn [flat_map map]. rewrite flat_map_app, IH. unfold lithology_layer.
  destruct (Qltb 0.5 (Row.Depth_Base row - Row.Depth_Top row)); reflexivity.
Qed.

Lemma contiguous_nth (data : DataFrame) (i : nat) (r r' : Row.t) :
  contiguous data ->
  nth_error data i = Some r -> nth_error data (S i) = Some r' ->
  Row.Depth_Top r' == Row.Depth_Base r.
Proof.
  revert i. induction data as [| a data IH]; intros i Hc Hr Hr'.
  - now destruct i.
  - destruct Hc as [Ha Hc]. destruct i as [| i].
    + cbn in Hr, Hr'. injection Hr as <-.
      destruct data as [| b data]; [discriminate |].
      cbn in Hr'. injection Hr' as <-. exact Ha.
    + exact (IH i Hc Hr Hr').
Qed.

Lemma last_cons {A : Type} (a d : A) (l : list A) :
  last (a :: l) d = last l a.
Proof.
  revert a d. induction l as [| b l IH]; intros a d; [reflexivity |].
  change (last (a :: b :: l) d) with (last (b :: l) d).
  now rewrite !IH.
Qed.

Lemma in_last {A : Type} (a : A) (l : list A) : In (last l a) (a :: l).
Proof.
  revert a. induction l as [| b l IH]; intro a; [now left |].
  right. rewrite last_cons. apply IH.
Qed.

Lemma well_formed_ends (first : Row.t) (rest : DataFrame) (row : Row.t) :
  well_formed (first :: rest) ->
  In row (first :: rest) ->
  Row.Depth_Top first <= Row.Depth_Top row
  /\ Row.Depth_Base row <= Row.Depth_Base (last rest first).
Proof.
  revert first row.
  induction rest as [| r' rest IH]; intros first row [Hv Hc] Hrow.
  - destruct Hrow as [<- | []]. cbn [last]. split; lra.
  - inversion Hv as [| ? ? Hf Hv']; subst. destruct Hc as [E Hc].
    unfold valid_row in Hf.
    rewrite last_cons.
    destruct Hrow as [<- | Hrow].
    + destruct (IH r' r' (conj Hv' Hc) (or_introl eq_refl)) as [_ Hb].
      inversion Hv' as [| ? ? Hr' _]; subst. unfold valid_row in Hr'.
      split; lra.
    + destruct (IH r' row (conj Hv' Hc) Hrow) as [Ht Hb]. split; lra.
Qed.

Lemma heights_telescope (first : Row.t) (rest : DataFrame) :
  contiguous (first :: rest) ->
  LogFacts.Qsum (map (fun row => Row.Depth_Base row - Row.Depth_Top row)
                   (first :: rest))
  == Row.Depth_Base (last rest first) - Row.Depth_Top first.
Proof.
  revert first. induction rest as [| r' rest IH]; intros first Hc.
  - cbn. lra.
  - destruct Hc as [E Hc]. specialize (IH r' Hc). rewrite last_cons.
    cbn [map LogFacts.Qsum fold_right] in *. lra.
Qed.

(** In exact arithmetic, for rows that follow one another without gap, the
    rectangles of the lithology column tile the axis: there is one per row,
    from its top to its base, each starts where the one before it ends, the
    axis runs from the top of the first row to the base of the last, and the
    heights add up to this range. *)
Theorem lithology_column_is_tiled (m : mapping) (first : Row.t)
    (rest : DataFrame) (borehole_id : str) (title : option str) :
  well_formed (first :: rest) ->
  let data := first :: rest in
  let fig := create_borehole_log m data borehole_id title in
  let bars := patches (calls (ax_litho fig)) in
  bars = map (fun row => (Row.Depth_Top row,
                          Row.Depth_Base row - Row.Depth_Top row)) data
  /\ (forall (i : nat) (y h y' h' : Q),
        nth_error bars i = Some (y, h) ->
        nth_error bars (S i) = Some (y', h') ->
        y' == y + h)
  /\ exists min_depth max_depth : Q,
       ylim (ax_litho fig) = Some (max_depth, min_depth)
       /\ min_depth == Row.Depth_Top first
       /\ max_depth == Row.Depth_Base (last rest first)
       /\ LogFacts.Qsum (map snd bars) == max_depth - min_depth.
Proof.
  intros Hwf data fig bars.
  assert (Ebars : bars = map (fun row => (Row.Depth_Top row,
                     Row.Depth_Base row - Row.Depth_Top row)) data).
  { subst bars fig. unfold create_borehole_log. subst data.
    cbn [ax_litho]. unfold _plot_lithology_column, plotted, add_axes.
    cbn [calls app]. apply patches_lithology. }
  split; [exact Ebars |]. split.
  - intros i y h y' h' H1 H2. rewrite Ebars, nth_error_map in H1, H2.
    destruct (nth_error data i) as [r |] eqn:Hr; [| discriminate].
    destruct (nth_error data (S i)) as [r' |] eqn:Hr'; [| discriminate].
    cbn in H1, H2. injection H1 as <- <-. injection H2 as <- _.
    rewrite (contiguous_nth data i r r' (proj2 Hwf) Hr Hr'). ring.
  - subst fig. unfold create_borehole_log. subst data. cbn [ax_litho].
    set (mx := column_max (Row.Depth_Base first) (map Row.Depth_Base rest)).
    set (mn := column_min (Row.Depth_Top first) (map Row.Depth_Top rest)).
    destruct (column_max_spec (Row.Depth_Base first)
                (map Row.Depth_Base rest)) as [Hmx_in Hmx].
    destruct (column_min_spec (Row.Depth_Top first)
                (map Row.Depth_Top rest)) as [Hmn_in Hmn].
    fold mx in Hmx_in, Hmx. fold mn in Hmn_in, Hmn.
    change (Row.Depth_Base first :: map Row.Depth_Base rest)
      with (map Row.Depth_Base (first :: rest)) in Hmx_in, Hmx.
    change (Row.Depth_Top first :: map Row.Depth_Top rest)
      with (map Row.Depth_Top (first :: rest)) in Hmn_in, Hmn.
    assert (Emn : mn == Row.Depth_Top first).
    { apply Qle_antisym.
      - apply Hmn. now left.
      - apply in_map_iff in Hmn_in. destruct Hmn_in as (row & <- & Hrow).
        now destruct (well_formed_ends first rest row Hwf Hrow). }
    assert (Emx : mx == Row.Depth_Base (last rest first)).
    { apply Qle_antisym.
      - apply in_map_iff in Hmx_in. destruct Hmx_in as (row & <- & Hrow).
        now destruct (well_formed_ends first rest row Hwf Hrow).
      - apply Hmx. apply in_map. apply in_last. }
    exists mn, mx. split; [reflexivity |]. split; [exact Emn |].
    split; [exact Emx |]. rewrite Ebars, map_map. cbn [snd].
    rewrite (heights_telescope first rest (proj2 Hwf)), Emn, Emx. reflexivity.
Qed.

Lemma sample_lithology_column_is_tiled :
  well_formed sample_data
  /\ let fig := create_borehole_log empty_mapping sample_data (lit "BH001")
                  None in
     let bars := patches (calls (ax_litho fig)) in
     bars = [(0.0, 1.5 - 0.0); (1.5, 3.0 - 1.5); (3.0, 5.5 - 3.0);
             (5.5, 8.0 - 5.5); (8.0, 12.0 - 8.0)]
     /\ (forall (i : nat) (y h y' h' : Q),
           nth_error bars i = Some (y, h) ->
           nth_error bars (S i) = Some (y', h') ->
           y' == y + h)
     /\ exists min_depth max_depth : Q,
          ylim (ax_litho fig) = Some (max_depth, min_depth)
          /\ min_depth == 0.0
          /\ max_depth == 12.0
          /\ LogFacts.Qsum (map snd bars) == max_depth - min_depth.
Proof.
  split; [exact sample_data_well_formed |].
  exact (lithology_column_is_tiled empty_mapping _ _ (lit "BH001") None
           sample_data_well_formed).
Defined.

Lemma in_lithology_patch (m : mapping) (row : Row.t) (x y w h : Q)
    (c : str) (ht : option str) :
  In (add_patch x y w h c ht) (lithology_layer m row) ->
  let code := match Row.Geology_Code row with
              | Some code => code
              | None => lit "UNKNOWN"
              end in
  match m code with
  | Some props =>
      c = match color props with Some c' => c' | None => lit "#D3D3D3" end
      /\ ht = hatch props
  | None => c = lit "#D3D3D3" /\ ht = None
  end.
Proof.
  unfold lithology_layer.
  set (code := match Row.Geology_Code row with
               | Some code => code
               | None => lit "UNKNOWN"
               end).
  cbn zeta. destruct (m code) as [props |]; intros [H | H].
  - inversion H; subst. split; reflexivity.
  - destruct (Qltb _ _); [destruct H as [H | []]; discriminate | destruct H].
  - inversion H; subst. split; reflexivity.
  - destruct (Qltb _ _); [destruct H as [H | []]; discriminate | destruct H].
Qed.

(** Without a mapping file that can be used (no path given, an empty path,
    or a path whose loading fails) every layer is drawn light gray and
    without hatch, whatever its code. *)
Theorem layers_are_light_gray_without_mapping
    (load : str -> option mapping) (geology_csv_path : option str)
    (data : DataFrame) (borehole_id : str) (title : option str)
    (x y w h : Q) (c : str) (ht : option str) :
  match geology_csv_path with
  | Some ((_ :: _) as path) => load path = None
  | _ => True
  end ->
  In (add_patch x y w h c ht)
    (calls (ax_litho (create_professional_borehole_log load data borehole_id
                        geology_csv_path title))) ->
  c = lit "#D3D3D3" /\ ht = None.
Proof.
  intros Hload Hin. unfold create_professional_borehole_log in Hin.
  assert (Em : __init__ load geology_csv_path = empty_mapping).
  { unfold __init__. destruct geology_csv_path as [[| a path] |];
      try reflexivity. now rewrite Hload. }
  rewrite Em in Hin. unfold create_borehole_log in Hin.
  destruct data as [| first rest]; [destruct Hin |].
  cbn [ax_litho] in Hin. unfold _plot_lithology_column, plotted, add_axes in Hin.
  cbn [calls app] in Hin. apply in_flat_map in Hin.
  destruct Hin as (row & _ & Hin). apply in_lithology_patch in Hin.
  exact Hin.
Qed.

Lemma sample_layers_are_light_gray_without_mapping :
  let load := fun _ : str => @None mapping in
  let fig := create_professional_borehole_log load sample_data (lit "BH001")
               (Some (lit "missing.csv")) None in
  load (lit "missing.csv") = None
  /\ In (add_patch 0 0.0 1 (1.5 - 0.0) (lit "#D3D3D3") None)
       (calls (ax_litho fig))
  /\ lit "#D3D3D3" = lit "#D3D3D3" /\ @None str = None.
Proof.
  assert (H1 : (fun _ : str => @None mapping) (lit "missing.csv") = None)
    by reflexivity.
  assert (H2 : In (add_patch 0 0.0 1 (1.5 - 0.0) (lit "#D3D3D3") None)
                 (calls (ax_litho
                    (create_professional_borehole_log
                       (fun _ : str => @None mapping) sample_data
                       (lit "BH001") (Some (lit "missing.csv")) None))))
    by (left; reflexivity).
  split; [exact H1 |]. split; [exact H2 |].
  exact (layers_are_light_gray_without_mapping (fun _ => None)
           (Some (lit "missing.csv")) sample_data (lit "BH001") None
           _ _ _ _ _ _ H1 H2).
Defined.

(** *** The description column *)

Open Scope Z_scope.

(** Every description is drawn with the words it has, all of them and in
    their order, broken so that no line of two or more words is longer than
    40 characters; a row without description is drawn as "No description
    available". *)
Theorem descriptions_are_wrapped_to_40 (m : mapping) (data : DataFrame)
    (borehole_id : str) (title : option str)
    (x y : Q) (s : str) (ha : halign) (fontsize : Z) :
  In (text x y (Str s) ha fontsize)
    (calls (ax_desc (create_borehole_log m data borehole_id title))) ->
  exists row,
    In row data
    /\ split s = split match Row.Description row with
                       | Some d => d
                       | None => lit "No description available"
                       end
    /\ forall line,
         In line (lines_of s) ->
         (2 <= List.length (split line))%nat -> len line <= 40.
Proof.
  intro Hin. unfold create_borehole_log in Hin.
  destruct data as [| first rest]; [destruct Hin |].
  cbn [ax_desc] in Hin.
  unfold _plot_description_column, plotted, add_axes in Hin.
  cbn [calls app] in Hin. apply in_flat_map in Hin.
  destruct Hin as (row & Hrow & Hin). exists row. split; [exact Hrow |].
  unfold description_layer in Hin. destruct Hin as [H | [H | []]];
    [| discriminate].
  inversion H; subst.
  set (description := match Row.Description row with
                      | Some d => d
                      | None => lit "No description available"
                      end).
  split; [exact (split_wrap_text description 40) |].
  intros line Hline. exact (wrapped_line_fits description 40 line Hline).
Qed.

Lemma sample_description_is_wrapped_to_40 :
  let fig := create_borehole_log empty_mapping sample_data (lit "BH001")
               None in
  let s := lit "Soft brown clay with occasional organic"
           ++ [newline] ++ lit "matter" in
  In (text 0.05 ((0.0 + 1.5) / 2) (Str s) ha_left 8) (calls (ax_desc fig))
  /\ exists row,
       In row sample_data
       /\ split s = split match Row.Description row with
                          | Some d => d
                          | None => lit "No description available"
                          end
       /\ forall line,
            In line (lines_of s) ->
            (2 <= List.length (split line))%nat -> len line <= 40.
Proof.
  assert (H : In (text 0.05 ((0.0 + 1.5) / 2)
                    (Str (lit "Soft brown clay with occasional organic"
                          ++ [newline] ++ lit "matter")) ha_left 8)
                (calls (ax_desc
                   (create_borehole_log empty_mapping sample_data
                      (lit "BH001") None))))
    by (left; reflexivity).
  split; [exact H |].
  exact (descriptions_are_wrapped_to_40 empty_mapping sample_data
           (lit "BH001") None _ _ _ _ _ H).
Defined.

Close Scope Z_scope.

(** *** Empty data and the title *)

(** The centre of an axes, left to right, and its upper edge in the
    figure. *)
Definition centre_x (ax : axes) : Q :=
  let '(x, _, width, _) := position ax in x + width / 2.

Definition upper_edge (ax : axes) : Q :=
  let '(_, bottom, _, height) := position ax in bottom + height.

Lemma description_calls_nth (data : DataFrame) (i : nat) (row : Row.t) :
  nth_error data i = Some row ->
  nth_error (flat_map description_layer data) (2 * i)
  = Some (text 0.05 ((Row.Depth_Top row + Row.Depth_Base row) / 2)
            (Str (_wrap_text match Row.Description row with
                             | Some d => d
                             | None => lit "No description available"
                             end 40))
            ha_left
            (if Qltb 2.0 (Row.Depth_Base row - Row.Depth_Top row) then 9
             else if Qltb 1.0 (Row.Depth_Base row - Row.Depth_Top row) then 8
             else 7)%Z)
  /\ nth_error (flat_map description_layer data) (2 * i + 1)
     = Some (axhline (Row.Depth_Base row) 0.3).
Proof.
  revert i. induction data as [| r data IH]; intros i H.
  - now destruct i.
  - destruct i as [| i].
    + injection H as ->. split; reflexivity.
    + cbn [nth_error] in H. destruct (IH i H) as [H1 H2].
      replace (2 * S i)%nat with (S (S (2 * i))) by lia.
      replace (S (S (2 * i)) + 1)%nat with (S (S (2 * i + 1))) by lia.
      split; [exact H1 | exact H2].
Qed.

Lemma description_calls_length (data : DataFrame) :
  List.length (flat_map description_layer data) = (2 * List.length data)%nat.
Proof.
  induction data as [| row data IH]; [reflexivity |].
  cbn [flat_map]. rewrite length_app, IH.
  change (List.length (description_layer row)) with 2%nat.
  cbn [List.length]. lia.
Qed.

(** A figure for an empty DataFrame has its three axes and nothing else: no
    call on any of them, no depth range, no title and no column headers.
    For every other DataFrame the title is the one given, or "Borehole Log: "
    with the borehole id when none or the empty string is given; the texts
    of the figure are the three column headers, in the order of the columns,
    each over the centre of its axes and above the upper edge the three axes
    share; and the description column holds one text and one separator per
    row, in the order of the rows, the text at the middle depth of the row
    and the separator at its base. *)
Theorem empty_data_gives_a_blank_figure (m : mapping) (data : DataFrame)
    (borehole_id : str) (title : option str) :
  let fig := create_borehole_log m data borehole_id title in
  (data = [] ->
     calls (ax_depth fig) = [] /\ calls (ax_litho fig) = []
     /\ calls (ax_desc fig) = []
     /\ ylim (ax_depth fig) = None /\ ylim (ax_litho fig) = None
     /\ ylim (ax_desc fig) = None
     /\ suptitle fig = None /\ fig_texts fig = [])
  /\ (data <> [] ->
      suptitle fig
      = Some match title with
             | Some [] | None => lit "Borehole Log: " ++ borehole_id
             | Some given => given
             end
      /\ fig_texts fig
         = [ text (centre_x (ax_depth fig)) 0.92 (Str (lit "Depth (m)"))
               ha_center 12;
             text (centre_x (ax_litho fig)) 0.92 (Str (lit "Lithology"))
               ha_center 12;
             text (centre_x (ax_desc fig)) 0.92 (Str (lit "Description"))
               ha_center 12 ]
      /\ upper_edge (ax_depth fig) < 0.92
      /\ upper_edge (ax_litho fig) = upper_edge (ax_depth fig)
      /\ upper_edge (ax_desc fig) = upper_edge (ax_depth fig)
      /\ List.length (calls (ax_desc fig)) = (2 * List.length data)%nat
      /\ forall (i : nat) (row : Row.t),
           nth_error data i = Some row ->
           exists (s : str) (fontsize : Z),
             nth_error (calls (ax_desc fig)) (2 * i)
             = Some (text 0.05 ((Row.Depth_Top row + Row.Depth_Base row) / 2)
                       (Str s) ha_left fontsize)
             /\ nth_error (calls (ax_desc fig)) (2 * i + 1)
                = Some (axhline (Row.Depth_Base row) 0.3)).
Proof.
  cbn zeta. split.
  - intros ->. repeat split.
  - intro Hne. destruct data as [| first rest]; [congruence |].
    unfold create_borehole_log.
    cbn [suptitle fig_texts ax_depth ax_litho ax_desc].
    unfold _plot_depth_column, _plot_lithology_column,
      _plot_description_column, plotted, add_axes, centre_x, upper_edge.
    cbn [calls app position].
    split; [now destruct title as [[| a t] |] |].
    split; [reflexivity |]. split; [reflexivity |].
    split; [reflexivity |]. split; [reflexivity |].
    split; [apply description_calls_length |].
    intros i row Hrow.
    destruct (description_calls_nth _ i row Hrow) as [H1 H2].
    eexists _, _. split; [exact H1 | exact H2].
Qed.

End ColumnsFacts.

(** * Properties of the single-page log routine *)

Module OnePageFacts.

Import Py PyFacts Log LogFacts OnePage.
Open Scope Q_scope.

(** *** The depth mapping and the ruler *)

Lemma depth_to_y_linear (log_depth d : Q) :
  depth_to_y log_depth d == 1 - 0.975 * (d / log_depth).
Proof. unfold depth_to_y, bottom_line_y. ring. Qed.

Lemma depth_to_y_tenths (log_depth t : Q) :
  0 < log_depth ->
  depth_to_y log_depth (t * (log_depth / 10)) == 1 - 0.0975 * t.
Proof.
  intro H. rewrite depth_to_y_linear. field. intro E. rewrite E in H. lra.
Qed.

Lemma depth_to_y_decreases (log_depth d d' : Q) :
  0 < log_depth -> d < d' ->
  depth_to_y log_depth d' < depth_to_y log_depth d.
Proof.
  intros Hl Hd. rewrite !depth_to_y_linear.
  assert (H : d / log_depth < d' / log_depth).
  { unfold Qdiv. apply Qmult_lt_compat_r; [| exact Hd].
    now apply Qinv_lt_0_compat. }
  lra.
Qed.

Lemma depth_to_y_eq (log_depth d d' : Q) :
  d == d' -> depth_to_y log_depth d == depth_to_y log_depth d'.
Proof. intro E. unfold depth_to_y. now rewrite E. Qed.

Lemma depth_to_y_end (log_depth : Q) :
  0 < log_depth -> depth_to_y log_depth log_depth == bottom_line_y.
Proof.
  intro H. unfold depth_to_y, bottom_line_y. field.
  intro E. rewrite E in H. lra.
Qed.

Lemma main_marker_height (marker : Z) :
  In marker (range 1 11) ->
  exists y,
    y == 1 - 0.0975 * inject_Z marker
    /\ main_marker marker =
       [ plot ruler_x (ruler_x + main_tick_length) y y 1.1 31;
         text (ruler_x + main_tick_length + ruler_width * 0.1) y
           (Int marker) va_center ha_left 32 ].
Proof.
  rewrite in_range. intro Hm. unfold main_marker.
  destruct (Z.ltb_spec marker 10) as [Hlt | Hge]; eexists;
    (split; [| reflexivity]).
  - unfold bottom_line_y. field.
  - replace marker with 10%Z by lia. reflexivity.
Qed.

Lemma subtick_height (i sub : Z) :
  In i (range 0 10) ->
  exists y,
    y == 1 - 0.0975 * (inject_Z i + inject_Z sub / 10)
    /\ subtick i sub
       = plot ruler_x (ruler_x + sub_tick_length) y y 0.7 30.
Proof.
  rewrite in_range. intro Hi. unfold subtick.
  destruct (Z.ltb_spec i 9) as [Hlt | Hge]; eexists;
    (split; [| reflexivity]).
  - unfold bottom_line_y. field.
  - replace i with 9%Z by lia. unfold bottom_line_y.
    change (inject_Z 9) with 9. field.
Qed.

(** The ruler of the single page does not count metres: its mark [m]
    (1 to 10) and its subticks sit at the heights of the depths
    [m * log_depth / 10] and [(i + sub/10) * log_depth / 10], the tenths of
    the depth of the log, the tenth mark and the last group of subticks
    included; mark [m] is at the height of depth [m] exactly when the log is
    10 deep. *)
Theorem one_page_ruler_counts_tenths_of_the_depth (log_depth : Q) :
  0 < log_depth ->
  (forall marker : Z,
      In marker (range 1 11) ->
      exists y,
        main_marker marker =
        [ plot ruler_x (ruler_x + main_tick_length) y y 1.1 31;
          text (ruler_x + main_tick_length + ruler_width * 0.1) y
            (Int marker) va_center ha_left 32 ]
        /\ y == depth_to_y log_depth (inject_Z marker * (log_depth / 10))
        /\ (y == depth_to_y log_depth (inject_Z marker) <-> log_depth == 10))
  /\ (forall i sub : Z,
        In i (range 0 10) -> In sub (range 1 10) ->
        exists y,
          subtick i sub
          = plot ruler_x (ruler_x + sub_tick_length) y y 0.7 30
          /\ y == depth_to_y log_depth
                    ((inject_Z i + inject_Z sub / 10) * (log_depth / 10))).
Proof.
  intro Hl. split.
  - intros marker Hm. destruct (main_marker_height marker Hm) as (y & Ey & E).
    exists y. split; [exact E |]. split.
    + now rewrite depth_to_y_tenths.
    + apply in_range in Hm.
      assert (Hpos : 0 < inject_Z marker)
        by (change 0 with (inject_Z 0); rewrite <- Zlt_Qlt; lia).
      rewrite Ey, depth_to_y_linear.
      set (a := inject_Z marker) in *.
      assert (Hne : ~ log_depth == 0) by (intro E0; rewrite E0 in Hl; lra).
      split; intro H.
      * assert (H1 : a / log_depth == a * (1 # 10)) by lra.
        assert (H2 : a == a * (1 # 10) * log_depth).
        { rewrite <- H1. field. exact Hne. }
        assert (H3 : a * (log_depth - 10) == 0) by lra.
        apply Qmult_integral in H3. destruct H3 as [H3 | H3]; lra.
      * rewrite H. field.
  - intros i sub Hi Hs. destruct (subtick_height i sub Hi) as (y & Ey & E).
    exists y. split; [exact E |]. now rewrite depth_to_y_tenths.
Qed.

(** With the 15 m of the dummy data the mark 10 is at the bottom of the
    log, the height of depth 15. *)
Lemma dummy_ruler_counts_tenths_of_the_depth :
  0 < 15.0
  /\ exists y,
       main_marker 10 =
       [ plot ruler_x (ruler_x + main_tick_length) y y 1.1 31;
         text (ruler_x + main_tick_length + ruler_width * 0.1) y
           (Int 10) va_center ha_left 32 ]
       /\ y == depth_to_y 15.0 (inject_Z 10 * (15.0 / 10))
       /\ (y == depth_to_y 15.0 (inject_Z 10) <-> 15.0 == 10).
Proof.
  assert (H : 0 < 15.0) by reflexivity.
  split; [exact H |].
  exact (proj1 (one_page_ruler_counts_tenths_of_the_depth 15.0 H) 10%Z
           ltac:(vm_compute; tauto)).
Defined.

(** *** The bars and the dividers *)

(** Lower edge and height of the lithology bars (the rectangles of
    [zorder] 2) among the calls, in call order; the heights of the dividers
    (the lines of [zorder] 15). *)
Definition bars (l : list draw) : list (Q * Q) :=
  flat_map (fun d => match d with
                     | add_patch _ y _ height z =>
                         if (z =? 2)%Z then [(y, height)] else []
                     | _ => []
                     end) l.

Definition dividers (l : list draw) : list Q :=
  flat_map (fun d => match d with
                     | plot _ _ y _ _ z => if (z =? 15)%Z then [y] else []
                     | _ => []
                     end) l.

(** The lower edge of the bar of row [i]. *)
Definition bar_base (n : nat) (log_depth : Q) (irow : nat * Row.t) : Q :=
  if Nat.eqb (fst irow) (n - 1) then bottom_line_y
  else depth_to_y log_depth (Row.Depth_Base (snd irow)).

Lemma bars_draw_row (n : nat) (log_depth : Q) (irow : nat * Row.t) :
  bars (draw_row n log_depth irow)
  = [ (bar_base n log_depth irow,
       depth_to_y log_depth (Row.Depth_Top (snd irow))
       - bar_base n log_depth irow) ].
Proof.
  destruct irow as [i row]. unfold draw_row, bar_base, bars.
  cbn [fst snd]. rewrite !flat_map_app.
  destruct (SinglePage.top_label_shown i row); destruct (0 <? i)%nat;
    reflexivity.
Qed.

Lemma dividers_draw_row (n : nat) (log_depth : Q) (irow : nat * Row.t) :
  dividers (draw_row n log_depth irow)
  = if (0 <? fst irow)%nat then [bar_base n log_depth irow] else [].
Proof.
  destruct irow as [i row]. unfold draw_row, bar_base, dividers.
  cbn [fst snd]. rewrite !flat_map_app.
  destruct (SinglePage.top_label_shown i row); destruct (0 <? i)%nat;
    reflexivity.
Qed.

Lemma no_bars_in_lines (xs : list Q) :
  bars (map (fun x_val => plot x_val x_val 0 1 1 20) xs) = [].
Proof. induction xs as [| x xs IH]; [reflexivity | exact IH]. Qed.

Lemma no_dividers_in_lines (xs : list Q) :
  dividers (map (fun x_val => plot x_val x_val 0 1 1 20) xs) = [].
Proof. induction xs as [| x xs IH]; [reflexivity | exact IH]. Qed.

Lemma bars_app (l1 l2 : list draw) : bars (l1 ++ l2) = bars l1 ++ bars l2.
Proof. apply flat_map_app. Qed.

Lemma dividers_app (l1 l2 : list draw) :
  dividers (l1 ++ l2) = dividers l1 ++ dividers l2.
Proof. apply flat_map_app. Qed.

Lemma bars_rows (n : nat) (log_depth : Q) (l : list (nat * Row.t)) :
  bars (flat_map (draw_row n log_depth) l)
  = map (fun irow =>
           (bar_base n log_depth irow,
            depth_to_y log_depth (Row.Depth_Top (snd irow))
            - bar_base n log_depth irow)) l.
Proof.
  induction l as [| irow l IH]; [reflexivity |].
  cbn [flat_map map]. now rewrite bars_app, bars_draw_row, IH.
Qed.

Lemma dividers_rows (n : nat) (log_depth : Q) (l : list (nat * Row.t)) :
  dividers (flat_map (draw_row n log_depth) l)
  = flat_map (fun irow =>
                if (0 <? fst irow)%nat
                then [bar_base n log_depth irow] else []) l.
Proof.
  induction l as [| irow l IH]; [reflexivity |].
  cbn [flat_map]. now rewrite dividers_app, dividers_draw_row, IH.
Qed.

Lemma bars_draw_log (data : DataFrame) (log_depth : Q) :
  bars (draw_log data log_depth)
  = map (fun irow =>
           (bar_base (List.length data) log_depth irow,
            depth_to_y log_depth (Row.Depth_Top (snd irow))
            - bar_base (List.length data) log_depth irow))
      (enumerate data).
Proof.
  unfold draw_log. rewrite !bars_app, no_bars_in_lines, bars_rows.
  replace (bars main_markers) with (@nil (Q * Q)) by reflexivity.
  replace (bars subticks) with (@nil (Q * Q)) by reflexivity.
  cbn. now rewrite app_nil_r.
Qed.

Lemma dividers_draw_log (data : DataFrame) (log_depth : Q) :
  dividers (draw_log data log_depth)
  = flat_map (fun irow =>
                if (0 <? fst irow)%nat
                then [bar_base (List.length data) log_depth irow] else [])
      (enumerate data).
Proof.
  unfold draw_log. rewrite !dividers_app, no_dividers_in_lines, dividers_rows.
  replace (dividers main_markers) with (@nil Q) by reflexivity.
  replace (dividers subticks) with (@nil Q) by reflexivity.
  cbn. now rewrite app_nil_r.
Qed.

Lemma enumerate_nth (data : DataFrame) (i : nat) (row : Row.t) :
  nth_error data i = Some row ->
  nth_error (enumerate data) i = Some (i, row).
Proof.
  intro H. apply (enumerate_from_nth_error data 0 i row). exact H.
Qed.

Lemma enumerate_from_length {A : Type} (l : list A) (k : nat) :
  List.length (enumerate_from k l) = List.length l.
Proof.
  revert k. induction l as [| x l IH]; intro k; [reflexivity |].
  cbn [enumerate_from List.length]. now rewrite IH.
Qed.

Lemma enumerate_length {A : Type} (l : list A) :
  List.length (enumerate l) = List.length l.
Proof. apply enumerate_from_length. Qed.

Lemma enumerate_from_nth_inv {A : Type} (l : list A) (k i j : nat) (x : A) :
  nth_error (enumerate_from k l) i = Some (j, x) ->
  j = (k + i)%nat /\ nth_error l i = Some x.
Proof.
  revert k i. induction l as [| y l IH]; intros k i H.
  - now destruct i.
  - destruct i as [| i]; cbn in H.
    + injection H as <- <-. split; [lia | reflexivity].
    + apply IH in H. destruct H as [-> H]. split; [lia | exact H].
Qed.

Lemma enumerate_nth_inv {A : Type} (l : list A) (i j : nat) (x : A) :
  nth_error (enumerate l) i = Some (j, x) ->
  j = (0 + i)%nat /\ nth_error l i = Some x.
Proof. apply enumerate_from_nth_inv. Qed.

Lemma contiguous_next (data : DataFrame) (i : nat) (r r' : Row.t) :
  contiguous data ->
  nth_error data i = Some r -> nth_error data (S i) = Some r' ->
  Row.Depth_Top r' == Row.Depth_Base r.
Proof.
  revert i. induction data as [| a data IH]; intros i Hc Hr Hr'.
  - now destruct i.
  - destruct Hc as [Ha Hc]. destruct i as [| i].
    + cbn in Hr, Hr'. injection Hr as <-.
      destruct data as [| b data]; [discriminate |].
      cbn in Hr'. injection Hr' as <-. exact Ha.
    + exact (IH i Hc Hr Hr').
Qed.

(** In a well-formed list the last row ends at the deepest base. *)
Lemma last_row_is_deepest (data : DataFrame) (log_depth : Q) (row : Row.t) :
  well_formed data ->
  Depth_Base_max data = Some log_depth ->
  nth_error data (List.length data - 1) = Some row ->
  Row.Depth_Base row == log_depth.
Proof.
  intros Hwf Hmax Hrow.
  destruct (Depth_Base_max_spec _ _ Hmax) as [(r & Hr & <-) Hle].
  apply Qle_antisym; [apply Hle; eapply nth_error_In; exact Hrow |].
  apply In_nth_error in Hr. destruct Hr as (j & Hj).
  assert (Hjn : (j < List.length data)%nat)
    by (apply nth_error_Some; congruence).
  destruct (Nat.eq_dec j (List.length data - 1)) as [-> | Hne].
  - rewrite Hrow in Hj. injection Hj as <-. lra.
  - pose proof (StronglySorted_nth row_before data j (List.length data - 1)
                  r row (well_formed_sorted data Hwf) ltac:(lia) Hj Hrow)
      as Hb.
    unfold row_before in Hb. destruct Hwf as [Hv _].
    rewrite Forall_forall in Hv.
    destruct (Hv row (nth_error_In _ _ Hrow)) as [_ Hrv]. lra.
Qed.

Lemma bar_base_is_image (data : DataFrame) (log_depth : Q) (i : nat)
    (row : Row.t) :
  well_formed data ->
  Depth_Base_max data = Some log_depth ->
  nth_error data i = Some row ->
  bar_base (List.length data) log_depth (i, row)
  == depth_to_y log_depth (Row.Depth_Base row).
Proof.
  intros Hwf Hmax Hrow. unfold bar_base. cbn [fst snd].
  destruct (Nat.eqb_spec i (List.length data - 1)) as [-> | Hne];
    [| reflexivity].
  rewrite (depth_to_y_eq _ _ _ (last_row_is_deepest _ _ _ Hwf Hmax Hrow)).
  symmetry. apply depth_to_y_end.
  apply (max_base_positive data); [apply Hwf |].
  now apply Depth_Base_max_spec.
Qed.

(** For a well-formed interval list the bars of the single page are stacked
    without gap: there is one bar per row, from the image of the row's top
    down to the image of its base and of positive height; each bar starts
    where the one above it ends, and for the last row the forced bottom
    [bottom_line_y] is the image of its base. *)
Theorem one_page_bars_are_stacked (data : DataFrame) (log_depth : Q) :
  well_formed data ->
  Depth_Base_max data = Some log_depth ->
  let drawn := bars (draw_log data log_depth) in
  List.length drawn = List.length data
  /\ (forall (i : nat) (row : Row.t),
        nth_error data i = Some row ->
        exists y h : Q,
          nth_error drawn i = Some (y, h)
          /\ y == depth_to_y log_depth (Row.Depth_Base row)
          /\ y + h == depth_to_y log_depth (Row.Depth_Top row)
          /\ 0 < h)
  /\ (forall (i : nat) (y h y' h' : Q),
        nth_error drawn i = Some (y, h) ->
        nth_error drawn (S i) = Some (y', h') ->
        y' + h' == y).
Proof.
  intros Hwf Hmax drawn. subst drawn. rewrite bars_draw_log.
  assert (Hpos : 0 < log_depth).
  { apply (max_base_positive data); [apply Hwf |].
    now apply Depth_Base_max_spec. }
  assert (Hrowfacts : forall i row,
            nth_error data i = Some row ->
            bar_base (List.length data) log_depth (i, row)
            == depth_to_y log_depth (Row.Depth_Base row)
            /\ depth_to_y log_depth (Row.Depth_Base row)
               < depth_to_y log_depth (Row.Depth_Top row)).
  { intros i row Hrow. split; [now apply bar_base_is_image |].
    apply depth_to_y_decreases; [exact Hpos |].
    destruct Hwf as [Hv _]. rewrite Forall_forall in Hv.
    now destruct (Hv row (nth_error_In _ _ Hrow)). }
  split; [| split].
  - now rewrite length_map, enumerate_length.
  - intros i row Hrow. rewrite nth_error_map, (enumerate_nth _ _ _ Hrow).
    cbn [option_map snd]. eexists _, _. split; [reflexivity |].
    destruct (Hrowfacts i row Hrow) as [E Hlt]. split; [exact E |].
    split; [ring | lra].
  - intros i y h y' h' H1 H2. rewrite nth_error_map in H1, H2.
    destruct (nth_error (enumerate data) i) as [[i1 r1] |] eqn:E1;
      [| discriminate].
    destruct (nth_error (enumerate data) (S i)) as [[i2 r2] |] eqn:E2;
      [| discriminate].
    cbn [option_map snd] in H1, H2.
    injection H1 as <- _. injection H2 as <- <-.
    apply enumerate_nth_inv in E1, E2.
    destruct E1 as [-> Hr1]. destruct E2 as [-> Hr2]. cbn [Nat.add] in *.
    destruct (Hrowfacts i r1 Hr1) as [E _]. rewrite E.
    rewrite (depth_to_y_eq _ _ _
               (contiguous_next data i r1 r2 (proj2 Hwf) Hr1 Hr2)).
    ring.
Qed.

Lemma dummy_bars_are_stacked :
  well_formed DUMMY_BOREHOLE_DATA
  /\ Depth_Base_max DUMMY_BOREHOLE_DATA = Some 15.0
  /\ let drawn := bars (draw_log DUMMY_BOREHOLE_DATA 15.0) in
     List.length drawn = 6%nat
     /\ (forall (i : nat) (row : Row.t),
           nth_error DUMMY_BOREHOLE_DATA i = Some row ->
           exists y h : Q,
             nth_error drawn i = Some (y, h)
             /\ y == depth_to_y 15.0 (Row.Depth_Base row)
             /\ y + h == depth_to_y 15.0 (Row.Depth_Top row)
             /\ 0 < h)
     /\ (forall (i : nat) (y h y' h' : Q),
           nth_error drawn i = Some (y, h) ->
           nth_error drawn (S i) = Some (y', h') ->
           y' + h' == y).
Proof.
  split; [exact dummy_data_well_formed |]. split; [reflexivity |].
  exact (one_page_bars_are_stacked DUMMY_BOREHOLE_DATA 15.0
           dummy_data_well_formed eq_refl).
Defined.

Lemma dividers_from (n : nat) (log_depth : Q) (k : nat) (l : DataFrame) :
  flat_map (fun irow =>
              if (0 <? fst irow)%nat then [bar_base n log_depth irow] else [])
    (enumerate_from (S k) l)
  = map (bar_base n log_depth) (enumerate_from (S k) l).
Proof.
  revert k. induction l as [| r l IH]; intro k; [reflexivity |].
  cbn [enumerate_from flat_map map fst]. rewrite IH. reflexivity.
Qed.

Lemma dividers_of_rows (data : DataFrame) (log_depth : Q) :
  dividers (draw_log data log_depth)
  = map (bar_base (List.length data) log_depth) (enumerate_from 1 (tl data)).
Proof.
  rewrite dividers_draw_log. unfold enumerate.
  destruct data as [| r rest]; [reflexivity |].
  cbn [enumerate_from flat_map tl fst Nat.ltb Nat.leb app].
  apply dividers_from.
Qed.

Lemma nth_error_tl {A : Type} (l : list A) (k : nat) :
  nth_error (tl l) k = nth_error l (S k).
Proof. destruct l; [now destruct k | reflexivity]. Qed.

(** The single page draws its dividers at the bases of the rows, and only
    from the second row on: for a well-formed list of [n] rows there are
    [n - 1] dividers, the one at position [k] at the image of the base of
    row [k + 1] (in exact arithmetic, in which the height [bottom_line_y]
    forced for the last row is the image of its base); all of them lie
    below the image of the base of the first row, so the boundary between
    the first two rows gets none; and the last of them is drawn at
    [bottom_line_y], on top of the closing line. *)
Theorem one_page_dividers_skip_the_first_boundary (data : DataFrame)
    (log_depth : Q) :
  well_formed data ->
  Depth_Base_max data = Some log_depth ->
  let lines := dividers (draw_log data log_depth) in
  List.length lines = (List.length data - 1)%nat
  /\ (forall (k : nat) (y : Q),
        nth_error lines k = Some y ->
        exists row,
          nth_error data (S k) = Some row
          /\ y == depth_to_y log_depth (Row.Depth_Base row))
  /\ (forall (first : Row.t) (y : Q),
        nth_error data 0 = Some first ->
        In y lines ->
        y < depth_to_y log_depth (Row.Depth_Base first))
  /\ ((2 <= List.length data)%nat ->
      nth_error lines (List.length data - 2) = Some bottom_line_y
      /\ In (plot legend_left (desc_left + desc_width)
               bottom_line_y bottom_line_y 1 16) (draw_log data log_depth)).
Proof.
  intros Hwf Hmax lines. subst lines. rewrite dividers_of_rows.
  assert (Hpos : 0 < log_depth).
  { apply (max_base_positive data); [apply Hwf |].
    now apply Depth_Base_max_spec. }
  assert (Hnth : forall k y,
            nth_error (map (bar_base (List.length data) log_depth)
                         (enumerate_from 1 (tl data))) k = Some y ->
            exists row,
              nth_error data (S k) = Some row
              /\ y == depth_to_y log_depth (Row.Depth_Base row)).
  { intros k y H. rewrite nth_error_map in H.
    destruct (nth_error (enumerate_from 1 (tl data)) k) as [[j row] |] eqn:E;
      [| discriminate].
    cbn [option_map] in H. injection H as <-.
    apply enumerate_from_nth_inv in E. destruct E as [-> Hrow].
    rewrite nth_error_tl in Hrow. exists row. split; [exact Hrow |].
    now apply bar_base_is_image. }
  split; [| split; [exact Hnth | split]].
  - rewrite length_map, enumerate_from_length.
    destruct data; [reflexivity | cbn; lia].
  - intros first y Hfirst Hy. apply In_nth_error in Hy.
    destruct Hy as (k & Hk). destruct (Hnth k y Hk) as (row & Hrow & ->).
    apply depth_to_y_decreases; [exact Hpos |].
    pose proof (StronglySorted_nth row_before data 0 (S k) first row
                  (well_formed_sorted data Hwf) ltac:(lia) Hfirst Hrow) as Hb.
    unfold row_before in Hb. destruct Hwf as [Hv _].
    rewrite Forall_forall in Hv.
    destruct (Hv row (nth_error_In _ _ Hrow)) as [_ Hrv]. lra.
  - intro H2. split.
    + destruct (nth_error (tl data) (List.length data - 2)) as [row |] eqn:E.
      * rewrite nth_error_map.
        rewrite (proj2 (enumerate_from_nth_error (tl data) 1
                          (List.length data - 2) row) E).
        cbn [option_map]. unfold bar_base. cbn [fst].
        replace (1 + (List.length data - 2))%nat
          with (List.length data - 1)%nat by lia.
        now rewrite Nat.eqb_refl.
      * apply nth_error_None in E. destruct data as [| r rest];
          cbn [tl List.length] in *; lia.
    + unfold draw_log. do 4 (apply in_or_app; right).
      apply in_or_app. left. now left.
Qed.

Lemma dummy_dividers_skip_the_first_boundary :
  well_formed DUMMY_BOREHOLE_DATA
  /\ Depth_Base_max DUMMY_BOREHOLE_DATA = Some 15.0
  /\ let lines := dividers (draw_log DUMMY_BOREHOLE_DATA 15.0) in
     List.length lines = 5%nat
     /\ (forall (k : nat) (y : Q),
           nth_error lines k = Some y ->
           exists row,
             nth_error DUMMY_BOREHOLE_DATA (S k) = Some row
             /\ y == depth_to_y 15.0 (Row.Depth_Base row))
     /\ (forall (first : Row.t) (y : Q),
           nth_error DUMMY_BOREHOLE_DATA 0 = Some first ->
           In y lines ->
           y < depth_to_y 15.0 (Row.Depth_Base first))
     /\ ((2 <= 6)%nat ->
         nth_error lines 4 = Some bottom_line_y
         /\ In (plot legend_left (desc_left + desc_width)
                  bottom_line_y bottom_line_y 1 16)
              (draw_log DUMMY_BOREHOLE_DATA 15.0)).
Proof.
  split; [exact dummy_data_well_formed |]. split; [reflexivity |].
  exact (one_page_dividers_skip_the_first_boundary DUMMY_BOREHOLE_DATA 15.0
           dummy_data_well_formed eq_refl).
Defined.

End OnePageFacts.

(** * Properties of the page header *)

Module HeaderFacts.

Import Py PyFacts Header.
Open Scope Q_scope.

(** The rectangles among the calls, in call order: left edge, lower edge,
    width and height. *)
Definition rects (l : list draw) : list (Q * Q * Q * Q) :=
  flat_map (fun d => match d with
                     | rectangle x y width height => [(x, y, width, height)]
                     | _ => []
                     end) l.

Section Measured.

Variable text_width : string -> Q.
Hypothesis text_width_nonneg : forall s, 0 <= text_width s.









End Measured.


(** Two cells with equal edges. *)
Definition same_cell (a b : Q * Q * Q * Q) : Prop :=
  let '(x, y, width, height) := a in
  let '(x', y', width', height') := b in
  x == x' /\ y == y' /\ width == width' /\ height == height'.

(** The last row of the header and the body of the log have the same
    columns: the nine cells of the row start at the positions [log_col_x]
    of the log routines and have the widths [log_col_widths], they end at
    the right edge 1 of the axes, and the column lines of the log are the
    right edges of the first eight cells.  The header row is 0.2 high and
    sits on the lower edge of the header axes. *)
Theorem header_columns_are_the_log_columns :
  Forall2 same_cell (rects new_row)
    (map (fun i => (nth i Log.log_col_x 0, 0, nth i Log.log_col_widths 0, 0.2))
       (seq 0 9))
  /\ Forall2 Qeq
       (map (fun cell => let '(x, _, width, _) := cell in x + width)
          (removelast (rects new_row)))
       (removelast (tl Log.log_col_x))
  /\ Forall (fun cell => let '(x, _, width, _) := cell in
                         0 <= x /\ 0 < width /\ x + width <= 1)
       (rects new_row).
Proof.
  split; [| split].
  - repeat constructor; vm_compute; reflexivity.
  - repeat constructor; vm_compute; reflexivity.
  - repeat constructor; vm_compute; congruence.
Qed.

End HeaderFacts.
